(** * MockView interview engine: a shallow embedding and its properties

    The development follows the TypeScript sources of the adaptive
    interview engine:

    - [src/lib/services/interview-engine.ts]: the plan builder
      ([generateQuestionPlan], [initializeInterviewState]), the evaluator
      ([evaluateResponse]), the decision engine ([determineNextAction]) and
      the orchestrator ([startInterview], [processAnswer]);
    - [src/lib/ai/ollama.ts]: the generation gateway ([generateCompletion],
      [generateJSON]);
    - the handler of [POST /api/interview/finish]: the finish request;
    - [src/lib/services/session.ts], [src/lib/config.ts] and the Sequelize
      models under [src/lib/db/models].

    Modelling conventions.
    - A JavaScript [number] is a binary64 value.  The plan builder rounds
      the product of a quotient of weights to a number of questions, so it
      is modelled in binary64 ([JS.Number], the [SpecFloat] of the Standard
      Library at precision 53): a weight of the data is the number of its
      JSON text, read as the nearest binary64 value.  Elsewhere a number is
      an exact rational ([Q]): the decisions of the engine compare a score
      with 2, 3 and 4 and apply [Math.max], [Math.min] and [Math.round],
      which are exact on binary64 values; the running average of the scores
      and the weights that [normalizeCompetencyWeights] rescales are the
      exact values, of which the program holds the roundings.  Integer
      columns and counters are [Z].  [NaN] and the infinities are outside
      the model.
    - A thrown exception is the [Throws] case of [outcome]; the error object
      keeps its constructor name and its message.
    - The database is a record of tables (lists of rows) with the
      auto-increment counters made explicit; an [async] function that talks
      to the database is a function from a store to an outcome and a store.
      [create] appends a row, [instance.update(values)] writes the named
      columns of the row, [destroy] removes the row and what the foreign
      keys cascade to.  A thrown exception loses what was changed in memory
      only.
    - What the generative backend answers is not determined by the program:
      it is an argument ([Gateway.Backend] for the HTTP layer, [GenerateJSON]
      for the engine). *)

From Stdlib Require Import ZArith QArith Qround Lia Lqa DecimalString Ascii.
From Stdlib Require SpecFloat.
From stdpp Require Import base option list strings gmap.

Open Scope Z_scope.

(** ** JavaScript values *)

Module JS.

(** [Math.max] and [Math.min] on two numbers. *)
Definition Math_max (a b : Q) : Q := if Qle_bool a b then b else a.
Definition Math_min (a b : Q) : Q := if Qle_bool a b then a else b.

(** [Math.round]: the nearest integer, halves towards plus infinity. *)
Definition Math_round (x : Q) : Z := Qfloor (x + (1 # 2)).

(** The comparison operators on numbers. *)
Definition ge (a b : Q) : bool := Qle_bool b a.
Definition le (a b : Q) : bool := Qle_bool a b.
Definition gt (a b : Q) : bool := negb (Qle_bool a b).
Definition strict_eq (a b : Q) : bool := Qeq_bool a b.

(** Template-literal rendering of an integer. *)
Definition String_of_Z (z : Z) : string := NilZero.string_of_int (Z.to_int z).

(** An error object: the name of its constructor and its message. *)
Record Error := mkError { name : string; message : string }.

Definition new_Error (msg : string) : Error := mkError "Error" msg.
Definition new_TypeError (msg : string) : Error := mkError "TypeError" msg.

(** [lastError?.message] inside a template literal. *)
Definition optional_message (e : option Error) : string :=
  match e with
  | Some e => message e
  | None => "undefined"
  end.

(** Binary64 numbers: [+], [*] and [/] round to nearest, ties to even. *)
Module Number.

Definition t : Type := SpecFloat.spec_float.

Definition prec : Z := 53.
Definition emax : Z := 1024.

Definition add : t -> t -> t := SpecFloat.SFadd prec emax.
Definition mul : t -> t -> t := SpecFloat.SFmul prec emax.
Definition div : t -> t -> t := SpecFloat.SFdiv prec emax.

(** [a > b] and [a === b]; both are false when an argument is [NaN]. *)
Definition gt (a b : t) : bool := SpecFloat.SFltb b a.
Definition eqb (a b : t) : bool := SpecFloat.SFeqb a b.

(** The number of an integer: the nearest binary64 value (the integer
    itself below 2^53). *)
Definition of_Z (z : Z) : t := SpecFloat.binary_normalize prec emax z 0 false.

(** The number a JSON number denotes: the binary64 value nearest to the
    fraction, the quotient of its numerator and denominator rounded once. *)
Definition of_Q (q : Q) : t :=
  match Qnum q with
  | Z0 => SpecFloat.S754_zero false
  | Zpos n =>
      div (SpecFloat.S754_finite false n 0) (SpecFloat.S754_finite false (Qden q) 0)
  | Zneg n =>
      div (SpecFloat.S754_finite true n 0) (SpecFloat.S754_finite false (Qden q) 0)
  end.


(** The value of a finite number, as a fraction. *)
Definition value (x : t) : Q :=
  match x with
  | SpecFloat.S754_finite s m e =>
      let z := if s then Zneg m else Zpos m in
      if e <? 0 then z # (2 ^ Z.to_pos (- e)) else inject_Z (z * 2 ^ e)
  | _ => 0
  end.

End Number.

End JS.

(** The result of running a function that may throw. *)
Inductive outcome (A : Type) : Type :=
| Returns (a : A)
| Throws (e : JS.Error).
Arguments Returns {A} a.
Arguments Throws {A} e.

(** ** Configuration ([src/lib/config.ts])

    Only the settings the engine and the gateway read. *)

Record Config := {
  ollama_maxRetries : Z;
  ollama_timeoutMs : Z;
  interview_maxFollowUpDepth : Z;
  interview_maxQuestions : Z;
  dev_mockAiServices : bool
}.

(** The defaults of [config.ts] when no environment variable is set. *)
Definition default_config : Config := {|
  ollama_maxRetries := 3;
  ollama_timeoutMs := 300000;
  interview_maxFollowUpDepth := 3;
  interview_maxQuestions := 15;
  dev_mockAiServices := false
|}.

(** ** Types ([src/lib/types]) *)

Inductive SessionStatus :=
| s_created | s_cv_uploaded | s_jd_submitted | s_scored
| s_interviewing | s_completed | s_expired.

Inductive InterviewStatus := i_pending | i_in_progress | i_completed | i_cancelled.

Inductive CompetencyStatus := c_pending | c_in_progress | c_completed.

Inductive FollowUpType := clarify | probe.

(** The [suggested_follow_up] field of an evaluation result. *)
Inductive Suggestion := sug_clarify | sug_probe | sug_none.

Definition InterviewStatus_eqb (a b : InterviewStatus) : bool :=
  match a, b with
  | i_pending, i_pending | i_in_progress, i_in_progress
  | i_completed, i_completed | i_cancelled, i_cancelled => true
  | _, _ => false
  end.

Definition CompetencyStatus_eqb (a b : CompetencyStatus) : bool :=
  match a, b with
  | c_pending, c_pending | c_in_progress, c_in_progress
  | c_completed, c_completed => true
  | _, _ => false
  end.

Definition SessionStatus_eqb (a b : SessionStatus) : bool :=
  match a, b with
  | s_created, s_created | s_cv_uploaded, s_cv_uploaded
  | s_jd_submitted, s_jd_submitted | s_scored, s_scored
  | s_interviewing, s_interviewing | s_completed, s_completed
  | s_expired, s_expired => true
  | _, _ => false
  end.

(** [weight] is the number as the stored JSON gives it. *)
Module CompetencyArea.
Record t := mk { name : string; weight : Q; skills : list string }.
End CompetencyArea.

Module ParsedJDData.
Record t := mk { title : string; competency_areas : list CompetencyArea.t }.
End ParsedJDData.

(** The parsed CV only feeds the prompt text. *)
Module ParsedCVData.
Record t := mk { inferred_seniority : string; total_years_experience : Z }.
End ParsedCVData.

Module PlannedCompetency.
Record t := mk {
    name : string;
    weight : Q;
    planned_questions : Z;
    skills_to_cover : list string
  }.
End PlannedCompetency.

Module QuestionPlan.
Record t := mk {
    competencies : list PlannedCompetency.t;
    total_planned_questions : Z;
    estimated_duration_minutes : Z
  }.
End QuestionPlan.

Module CompetencyState.
Record t := mk {
    status : CompetencyStatus;
    questions_asked : Z;
    current_depth : Z;
    avg_score : Q
  }.
End CompetencyState.

(** [InterviewState.competencies] is a JavaScript object keyed by the
    competency name. *)
Module InterviewState.
Record t := mk {
    competencies : gmap string CompetencyState.t;
    total_questions : Z;
    estimated_remaining : Z;
    current_competency : string
  }.
End InterviewState.

Module AnswerEvaluation.
Record t := mk {
    relevance : Q;
    depth : Q;
    accuracy : Q;
    examples : Q;
    communication : Q;
    reasoning : string;
    overall_score : Q;
    suggested_follow_up : option FollowUpType
  }.
End AnswerEvaluation.

(** The interfaces local to [interview-engine.ts]. *)
Module GeneratedQuestion.
Record t := mk {
    question_text : string;
    competency : string;
    expected_topics : list string;
    type : string;
    follow_up_type : option FollowUpType
  }.
End GeneratedQuestion.

Module EvaluationResult.
Record t := mk {
    relevance : Q;
    depth : Q;
    accuracy : Q;
    examples : Q;
    communication : Q;
    overall_score : Q;
    reasoning : string;
    suggested_follow_up : Suggestion;
    key_points_covered : list string;
    missed_opportunities : list string
  }.

(** [result.overall_score = v]. *)
Definition set_overall_score (v : Q) (r : t) : t :=
    mk (relevance r) (depth r) (accuracy r) (examples r) (communication r)
       v (reasoning r) (suggested_follow_up r)
       (key_points_covered r) (missed_opportunities r).
End EvaluationResult.

(** ** Plan builder *)

(** [competencies.reduce((sum, c) => sum + c.weight, 0)]: the weights are
    added from the left, each sum rounded. *)
Definition totalWeight64 (competencies : list CompetencyArea.t) : JS.Number.t :=
  fold_left (fun sum c => JS.Number.add sum (JS.Number.of_Q (CompetencyArea.weight c)))
            competencies (JS.Number.of_Z 0).

(** The body of the [map] callback of [generateQuestionPlan].  The quotient
    and the product are rounded; [Math.round] and [Math.max] are applied to
    the value of the product, which they take as it is. *)
Definition planCompetency (targetTotal : Z) (competencies : list CompetencyArea.t)
    (comp : CompetencyArea.t) : PlannedCompetency.t :=
  let totalWeight := totalWeight64 competencies in
  let normalizedWeight :=
    if JS.Number.gt totalWeight (JS.Number.of_Z 0)
    then JS.Number.div (JS.Number.of_Q (CompetencyArea.weight comp)) totalWeight
    else JS.Number.div (JS.Number.of_Z 1)
                       (JS.Number.of_Z (Z.of_nat (length competencies))) in
  let plannedQuestions :=
    Z.max 1 (JS.Math_round
               (JS.Number.value
                  (JS.Number.mul normalizedWeight (JS.Number.of_Z targetTotal)))) in
  {| PlannedCompetency.name := CompetencyArea.name comp;
     PlannedCompetency.weight := CompetencyArea.weight comp;
     PlannedCompetency.planned_questions := plannedQuestions;
     PlannedCompetency.skills_to_cover := CompetencyArea.skills comp |}.

Definition generateQuestionPlan (cfg : Config) (jdData : ParsedJDData.t) : QuestionPlan.t :=
  let competencies := ParsedJDData.competency_areas jdData in
  let targetTotal := interview_maxQuestions cfg in
  let plannedCompetencies := map (planCompetency targetTotal competencies) competencies in
  let actualTotal :=
    fold_left (fun sum c => sum + PlannedCompetency.planned_questions c)
              plannedCompetencies 0 in
  {| QuestionPlan.competencies := plannedCompetencies;
     QuestionPlan.total_planned_questions := actualTotal;
     QuestionPlan.estimated_duration_minutes := actualTotal * 4 |}.

(** [competencies[name].status = status], a no-op on a missing key guarded
    by the source's [if]. *)
Definition set_status (st : CompetencyStatus) (c : CompetencyState.t) : CompetencyState.t :=
  {| CompetencyState.status := st;
     CompetencyState.questions_asked := CompetencyState.questions_asked c;
     CompetencyState.current_depth := CompetencyState.current_depth c;
     CompetencyState.avg_score := CompetencyState.avg_score c |}.

Definition initializeInterviewState (questionPlan : QuestionPlan.t) : InterviewState.t :=
  let competencies :=
    fold_left
      (fun (m : gmap string CompetencyState.t) comp =>
         <[PlannedCompetency.name comp :=
             {| CompetencyState.status := c_pending;
                CompetencyState.questions_asked := 0;
                CompetencyState.current_depth := 0;
                CompetencyState.avg_score := 0%Q |}]> m)
      (QuestionPlan.competencies questionPlan) ∅ in
  let firstCompetency :=
    match QuestionPlan.competencies questionPlan with
    | comp :: _ => PlannedCompetency.name comp
    | [] => ""
    end in
  let competencies :=
    if String.eqb firstCompetency "" then competencies
    else alter (set_status c_in_progress) firstCompetency competencies in
  {| InterviewState.competencies := competencies;
     InterviewState.total_questions := 0;
     InterviewState.estimated_remaining := QuestionPlan.total_planned_questions questionPlan;
     InterviewState.current_competency := firstCompetency |}.

(** ** Decision engine *)

Inductive Action := follow_up | next_question | next_competency | end_interview.

Record NextAction := { action : Action; followUpType : option FollowUpType }.

Definition determineNextAction (evaluation : EvaluationResult.t)
    (currentDepth maxDepth : Z) : NextAction :=
  let score := EvaluationResult.overall_score evaluation in
  let suggested := EvaluationResult.suggested_follow_up evaluation in
  if JS.ge score 4 || (currentDepth >=? maxDepth) then
    {| action := next_question; followUpType := None |}
  else if JS.le score 2 && (currentDepth <? maxDepth) then
    {| action := follow_up; followUpType := Some clarify |}
  else if JS.strict_eq score 3 && (currentDepth <? maxDepth)
          && match suggested with sug_probe => true | _ => false end then
    {| action := follow_up; followUpType := Some probe |}
  else
    {| action := next_question; followUpType := None |}.

(** ** The engine's view of the gateway

    Each field is what [generateJSON] answers for one of the three prompts of
    the engine, as a function of the arguments its prompt is built from
    ([buildInitialQuestionPrompt], [buildFollowUpQuestionPrompt],
    [buildResponseEvaluatorPrompt]). *)

Record GenerateJSON := {
  initialQuestion :
    ParsedCVData.t -> ParsedJDData.t -> CompetencyArea.t -> Z ->
    outcome GeneratedQuestion.t;
  followUpQuestion :
    string -> string -> string -> string -> FollowUpType -> Z ->
    outcome GeneratedQuestion.t;
  responseEvaluation :
    string -> string -> string -> list string -> outcome EvaluationResult.t
}.

(** ** Mock functions *)

Definition mockQuestions (name : string) : option (list string) :=
  if String.eqb name "Frontend" then
    Some ["Tell me about a complex React component you built. What were the main challenges?";
          "How do you approach state management in large applications?"]
  else if String.eqb name "Backend" then
    Some ["Describe a time when you had to optimize a slow API endpoint.";
          "How do you design APIs for scalability?"]
  else if String.eqb name "DevOps" then
    Some ["How have you used Docker in your development workflow?";
          "Tell me about your experience with CI/CD pipelines."]
  else if String.eqb name "Soft Skills" then
    Some ["Tell me about a time when you had to mentor a junior developer.";
          "How do you handle disagreements in code reviews?"]
  else None.

(** [list[n % list.length]]; every caller passes a positive [n]. *)
Definition pick (l : list string) (n : Z) : string :=
  nth (Z.to_nat (Z.rem n (Z.of_nat (length l)))) l "".

Definition getMockQuestion (competency : CompetencyArea.t) (questionNumber : Z)
    : GeneratedQuestion.t :=
  let categoryQuestions :=
    match mockQuestions (CompetencyArea.name competency) with
    | Some l => l
    | None => default [] (mockQuestions "Backend")
    end in
  {| GeneratedQuestion.question_text := pick categoryQuestions questionNumber;
     GeneratedQuestion.competency := CompetencyArea.name competency;
     GeneratedQuestion.expected_topics := take 3 (CompetencyArea.skills competency);
     GeneratedQuestion.type := "behavioral";
     GeneratedQuestion.follow_up_type := None |}.

Definition getMockFollowUp (competency : string) (followUpType : FollowUpType)
    (depth : Z) : GeneratedQuestion.t :=
  let clarifyQuestions :=
    ["Could you give me a specific example of that?";
     "Walk me through the steps you took.";
     "What was the specific outcome?"] in
  let probeQuestions :=
    ["How would you approach it differently today?";
     "What were the trade-offs you considered?";
     "How did you measure success?"] in
  let questions :=
    match followUpType with clarify => clarifyQuestions | probe => probeQuestions end in
  {| GeneratedQuestion.question_text := pick questions depth;
     GeneratedQuestion.competency := competency;
     GeneratedQuestion.expected_topics := [];
     GeneratedQuestion.type := "follow_up";
     GeneratedQuestion.follow_up_type := Some followUpType |}.

Definition getMockEvaluation (answer : string) : EvaluationResult.t :=
  let length := Z.of_nat (String.length answer) in
  let baseScore := if length >? 200 then 4 else if length >? 100 then 3 else 2 in
  {| EvaluationResult.relevance := inject_Z baseScore;
     EvaluationResult.depth := inject_Z baseScore;
     EvaluationResult.accuracy := inject_Z baseScore;
     EvaluationResult.examples := inject_Z (Z.max 1 (baseScore - 1));
     EvaluationResult.communication := inject_Z baseScore;
     EvaluationResult.overall_score := inject_Z baseScore;
     EvaluationResult.reasoning := "Mock evaluation based on answer length.";
     EvaluationResult.suggested_follow_up :=
       if baseScore <=? 2 then sug_clarify
       else if baseScore =? 3 then sug_probe else sug_none;
     EvaluationResult.key_points_covered := ["Some relevant points"];
     EvaluationResult.missed_opportunities := [] |}.

(** ** Question generation and response evaluation *)

(** Reading a property of [undefined]. *)
Definition undefined_property (prop : string) : JS.Error :=
  JS.new_TypeError
    ("Cannot read properties of undefined (reading '" +:+ prop +:+ "')").

(** [competency] is [None] when a caller passes [undefined] (the result of
    an unchecked [find(...)!] or of [competency_areas[0]] on an empty list):
    both branches then fail on [competency.name]. *)
Definition generateQuestion (cfg : Config) (gen : GenerateJSON)
    (cvData : ParsedCVData.t) (jdData : ParsedJDData.t)
    (competency : option CompetencyArea.t) (questionNumber : Z)
    : outcome GeneratedQuestion.t :=
  match competency with
  | None => Throws (undefined_property "name")
  | Some competency =>
      if dev_mockAiServices cfg then Returns (getMockQuestion competency questionNumber)
      else initialQuestion gen cvData jdData competency questionNumber
  end.

Definition generateFollowUp (cfg : Config) (gen : GenerateJSON)
    (previousQuestion previousAnswer evaluationReasoning competency : string)
    (followUpType : FollowUpType) (depth : Z) : outcome GeneratedQuestion.t :=
  if dev_mockAiServices cfg then Returns (getMockFollowUp competency followUpType depth)
  else followUpQuestion gen previousQuestion previousAnswer evaluationReasoning
         competency followUpType depth.

Definition evaluateResponse (cfg : Config) (gen : GenerateJSON)
    (question answer competency : string) (expectedTopics : list string)
    : outcome EvaluationResult.t :=
  if dev_mockAiServices cfg then Returns (getMockEvaluation answer)
  else
    match responseEvaluation gen question answer competency expectedTopics with
    | Throws e => Throws e
    | Returns result =>
        (* Normalize scores *)
        Returns (EvaluationResult.set_overall_score
                   (JS.Math_max 1 (JS.Math_min 5 (EvaluationResult.overall_score result)))
                   result)
    end.

(** ** Generation gateway ([src/lib/ai/ollama.ts]) *)

Module Gateway.

(** What [response.json()] gives: the [response] field of the body, or a
    rejection when the body is not JSON. *)
Inductive Body :=
| BodyJson (response : string)
| BodyInvalid (e : JS.Error).

(** What one [fetch] gives: a rejection (connection failure, or the
    [AbortSignal.timeout] firing), or an HTTP response. *)
Inductive FetchOutcome :=
| FetchRejects (e : JS.Error)
| FetchResponds (ok : bool) (status : Z) (statusText : string) (body : Body).

(** The backend: its answer to the n-th request, given the prompt. *)
Definition Backend := string -> nat -> FetchOutcome.

(** The observable effects: requests sent so far, and the back-off delays
    (milliseconds) waited, oldest first. *)
Record World := { requests : nat; sleeps : list Z }.

Definition sleep (ms : Z) (w : World) : World :=
  {| requests := requests w; sleeps := sleeps w ++ [ms] |}.

Section Gateway.

Variable cfg : Config.
Variable backend : Backend.

(** The [try] block of one attempt of [generateCompletion]. *)
Definition attemptCompletion (prompt : string) (w : World) : outcome string * World :=
  let w' := {| requests := S (requests w); sleeps := sleeps w |} in
  match backend prompt (requests w) with
  | FetchRejects e => (Throws e, w')
  | FetchResponds ok status statusText body =>
      if negb ok then
        (Throws (JS.new_Error ("Ollama returned " +:+ JS.String_of_Z status
                                 +:+ ": " +:+ statusText)), w')
      else
        match body with
        | BodyInvalid e => (Throws e, w')
        | BodyJson response => (Returns response, w')
        end
  end.

(** The retry loop of [generateCompletion]; [fuel] is the number of
    iterations left, [attempt] the loop variable. *)
Fixpoint completionLoop (fuel : nat) (prompt : string) (attempt : Z)
    (lastError : option JS.Error) (w : World) : outcome string * World :=
  match fuel with
  | O =>
      (Throws (JS.new_Error ("Ollama failed after " +:+ JS.String_of_Z (ollama_maxRetries cfg)
                               +:+ " attempts: " +:+ JS.optional_message lastError)), w)
  | S fuel' =>
      match attemptCompletion prompt w with
      | (Returns response, w') => (Returns response, w')
      | (Throws error, w') =>
          let w'' :=
            if attempt <? ollama_maxRetries cfg - 1
            then sleep (2 ^ attempt * 1000) w' else w' in
          completionLoop fuel' prompt (attempt + 1) (Some error) w''
      end
  end.

Definition generateCompletion (prompt : string) (w : World) : outcome string * World :=
  completionLoop (Z.to_nat (ollama_maxRetries cfg)) prompt 0 None w.

(** [JSON.parse(response) as T]: the cast checks nothing, so [T] is whatever
    the text parses to. *)
Variable T : Type.
Variable JSON_parse : string -> outcome T.

Fixpoint jsonLoop (fuel : nat) (prompt : string) (lastError : option JS.Error)
    (w : World) : outcome T * World :=
  match fuel with
  | O =>
      (Throws (JS.new_Error ("Failed to get valid JSON from Ollama: "
                               +:+ JS.optional_message lastError)), w)
  | S fuel' =>
      match generateCompletion prompt w with
      | (Returns response, w') =>
          match JSON_parse response with
          | Returns parsed => (Returns parsed, w')
          | Throws error => jsonLoop fuel' prompt (Some error) w'
          end
      | (Throws error, w') => jsonLoop fuel' prompt (Some error) w'
      end
  end.

Definition generateJSON (prompt : string) (w : World) : outcome T * World :=
  jsonLoop 3 prompt None w.

End Gateway.

End Gateway.

(** ** Database models ([src/lib/db/models])

    The columns the engine reads or writes.  Dates are milliseconds since
    the epoch. *)

Module Session.
Record t := mk { id : Z; uuid : string; status : SessionStatus; expires_at : Z }.
End Session.

Module CV.
Record t := mk { id : Z; session_id : Z; parsed_data : option ParsedCVData.t }.
End CV.

Module JobDescription.
Record t := mk { id : Z; session_id : Z; parsed_data : option ParsedJDData.t }.
End JobDescription.

Module Interview.
Record t := mk {
  id : Z;
  session_id : Z;
  status : InterviewStatus;
  question_plan : option QuestionPlan.t;
  interview_state : option InterviewState.t;
  started_at : option Z;
  completed_at : option Z;
  created_at : Z
}.
End Interview.

Module Question.
Record t := mk {
  id : Z;
  interview_id : Z;
  parent_id : option Z;
  sequence_num : Z;
  competency : string;
  question_text : string;
  depth_level : Z
}.
End Question.

Module Answer.
Record t := mk {
  id : Z;
  question_id : Z;
  answer_text : string;
  response_time_ms : option Z;
  evaluation : AnswerEvaluation.t;
  quality_score : Z
}.
End Answer.

Module Summary.
Record t := mk { id : Z; interview_id : Z }.
End Summary.

(** The tables, in insertion order, and the auto-increment sequences of the
    tables the engine inserts into. *)
Record Store := mkStore {
  sessions : list Session.t;
  cvs : list CV.t;
  jds : list JobDescription.t;
  interviews : list Interview.t;
  questions : list Question.t;
  answers : list Answer.t;
  summaries : list Summary.t;
  next_interview_id : Z;
  next_question_id : Z;
  next_answer_id : Z
}.

Definition with_sessions (v : list Session.t) (s : Store) : Store :=
  mkStore v (cvs s) (jds s) (interviews s) (questions s) (answers s) (summaries s)
          (next_interview_id s) (next_question_id s) (next_answer_id s).

Definition with_interviews (v : list Interview.t) (s : Store) : Store :=
  mkStore (sessions s) (cvs s) (jds s) v (questions s) (answers s) (summaries s)
          (next_interview_id s) (next_question_id s) (next_answer_id s).

(** ** Queries *)

Definition Session_findOne (uuid : string) (s : Store) : option Session.t :=
  List.find (fun x => String.eqb (Session.uuid x) uuid) (sessions s).

Definition CV_findOne (session_id : Z) (s : Store) : option CV.t :=
  List.find (fun x => CV.session_id x =? session_id) (cvs s).

Definition JobDescription_findOne (session_id : Z) (s : Store) : option JobDescription.t :=
  List.find (fun x => JobDescription.session_id x =? session_id) (jds s).

(** [Interview.findOne({ where: { session_id } })] *)
Definition Interview_findOne (session_id : Z) (s : Store) : option Interview.t :=
  List.find (fun x => Interview.session_id x =? session_id) (interviews s).

(** [Interview.findOne({ where: { session_id, status: 'in_progress' } })] *)
Definition Interview_findOne_in_progress (session_id : Z) (s : Store) : option Interview.t :=
  List.find (fun x => (Interview.session_id x =? session_id)
                      && InterviewStatus_eqb (Interview.status x) i_in_progress)
            (interviews s).

(** The first row with the largest key: [order: [[key, 'DESC']]], one row. *)
Fixpoint latest {A : Type} (key : A -> Z) (l : list A) : option A :=
  match l with
  | [] => None
  | x :: l' =>
      match latest key l' with
      | Some y => if key x <? key y then Some y else Some x
      | None => Some x
      end
  end.

(** [Interview.findOne({ where: { session_id }, order: [['created_at', 'DESC']] })] *)
Definition Interview_findOne_latest (session_id : Z) (s : Store) : option Interview.t :=
  latest Interview.created_at
         (List.filter (fun x => Interview.session_id x =? session_id) (interviews s)).

Definition Question_findByPk (id : Z) (s : Store) : option Question.t :=
  List.find (fun q => Question.id q =? id) (questions s).

(** [Question.count({ where: { interview_id } })] *)
Definition Question_count (interview_id : Z) (s : Store) : Z :=
  Z.of_nat (length (List.filter (fun q => Question.interview_id q =? interview_id)
                                (questions s))).

(** [Question.count({ where: { interview_id, competency, depth_level: 0 } })] *)
Definition Question_count_root (interview_id : Z) (competency : string) (s : Store) : Z :=
  Z.of_nat (length (List.filter
                      (fun q => (Question.interview_id q =? interview_id)
                                && String.eqb (Question.competency q) competency
                                && (Question.depth_level q =? 0))
                      (questions s))).

(** [Question.findAll({ where: { interview_id }, order: [['sequence_num', 'DESC']], limit: 1 })] *)
Definition Question_latest (interview_id : Z) (s : Store) : option Question.t :=
  latest Question.sequence_num
         (List.filter (fun q => Question.interview_id q =? interview_id) (questions s)).

Definition Answer_findOne (question_id : Z) (s : Store) : option Answer.t :=
  List.find (fun a => Answer.question_id a =? question_id) (answers s).

(** ** Updates *)

(** [Session.update({ status }, { where: { uuid } })] *)
Definition Session_update_status (uuid : string) (status : SessionStatus) (s : Store) : Store :=
  with_sessions
    (map (fun x => if String.eqb (Session.uuid x) uuid
                   then Session.mk (Session.id x) (Session.uuid x) status (Session.expires_at x)
                   else x)
         (sessions s)) s.

(** [instance.update(...)] on the interview row [id]. *)
Definition Interview_update (id : Z) (f : Interview.t -> Interview.t) (s : Store) : Store :=
  with_interviews
    (map (fun x => if Interview.id x =? id then f x else x) (interviews s)) s.

Definition Interview_create (session_id : Z) (status : InterviewStatus)
    (question_plan : QuestionPlan.t) (interview_state : InterviewState.t)
    (now : Z) (s : Store) : Interview.t * Store :=
  let row := Interview.mk (next_interview_id s) session_id status (Some question_plan)
                          (Some interview_state) (Some now) None now in
  (row,
   mkStore (sessions s) (cvs s) (jds s) (interviews s ++ [row]) (questions s)
           (answers s) (summaries s)
           (next_interview_id s + 1) (next_question_id s) (next_answer_id s)).

Definition Question_create (interview_id : Z) (parent_id : option Z) (sequence_num : Z)
    (competency question_text : string) (depth_level : Z) (s : Store)
    : Question.t * Store :=
  let row := Question.mk (next_question_id s) interview_id parent_id sequence_num
                         competency question_text depth_level in
  (row,
   mkStore (sessions s) (cvs s) (jds s) (interviews s) (questions s ++ [row])
           (answers s) (summaries s)
           (next_interview_id s) (next_question_id s + 1) (next_answer_id s)).

Definition Answer_create (question_id : Z) (answer_text : string)
    (response_time_ms : option Z) (evaluation : AnswerEvaluation.t)
    (quality_score : Z) (s : Store) : Answer.t * Store :=
  let row := Answer.mk (next_answer_id s) question_id answer_text response_time_ms
                       evaluation quality_score in
  (row,
   mkStore (sessions s) (cvs s) (jds s) (interviews s) (questions s)
           (answers s ++ [row]) (summaries s)
           (next_interview_id s) (next_question_id s) (next_answer_id s + 1)).

(** The validators of the [Answer] model run before the insert:
    [quality_score] has [validate: { min: 1, max: 5 }]. *)
Definition Answer_valid (quality_score : Z) : bool :=
  (1 <=? quality_score) && (quality_score <=? 5).

Definition mem (x : Z) (l : list Z) : bool := existsb (Z.eqb x) l.

(** The ids reached from [dead] through [parent_id] ([onDelete: 'CASCADE'] on
    the self-reference of [questions]); [fuel] bounds the length of a chain. *)
Fixpoint cascade (fuel : nat) (qs : list Question.t) (dead : list Z) : list Z :=
  match fuel with
  | O => dead
  | S fuel' =>
      cascade fuel' qs
        (dead ++ map Question.id
           (List.filter
              (fun q => negb (mem (Question.id q) dead)
                        && match Question.parent_id q with
                           | Some p => mem p dead
                           | None => false
                           end)
              qs))
  end.

(** [interview.destroy()]: the row, and by [onDelete: 'CASCADE'] its
    questions, their follow-ups, the answers to those and its summary. *)
Definition Interview_destroy (id : Z) (s : Store) : Store :=
  let dead :=
    cascade (length (questions s)) (questions s)
      (map Question.id
         (List.filter (fun q => Question.interview_id q =? id) (questions s))) in
  mkStore (sessions s) (cvs s) (jds s)
          (List.filter (fun x => negb (Interview.id x =? id)) (interviews s))
          (List.filter (fun q => negb (mem (Question.id q) dead)) (questions s))
          (List.filter (fun a => negb (mem (Answer.question_id a) dead)) (answers s))
          (List.filter (fun y => negb (Summary.interview_id y =? id)) (summaries s))
          (next_interview_id s) (next_question_id s) (next_answer_id s).

(** ** Store-passing computations *)

Definition M (A : Type) : Type := Store -> outcome A * Store.

Definition ret {A : Type} (a : A) : M A := fun s => (Returns a, s).

Definition throw {A : Type} (e : JS.Error) : M A := fun s => (Throws e, s).

Definition bind {A B : Type} (m : M A) (k : A -> M B) : M B :=
  fun s =>
    match m s with
    | (Returns a, s') => k a s'
    | (Throws e, s') => (Throws e, s')
    end.

(** A query: the store is read, not written. *)
Definition query {A : Type} (f : Store -> A) : M A := fun s => (Returns (f s), s).

(** A write that gives back the row, and one that gives nothing back. *)
Definition insert_row {A : Type} (f : Store -> A * Store) : M A :=
  fun s => let '(a, s') := f s in (Returns a, s').

Definition write (f : Store -> Store) : M unit := fun s => (Returns tt, f s).

(** Awaiting a call that does not touch the store. *)
Definition await {A : Type} (o : outcome A) : M A := fun s => (o, s).

(** [if (!x) throw new Error(msg)] *)
Definition orThrow {A : Type} (msg : string) (o : option A) : M A :=
  match o with
  | Some a => ret a
  | None => throw (JS.new_Error msg)
  end.

Notation "x <- m ;; k" := (bind m (fun x => k))
  (at level 100, m at next level, right associativity).

(** [updateSessionStatus] of [src/lib/services/session.ts] *)
Definition updateSessionStatus (uuid : string) (status : SessionStatus) : M bool :=
  fun s =>
    (Returns (existsb (fun x => String.eqb (Session.uuid x) uuid) (sessions s)),
     Session_update_status uuid status s).

(** ** Interview orchestrator *)

Record QuestionView := { qv_id : Z; qv_text : string; qv_competency : string }.

Record Progress := { current : Z; estimated_total : Z; progress_competency : string }.

Record StartResult := {
  interviewId : Z;
  question : QuestionView;
  start_progress : Progress
}.

Record NextQuestion := {
  nq_id : Z;
  nq_text : string;
  nq_competency : string;
  isFollowUp : bool;
  nq_depth : Z
}.

Record ProcessAnswerResult := {
  evaluation : AnswerEvaluation.t;
  nextQuestion : option NextQuestion;
  progress : Progress;
  isComplete : bool
}.

(** Assignments to the in-memory [state] object and to [compState], the
    entry of [state.competencies] for the question's competency.  The
    source guards every write to [compState] with [if (compState)]: [alter]
    leaves a map without the key as it is. *)

Definition with_competencies (m : gmap string CompetencyState.t)
    (st : InterviewState.t) : InterviewState.t :=
  InterviewState.mk m (InterviewState.total_questions st)
    (InterviewState.estimated_remaining st) (InterviewState.current_competency st).

Definition alter_competency (name : string) (f : CompetencyState.t -> CompetencyState.t)
    (st : InterviewState.t) : InterviewState.t :=
  with_competencies (alter f name (InterviewState.competencies st)) st.

(** [state.total_questions += 1] *)
Definition count_answer (st : InterviewState.t) : InterviewState.t :=
  InterviewState.mk (InterviewState.competencies st)
    (InterviewState.total_questions st + 1)
    (InterviewState.estimated_remaining st) (InterviewState.current_competency st).

(** [compState.questions_asked += 1] and the running mean. *)
Definition record_score (score : Q) (c : CompetencyState.t) : CompetencyState.t :=
  let questions_asked := CompetencyState.questions_asked c + 1 in
  CompetencyState.mk (CompetencyState.status c) questions_asked
    (CompetencyState.current_depth c)
    ((CompetencyState.avg_score c * inject_Z (questions_asked - 1) + score)
       / inject_Z questions_asked)%Q.

Definition set_current_depth (d : Z) (c : CompetencyState.t) : CompetencyState.t :=
  CompetencyState.mk (CompetencyState.status c) (CompetencyState.questions_asked c)
    d (CompetencyState.avg_score c).

(** [compState.status = 'completed'; compState.current_depth = 0] *)
Definition complete_competency (c : CompetencyState.t) : CompetencyState.t :=
  CompetencyState.mk c_completed (CompetencyState.questions_asked c)
    0 (CompetencyState.avg_score c).

Definition set_current_competency (name : string) (st : InterviewState.t)
    : InterviewState.t :=
  InterviewState.mk (InterviewState.competencies st) (InterviewState.total_questions st)
    (InterviewState.estimated_remaining st) name.

(** [state.estimated_remaining = Math.max(0, state.estimated_remaining - 1)] *)
Definition decrement_remaining (st : InterviewState.t) : InterviewState.t :=
  InterviewState.mk (InterviewState.competencies st) (InterviewState.total_questions st)
    (Z.max 0 (InterviewState.estimated_remaining st - 1))
    (InterviewState.current_competency st).

(** [Object.values(state.competencies).every(c => c.status === 'completed')] *)
Definition every_completed (st : InterviewState.t) : bool :=
  forallb (fun kv => CompetencyStatus_eqb (CompetencyState.status (snd kv)) c_completed)
          (map_to_list (InterviewState.competencies st)).

(** [plan.competencies.findIndex(c => c.name === name)], [-1] when absent. *)
Fixpoint findIndex (name : string) (l : list PlannedCompetency.t) : Z :=
  match l with
  | [] => -1
  | c :: l' =>
      if String.eqb (PlannedCompetency.name c) name then 0
      else let i := findIndex name l' in if i <? 0 then -1 else i + 1
  end.

(** [array[i]] for an integer [i]: [undefined] out of range. *)
Definition at_index {A : Type} (l : list A) (i : Z) : option A :=
  if i <? 0 then None else nth_error l (Z.to_nat i).

(** [competency_areas.find(c => c.name === name)] *)
Definition find_area (name : string) (l : list CompetencyArea.t) : option CompetencyArea.t :=
  List.find (fun c => String.eqb (CompetencyArea.name c) name) l.

Definition to_follow_up (sg : Suggestion) : option FollowUpType :=
  match sg with
  | sug_none => None
  | sug_clarify => Some clarify
  | sug_probe => Some probe
  end.

(** [interview.update({ status: 'completed', interview_state: state, completed_at })] *)
Definition complete_interview (state : InterviewState.t) (now : Z)
    (i : Interview.t) : Interview.t :=
  Interview.mk (Interview.id i) (Interview.session_id i) i_completed
    (Interview.question_plan i) (Some state) (Interview.started_at i)
    (Some now) (Interview.created_at i).

(** [interview.update({ interview_state: state })] *)
Definition save_state (state : InterviewState.t) (i : Interview.t) : Interview.t :=
  Interview.mk (Interview.id i) (Interview.session_id i) (Interview.status i)
    (Interview.question_plan i) (Some state) (Interview.started_at i)
    (Interview.completed_at i) (Interview.created_at i).

(** [interview.update({ status: 'completed', completed_at })] of the finish
    request: the state is not written. *)
Definition mark_completed (now : Z) (i : Interview.t) : Interview.t :=
  Interview.mk (Interview.id i) (Interview.session_id i) i_completed
    (Interview.question_plan i) (Interview.interview_state i) (Interview.started_at i)
    (Some now) (Interview.created_at i).

Section Orchestrator.

Variable cfg : Config.
Variable gen : GenerateJSON.

(** [now] is the value of [new Date()] during the call. *)
Definition startInterview (now : Z) (sessionUuid : string) : M StartResult :=
  osession <- query (Session_findOne sessionUuid) ;;
  session <- orThrow "Session not found" osession ;;
  cv <- query (CV_findOne (Session.id session)) ;;
  jd <- query (JobDescription_findOne (Session.id session)) ;;
  match cv ≫= CV.parsed_data, jd ≫= JobDescription.parsed_data with
  | Some cvData, Some jdData =>
      (* Check for existing interview *)
      existingInterview <- query (Interview_findOne (Session.id session)) ;;
      _ <- match existingInterview with
           | Some existing => write (Interview_destroy (Interview.id existing))
           | None => ret tt
           end ;;
      (* Generate question plan *)
      let questionPlan := generateQuestionPlan cfg jdData in
      let interviewState := initializeInterviewState questionPlan in
      (* Create interview record *)
      interview <- insert_row (Interview_create (Session.id session) i_in_progress
                                 questionPlan interviewState now) ;;
      (* Generate first question *)
      let firstCompetency := head (ParsedJDData.competency_areas jdData) in
      generatedQuestion <- await (generateQuestion cfg gen cvData jdData firstCompetency 1) ;;
      (* Store question *)
      question <- insert_row (Question_create (Interview.id interview) None 1
                                (GeneratedQuestion.competency generatedQuestion)
                                (GeneratedQuestion.question_text generatedQuestion) 0) ;;
      (* Update session status *)
      _ <- updateSessionStatus sessionUuid s_interviewing ;;
      ret {| interviewId := Interview.id interview;
             question := {| qv_id := Question.id question;
                            qv_text := Question.question_text question;
                            qv_competency := Question.competency question |};
             start_progress :=
               {| current := 1;
                  estimated_total := QuestionPlan.total_planned_questions questionPlan;
                  progress_competency :=
                    from_option CompetencyArea.name "" firstCompetency |} |}
  | _, _ => throw (JS.new_Error "CV and JD must be parsed before starting interview")
  end.

(** The two [return]s of [processAnswer] that end the interview. *)
Definition completed_result (evaluation : AnswerEvaluation.t) (questionsAsked : Z)
    (question : Question.t) : ProcessAnswerResult :=
  {| evaluation := evaluation;
     nextQuestion := None;
     progress := {| current := questionsAsked;
                    estimated_total := questionsAsked;
                    progress_competency := Question.competency question |};
     isComplete := true |}.

(** The statements of [processAnswer] after the [if]/[else] that creates
    the next question. *)
Definition continue_result (interview : Interview.t) (state : InterviewState.t)
    (evaluation : AnswerEvaluation.t) (questionsAsked : Z)
    (nextQuestion : NextQuestion) : M ProcessAnswerResult :=
  let state := decrement_remaining state in
  _ <- write (Interview_update (Interview.id interview) (save_state state)) ;;
  match Interview.question_plan interview with
  | None =>
      throw (JS.new_TypeError
               "Cannot read properties of null (reading 'total_planned_questions')")
  | Some plan =>
      ret {| evaluation := evaluation;
             nextQuestion := Some nextQuestion;
             progress :=
               {| current := questionsAsked + 1;
                  estimated_total := QuestionPlan.total_planned_questions plan;
                  progress_competency := nq_competency nextQuestion |};
             isComplete := false |}
  end.

Definition processAnswer (now : Z) (sessionUuid : string) (questionId : Z)
    (answerText : string) (responseTimeMs : option Z) : M ProcessAnswerResult :=
  (* Get session and interview *)
  osession <- query (Session_findOne sessionUuid) ;;
  session <- orThrow "Session not found" osession ;;
  ointerview <- query (Interview_findOne_in_progress (Session.id session)) ;;
  interview <- orThrow "No active interview found" ointerview ;;
  (* Get the question *)
  oquestion <- query (Question_findByPk questionId) ;;
  question <- match oquestion with
              | Some q =>
                  if negb (Question.interview_id q =? Interview.id interview)
                  then throw (JS.new_Error "Question not found")
                  else ret q
              | None => throw (JS.new_Error "Question not found")
              end ;;
  (* Get CV and JD data for context *)
  cv <- query (CV_findOne (Session.id session)) ;;
  jd <- query (JobDescription_findOne (Session.id session)) ;;
  match cv ≫= CV.parsed_data, jd ≫= JobDescription.parsed_data with
  | Some cvData, Some jdData =>
      (* Evaluate the response *)
      evalResult <- await (evaluateResponse cfg gen (Question.question_text question)
                             answerText (Question.competency question) []) ;;
      let evaluation :=
        {| AnswerEvaluation.relevance := EvaluationResult.relevance evalResult;
           AnswerEvaluation.depth := EvaluationResult.depth evalResult;
           AnswerEvaluation.accuracy := EvaluationResult.accuracy evalResult;
           AnswerEvaluation.examples := EvaluationResult.examples evalResult;
           AnswerEvaluation.communication := EvaluationResult.communication evalResult;
           AnswerEvaluation.reasoning := EvaluationResult.reasoning evalResult;
           AnswerEvaluation.overall_score := EvaluationResult.overall_score evalResult;
           AnswerEvaluation.suggested_follow_up :=
             to_follow_up (EvaluationResult.suggested_follow_up evalResult) |} in
      (* Store answer *)
      _ <- (if Answer_valid (JS.Math_round (EvaluationResult.overall_score evalResult))
            then insert_row (Answer_create questionId answerText
                               (match responseTimeMs with Some 0 => None | t => t end)
                               evaluation
                               (JS.Math_round (EvaluationResult.overall_score evalResult)))
            else throw (JS.mkError "SequelizeValidationError"
                          "Validation error: Validation on quality_score failed")) ;;
      (* Update interview state *)
      match Interview.interview_state interview with
      | None =>
          throw (JS.new_TypeError
                   "Cannot read properties of null (reading 'total_questions')")
      | Some state =>
          let state := count_answer state in
          (* Update competency stats *)
          let state := alter_competency (Question.competency question)
                         (record_score (EvaluationResult.overall_score evalResult)) state in
          (* Determine next action *)
          let nextAction := determineNextAction evalResult (Question.depth_level question)
                              (interview_maxFollowUpDepth cfg) in
          (* Count total questions asked *)
          questionsAsked <- query (Question_count (Interview.id interview)) ;;
          (* Check if interview should end *)
          let shouldEnd := (questionsAsked >=? interview_maxQuestions cfg)
                           || every_completed state in
          if shouldEnd then
            _ <- write (Interview_update (Interview.id interview)
                          (complete_interview state now)) ;;
            _ <- updateSessionStatus sessionUuid s_completed ;;
            ret (completed_result evaluation questionsAsked question)
          else
            (* Generate next question based on action *)
            match action nextAction, followUpType nextAction with
            | follow_up, Some followUpType =>
                (* Generate follow-up *)
                followUp <- await (generateFollowUp cfg gen
                                     (Question.question_text question) answerText
                                     (EvaluationResult.reasoning evalResult)
                                     (Question.competency question) followUpType
                                     (Question.depth_level question + 1)) ;;
                newQuestion <- insert_row
                                 (Question_create (Interview.id interview) (Some questionId)
                                    (questionsAsked + 1) (Question.competency question)
                                    (GeneratedQuestion.question_text followUp)
                                    (Question.depth_level question + 1)) ;;
                (* Update depth tracking *)
                let state := alter_competency (Question.competency question)
                               (set_current_depth (Question.depth_level newQuestion)) state in
                continue_result interview state evaluation questionsAsked
                  {| nq_id := Question.id newQuestion;
                     nq_text := Question.question_text newQuestion;
                     nq_competency := Question.competency newQuestion;
                     isFollowUp := true;
                     nq_depth := Question.depth_level newQuestion |}
            | _, _ =>
                (* Move to next question in same competency or next competency *)
                match Interview.question_plan interview with
                | None =>
                    throw (JS.new_TypeError
                             "Cannot read properties of null (reading 'competencies')")
                | Some plan =>
                    let currentCompIdx :=
                      findIndex (Question.competency question) (QuestionPlan.competencies plan) in
                    let currentComp := at_index (QuestionPlan.competencies plan) currentCompIdx in
                    (* Check if we need more questions in current competency *)
                    questionsInComp <- query (Question_count_root (Interview.id interview)
                                                (Question.competency question)) ;;
                    let create (state : InterviewState.t)
                               (targetCompetency : option CompetencyArea.t) :=
                      (* Generate new question *)
                      generated <- await (generateQuestion cfg gen cvData jdData
                                            targetCompetency (questionsAsked + 1)) ;;
                      newQuestion <- insert_row
                                       (Question_create (Interview.id interview) None
                                          (questionsAsked + 1)
                                          (from_option CompetencyArea.name "" targetCompetency)
                                          (GeneratedQuestion.question_text generated) 0) ;;
                      continue_result interview state evaluation questionsAsked
                        {| nq_id := Question.id newQuestion;
                           nq_text := Question.question_text newQuestion;
                           nq_competency := Question.competency newQuestion;
                           isFollowUp := false;
                           nq_depth := 0 |} in
                    if match currentComp with
                       | Some c => questionsInComp <? PlannedCompetency.planned_questions c
                       | None => false
                       end
                    then
                      (* More questions needed in current competency *)
                      create state (find_area (Question.competency question)
                                      (ParsedJDData.competency_areas jdData))
                    else
                      (* Move to next competency *)
                      let state := alter_competency (Question.competency question)
                                     complete_competency state in
                      let nextCompIdx := currentCompIdx + 1 in
                      if nextCompIdx <? Z.of_nat (length (QuestionPlan.competencies plan)) then
                        match at_index (QuestionPlan.competencies plan) nextCompIdx with
                        | Some nextComp =>
                            let state := set_current_competency
                                           (PlannedCompetency.name nextComp) state in
                            let state := alter_competency (PlannedCompetency.name nextComp)
                                           (set_status c_in_progress) state in
                            create state (find_area (PlannedCompetency.name nextComp)
                                            (ParsedJDData.competency_areas jdData))
                        | None => throw (undefined_property "name")
                        end
                      else
                        (* No more competencies, end interview *)
                        _ <- write (Interview_update (Interview.id interview)
                                      (complete_interview state now)) ;;
                        ret (completed_result evaluation questionsAsked question)
                end
            end
      end
  | _, _ => throw (JS.new_Error "Session data not found")
  end.

(** The current question of [getInterviewState]: the question of the
    interview with the largest [sequence_num], when no answer refers to it. *)
Definition currentQuestion (interview_id : Z) (s : Store) : option Question.t :=
  match Question_latest interview_id s with
  | Some latestQuestion =>
      match Answer_findOne (Question.id latestQuestion) s with
      | Some _ => None
      | None => Some latestQuestion
      end
  | None => None
  end.

End Orchestrator.

(** ** Session validation ([src/lib/services/session.ts]) *)

(** [session.update({ status })] on the session row [id]. *)
Definition Session_update (id : Z) (status : SessionStatus) (s : Store) : Store :=
  with_sessions
    (map (fun x => if Session.id x =? id
                   then Session.mk (Session.id x) (Session.uuid x) status (Session.expires_at x)
                   else x)
         (sessions s)) s.

Definition validateSession (now : Z) (uuid : string) : M (option Session.t) :=
  osession <- query (Session_findOne uuid) ;;
  match osession with
  | None => ret None
  | Some session =>
      (* Check if expired *)
      if Session.expires_at session <? now then
        _ <- (if negb (SessionStatus_eqb (Session.status session) s_expired)
              then write (Session_update (Session.id session) s_expired)
              else ret tt) ;;
        ret None
      else ret (Some session)
  end.

(** ** The finish request ([POST /api/interview/finish]) *)

Record FinishInterviewResponse := {
  fin_interviewId : Z;
  fin_status : string;
  duration_minutes : Z;
  fin_total_questions : Z;
  fin_message : string
}.

Inductive ApiResponse (A : Type) : Type :=
| ApiSuccess (data : A)
| ApiError (code message : string).
Arguments ApiSuccess {A} data.
Arguments ApiError {A} code message.

Record NextResponse (A : Type) := { httpStatus : Z; body : ApiResponse A }.
Arguments httpStatus {A} n.
Arguments body {A} n.

Definition json_error {A : Type} (httpStatus : Z) (code message : string) : NextResponse A :=
  {| httpStatus := httpStatus; body := ApiError code message |}.

Definition json_success {A : Type} (data : A) : NextResponse A :=
  {| httpStatus := 200; body := ApiSuccess data |}.

(** The [try]/[catch] around the body of the handler. *)
Definition catch_finish_error (m : M (NextResponse FinishInterviewResponse))
    : M (NextResponse FinishInterviewResponse) :=
  fun s =>
    match m s with
    | (Throws error, s') =>
        (Returns (json_error 500 "FINISH_INTERVIEW_ERROR" (JS.message error)), s')
    | r => r
    end.

(** [sessionUuid] is the field of the request body, the empty string when it
    is missing; [now] is the time of the request. *)
Definition POST_finish (now : Z) (sessionUuid : string)
    : M (NextResponse FinishInterviewResponse) :=
  catch_finish_error (
    if String.eqb sessionUuid "" then
      ret (json_error 400 "MISSING_SESSION" "Session UUID is required")
    else
      (* Validate session *)
      session <- validateSession now sessionUuid ;;
      match session with
      | None => ret (json_error 401 "INVALID_SESSION" "Session not found or has expired")
      | Some _ =>
          (* Get the session record *)
          sessionRecord <- query (Session_findOne sessionUuid) ;;
          match sessionRecord with
          | None => ret (json_error 404 "SESSION_NOT_FOUND" "Session not found")
          | Some sessionRecord =>
              (* Get the interview *)
              ointerview <- query (Interview_findOne_latest (Session.id sessionRecord)) ;;
              match ointerview with
              | None =>
                  ret (json_error 404 "NO_INTERVIEW" "No interview found for this session")
              | Some interview =>
                  (* Calculate duration *)
                  let startedAt := default (Interview.created_at interview)
                                           (Interview.started_at interview) in
                  let completedAt := now in
                  let durationMs := completedAt - startedAt in
                  let durationMinutes :=
                    JS.Math_round (inject_Z durationMs / 1000 / 60)%Q in
                  (* Update interview status if not already completed *)
                  _ <- (if negb (InterviewStatus_eqb (Interview.status interview) i_completed)
                        then
                          _ <- write (Interview_update (Interview.id interview)
                                        (mark_completed completedAt)) ;;
                          _ <- updateSessionStatus sessionUuid s_completed ;;
                          ret tt
                        else ret tt) ;;
                  (* Get total questions from state *)
                  match Interview.interview_state interview with
                  | None =>
                      throw (JS.new_TypeError
                               "Cannot read properties of null (reading 'total_questions')")
                  | Some state =>
                      total_questions <-
                        (if InterviewState.total_questions state =? 0 then
                           match Interview.question_plan interview with
                           | Some plan => ret (QuestionPlan.total_planned_questions plan)
                           | None =>
                               throw (JS.new_TypeError
                                        "Cannot read properties of null (reading 'total_planned_questions')")
                           end
                         else ret (InterviewState.total_questions state)) ;;
                      ret (json_success
                             {| fin_interviewId := Interview.id interview;
                                fin_status := "completed";
                                duration_minutes := durationMinutes;
                                fin_total_questions := total_questions;
                                fin_message :=
                                  "Interview completed successfully. Summary generation available." |})
                  end
              end
          end
      end).


(** * Further functions of the sources

    [getInterviewState] of the engine, the routes that call the engine
    ([/api/interview/start], [answer] and [state]), [getSession] of
    [src/lib/services/session.ts], the health check of
    [src/lib/ai/ollama.ts] and [normalizeCompetencyWeights] of the parser
    of job descriptions. *)


(** ** Objects used as maps

    [state.competencies] and the table of mock questions are plain
    objects.  Such an object answers the property names it inherits from
    [Object.prototype] even when they were never put into it, and an
    assignment to [__proto__] creates no entry.  A name is an own key when
    it is none of these. *)
Definition Object_prototype_keys : list string :=
  ["constructor"; "__defineGetter__"; "__defineSetter__"; "hasOwnProperty";
   "__lookupGetter__"; "__lookupSetter__"; "isPrototypeOf"; "propertyIsEnumerable";
   "toString"; "valueOf"; "__proto__"; "toLocaleString"].

Definition own_key (name : string) : bool :=
  negb (existsb (String.eqb name) Object_prototype_keys).

(** ** Resuming an interview ([getInterviewState]) *)

Record InterviewStateView := {
  isv_interviewId : Z;
  isv_status : InterviewStatus;
  isv_currentQuestion : option QuestionView;
  isv_progress : Progress
}.

Definition getInterviewState (sessionUuid : string) : M (option InterviewStateView) :=
  osession <- query (Session_findOne sessionUuid) ;;
  match osession with
  | None => ret None
  | Some session =>
      ointerview <- query (Interview_findOne_latest (Session.id session)) ;;
      match ointerview with
      | None => ret None
      | Some interview =>
          (* Get the most recent unanswered question *)
          latestQuestion <- query (currentQuestion (Interview.id interview)) ;;
          let currentQuestion :=
            option_map (fun q => {| qv_id := Question.id q;
                                    qv_text := Question.question_text q;
                                    qv_competency := Question.competency q |})
                       latestQuestion in
          match Interview.interview_state interview with
          | None =>
              throw (JS.new_TypeError
                       "Cannot read properties of null (reading 'total_questions')")
          | Some state =>
              match Interview.question_plan interview with
              | None =>
                  throw (JS.new_TypeError
                           "Cannot read properties of null (reading 'total_planned_questions')")
              | Some plan =>
                  ret (Some
                         {| isv_interviewId := Interview.id interview;
                            isv_status := Interview.status interview;
                            isv_currentQuestion := currentQuestion;
                            isv_progress :=
                              {| current :=
                                   InterviewState.total_questions state
                                   + (match currentQuestion with Some _ => 1 | None => 0 end);
                                 estimated_total :=
                                   QuestionPlan.total_planned_questions plan;
                                 progress_competency :=
                                   InterviewState.current_competency state |} |})
              end
          end
      end
  end.

(** ** Strings *)

Module JSString.

(** [s.startsWith(prefix)] *)
Definition startsWith (s prefix : string) : bool := String.prefix prefix s.

(** [s.includes(sub)] *)
Fixpoint includes (s sub : string) : bool :=
  String.prefix sub s
  || match s with
     | EmptyString => false
     | String _ s' => includes s' sub
     end.

(** [s.split(':')[0]]: the text before the first colon, all of it when
    there is none. *)
Fixpoint before_colon (s : string) : string :=
  match s with
  | EmptyString => EmptyString
  | String c s' =>
      if Ascii.eqb c ":"%char then EmptyString else String c (before_colon s')
  end.

End JSString.

(** ** The routes of the interview ([/api/interview/start], [answer], [state])

    A request body is given by its fields, the empty string or 0 for a
    missing one; [now] is the time of the request. *)

Section Routes.

Variable cfg : Config.
Variable gen : GenerateJSON.

(** [String.prototype.trim] *)
Variable trim : string -> string.

(** The [catch] of the start route. *)
Definition catch_start_error (m : M (NextResponse StartResult))
    : M (NextResponse StartResult) :=
  fun s =>
    match m s with
    | (Throws error, s') =>
        let message := JS.message error in
        let isMissingData :=
          JSString.includes message "not found"
          || JSString.includes message "must be parsed" in
        (Returns (json_error (if isMissingData then 400 else 500)
                    (if isMissingData then "MISSING_DATA" else "START_INTERVIEW_ERROR")
                    message), s')
    | r => r
    end.

Definition POST_start (now : Z) (sessionUuid : string) : M (NextResponse StartResult) :=
  catch_start_error (
    if String.eqb sessionUuid "" then
      ret (json_error 400 "MISSING_SESSION" "Session UUID is required")
    else
      (* Validate session *)
      session <- validateSession now sessionUuid ;;
      match session with
      | None => ret (json_error 401 "INVALID_SESSION" "Session not found or has expired")
      | Some _ =>
          (* Start the interview *)
          result <- startInterview cfg gen now sessionUuid ;;
          ret (json_success result)
      end).

Record AnswerRequest := {
  req_sessionUuid : string;
  req_questionId : Z;
  req_answerText : string;
  req_responseTimeMs : option Z
}.

(** The [catch] of the answer route. *)
Definition catch_answer_error (m : M (NextResponse ProcessAnswerResult))
    : M (NextResponse ProcessAnswerResult) :=
  fun s =>
    match m s with
    | (Throws error, s') =>
        let message := JS.message error in
        let isNotFound := JSString.includes message "not found" in
        (Returns (json_error (if isNotFound then 404 else 500)
                    (if isNotFound then "NOT_FOUND" else "PROCESS_ANSWER_ERROR")
                    message), s')
    | r => r
    end.

Definition POST_answer (now : Z) (body : AnswerRequest)
    : M (NextResponse ProcessAnswerResult) :=
  catch_answer_error (
    (* Validate required fields *)
    if String.eqb (req_sessionUuid body) "" then
      ret (json_error 400 "MISSING_SESSION" "Session UUID is required")
    else if req_questionId body =? 0 then
      ret (json_error 400 "MISSING_QUESTION_ID" "Question ID is required")
    else if String.eqb (req_answerText body) ""
            || (String.length (trim (req_answerText body)) =? 0)%nat then
      ret (json_error 400 "MISSING_ANSWER" "Answer text is required")
    else
      (* Validate session *)
      session <- validateSession now (req_sessionUuid body) ;;
      match session with
      | None => ret (json_error 401 "INVALID_SESSION" "Session not found or has expired")
      | Some _ =>
          (* Process the answer *)
          result <- processAnswer cfg gen now (req_sessionUuid body) (req_questionId body)
                      (trim (req_answerText body)) (req_responseTimeMs body) ;;
          ret (json_success result)
      end).

(** The [catch] of the state route. *)
Definition catch_state_error (m : M (NextResponse InterviewStateView))
    : M (NextResponse InterviewStateView) :=
  fun s =>
    match m s with
    | (Throws error, s') =>
        (Returns (json_error 500 "GET_STATE_ERROR" (JS.message error)), s')
    | r => r
    end.

Definition GET_state (now : Z) (sessionUuid : string) : M (NextResponse InterviewStateView) :=
  catch_state_error (
    if String.eqb sessionUuid "" then
      ret (json_error 400 "MISSING_SESSION" "Session UUID is required")
    else
      (* Validate session *)
      session <- validateSession now sessionUuid ;;
      match session with
      | None => ret (json_error 401 "INVALID_SESSION" "Session not found or has expired")
      | Some _ =>
          (* Get interview state *)
          state <- getInterviewState sessionUuid ;;
          match state with
          | None => ret (json_error 404 "NO_INTERVIEW" "No interview found for this session")
          | Some state => ret (json_success state)
          end
      end).

End Routes.

(** ** Health of the Ollama server ([checkOllamaHealth], [checkRequiredModels]) *)

Module OllamaHealth.

(** What [response.json()] gives for [/api/tags]: the names under [models]
    ([None] when the field is missing), or a rejection. *)
Inductive TagsBody :=
| TagsJson (models : option (list string))
| TagsInvalid (e : JS.Error).

Inductive TagsOutcome :=
| TagsRejects (e : JS.Error)
| TagsResponds (ok : bool) (status : Z) (body : TagsBody).

Record Health := { healthy : bool; models : list string; error : option string }.

Definition checkOllamaHealth (tags : TagsOutcome) : Health :=
  match tags with
  | TagsRejects e => {| healthy := false; models := []; error := Some (JS.message e) |}
  | TagsResponds ok status body =>
      if negb ok then
        {| healthy := false; models := [];
           error := Some ("HTTP " +:+ JS.String_of_Z status) |}
      else
        match body with
        | TagsInvalid e =>
            {| healthy := false; models := []; error := Some (JS.message e) |}
        | TagsJson models =>
            {| healthy := true; models := default [] models; error := None |}
        end
  end.

Record RequiredModels := {
  allPresent : bool;
  missing : list string;
  present : list string
}.

(** The test of the loop body: the model is listed under its own name, or
    some tag of its base name is. *)
Definition hasModel (models : list string) (model : string) : bool :=
  let modelBase := JSString.before_colon model in
  existsb (fun m => String.eqb m model || JSString.startsWith m (modelBase +:+ ":"))
          models.

(** [modelLight] and [modelHeavy] are [config.ollama.modelLight] and
    [config.ollama.modelHeavy]; [tags] is what the request of
    [checkOllamaHealth] meets. *)
Definition checkRequiredModels (modelLight modelHeavy : string) (tags : TagsOutcome)
    : RequiredModels :=
  let health := checkOllamaHealth tags in
  if negb (healthy health) then
    {| allPresent := false; missing := [modelLight; modelHeavy]; present := [] |}
  else
    let requiredModels := [modelLight; modelHeavy] in
    let '(present, missing) :=
      fold_left
        (fun (acc : list string * list string) model =>
           let '(present, missing) := acc in
           if hasModel (models health) model
           then (present ++ [model], missing)
           else (present, missing ++ [model]))
        requiredModels ([], []) in
    {| allPresent := (length missing =? 0)%nat;
       missing := missing;
       present := present |}.

End OllamaHealth.

(** ** Weights of a parsed job description ([normalizeCompetencyWeights]) *)


(** [data.competency_areas.reduce((sum, area) => sum + area.weight, 0)] *)
Definition totalWeight (competencies : list CompetencyArea.t) : Q :=
  fold_left (fun sum c => (sum + CompetencyArea.weight c)%Q) competencies 0%Q.


(** ** Reading a session ([getSession] of [src/lib/services/session.ts]) *)

Record SessionInfo := { info_session : Session.t; isExpired : bool }.

(** [now] is the value of [new Date()] during the call. *)
Definition getSession (now : Z) (uuid : string) : M (option SessionInfo) :=
  osession <- query (Session_findOne uuid) ;;
  match osession with
  | None => ret None
  | Some session =>
      let isExpired := Session.expires_at session <? now in
      ret (Some {| info_session := session; isExpired := isExpired |})
  end.

(** * Vocabulary of the properties

    Notions the statements below use, and the data of their examples. *)

(** ** Plan builder *)

(** The sum of the weights of a list of areas. *)
Definition sum_weights (areas : list CompetencyArea.t) : Q :=
  foldr (fun c acc => (CompetencyArea.weight c + acc)%Q) 0%Q areas.










(** ** Decision engine *)

Definition advance : NextAction := {| action := next_question; followUpType := None |}.

Definition follow (t : FollowUpType) : NextAction :=
  {| action := follow_up; followUpType := Some t |}.

Definition weak_answer : EvaluationResult.t :=
  EvaluationResult.mk 2 1 2 1 2 (8 # 5) "Vague, no example." sug_clarify [] [].

(** ** Evaluator *)

(** A backend that answers the evaluation prompt with [raw]. *)
Definition answering (raw : EvaluationResult.t) : GenerateJSON :=
  {| initialQuestion := fun _ _ _ _ => Throws (JS.new_Error "not asked");
     followUpQuestion := fun _ _ _ _ _ _ => Throws (JS.new_Error "not asked");
     responseEvaluation := fun _ _ _ _ => Returns raw |}.

(** A backend answer with two dimensions out of range and an overall score
    that is not the mean of the dimensions. *)
Definition skewed_evaluation : EvaluationResult.t :=
  EvaluationResult.mk 7 0 3 3 3 5 "Strong answer." sug_none [] [].

(** A backend answer with every dimension in range and an overall score
    that is not their mean. *)
Definition generous_evaluation : EvaluationResult.t :=
  EvaluationResult.mk 3 3 3 3 3 5 "Strong answer." sug_none [] [].

Definition clamp (x : Q) : Q := JS.Math_max 1 (JS.Math_min 5 x).

(** The mean of the five dimensions, each clamped to the range 1 to 5. *)
Definition clamped_mean (r : EvaluationResult.t) : Q :=
  ((clamp (EvaluationResult.relevance r) + clamp (EvaluationResult.depth r)
    + clamp (EvaluationResult.accuracy r) + clamp (EvaluationResult.examples r)
    + clamp (EvaluationResult.communication r)) / 5)%Q.

(** ** Generation gateway *)

(** The error one attempt of [generateCompletion] ends with, if it fails: a
    rejected [fetch], a response whose status is not ok, or a body that is
    not JSON. *)
Definition attempt_error (o : Gateway.FetchOutcome) : option JS.Error :=
  match o with
  | Gateway.FetchRejects e => Some e
  | Gateway.FetchResponds false status statusText _ =>
      Some (JS.new_Error ("Ollama returned " +:+ JS.String_of_Z status
                            +:+ ": " +:+ statusText))
  | Gateway.FetchResponds true _ _ (Gateway.BodyInvalid e) => Some e
  | Gateway.FetchResponds true _ _ (Gateway.BodyJson _) => None
  end.

Definition completion_failure (cfg : Config) (m : string) : JS.Error :=
  JS.new_Error ("Ollama failed after " +:+ JS.String_of_Z (ollama_maxRetries cfg)
                  +:+ " attempts: " +:+ m).

Definition json_failure (m : string) : JS.Error :=
  JS.new_Error ("Failed to get valid JSON from Ollama: " +:+ m).

(** The n-th request is answered with a payload that does not parse. *)
Definition malformed {T : Type} (backend : Gateway.Backend)
    (JSON_parse : string -> outcome T) (prompt : string) (n : nat) : Prop :=
  exists status statusText response e,
    backend prompt n
    = Gateway.FetchResponds true status statusText (Gateway.BodyJson response)
    /\ JSON_parse response = Throws e.

(** A backend that refuses every connection. *)
Definition unreachable_backend : Gateway.Backend :=
  fun _ _ => Gateway.FetchRejects (JS.mkError "TypeError" "fetch failed").

(** A parser that accepts only the empty object. *)
Definition parse_empty_object (text : string) : outcome unit :=
  if String.eqb text "{}" then Returns tt
  else Throws (JS.mkError "SyntaxError" "Unexpected end of JSON input").

(** ** Orchestrator *)

(** What one call of [processAnswer] does to the store: it throws before
    anything is written; or it throws after the answer is stored; or it ends
    the interview; or it creates the next question (and then returns it,
    unless the interview has no plan to report the total from). *)
Inductive answer_effect (cfg : Config) (uuid : string) (qid : Z) (s : Store)
  : outcome ProcessAnswerResult -> Store -> Prop :=
| effect_rejected e :
    answer_effect cfg uuid qid s (Throws e) s
| effect_aborted e s' :
    sessions s' = sessions s -> cvs s' = cvs s -> jds s' = jds s ->
    interviews s' = interviews s -> questions s' = questions s ->
    next_interview_id s' = next_interview_id s ->
    answer_effect cfg uuid qid s (Throws e) s'
| effect_completed res s' session interview st now :
    Session_findOne uuid s = Some session ->
    Interview_findOne_in_progress (Session.id session) s = Some interview ->
    isComplete res = true ->
    (sessions s' = sessions s
     \/ sessions s' = sessions (Session_update_status uuid s_completed s)) ->
    cvs s' = cvs s -> jds s' = jds s ->
    interviews s' = interviews (Interview_update (Interview.id interview)
                                  (complete_interview st now) s) ->
    questions s' = questions s ->
    next_interview_id s' = next_interview_id s ->
    answer_effect cfg uuid qid s (Returns res) s'
| effect_continued r s' session interview st asked new :
    Session_findOne uuid s = Some session ->
    Interview_findOne_in_progress (Session.id session) s = Some interview ->
    Question_findByPk qid s = Some asked ->
    questions s' = questions s ++ [new] ->
    interviews s' = interviews (Interview_update (Interview.id interview)
                                  (save_state st) s) ->
    sessions s' = sessions s -> cvs s' = cvs s -> jds s' = jds s ->
    next_interview_id s' = next_interview_id s ->
    match r with
    | Returns res => isComplete res = false
    | Throws _ => Interview.question_plan interview = None
    end ->
    Question_count (Interview.id interview) s < interview_maxQuestions cfg ->
    Question.interview_id new = Interview.id interview ->
    (Question.depth_level new = 0
     \/ (Question.depth_level new = Question.depth_level asked + 1
         /\ Question.depth_level asked < interview_maxFollowUpDepth cfg)) ->
    answer_effect cfg uuid qid s r s'.

(** The store in which [startInterview] creates the interview: the one the
    session had, if any, is destroyed. *)
Definition cleared (session_id : Z) (s : Store) : Store :=
  match Interview_findOne session_id s with
  | Some existing => Interview_destroy (Interview.id existing) s
  | None => s
  end.

(** The interview row [startInterview] creates. *)
Definition fresh_interview (cfg : Config) (now : Z) (session_id : Z)
    (jdData : ParsedJDData.t) (s : Store) : Interview.t :=
  let questionPlan := generateQuestionPlan cfg jdData in
  Interview.mk (next_interview_id s) session_id i_in_progress (Some questionPlan)
    (Some (initializeInterviewState questionPlan)) (Some now) None now.

(** ** The system as a transition system

    What the collaborators outside the engine may do between two calls:
    sessions, CVs and job descriptions change freely; rows of the engine's
    tables may disappear (a deleted session takes its interviews along);
    nothing is inserted into them and their sequences do not move. *)
Definition environment (s s' : Store) : Prop :=
  sublist (interviews s') (interviews s)
  /\ sublist (questions s') (questions s)
  /\ sublist (answers s') (answers s)
  /\ next_interview_id s' = next_interview_id s
  /\ next_question_id s' = next_question_id s
  /\ next_answer_id s' = next_answer_id s.

Inductive step (cfg : Config) : Store -> Store -> Prop :=
| step_start gen now uuid s :
    step cfg s (snd (startInterview cfg gen now uuid s))
| step_answer gen now uuid qid text rt s :
    step cfg s (snd (processAnswer cfg gen now uuid qid text rt s))
| step_finish now uuid s :
    step cfg s (snd (POST_finish now uuid s))
| step_environment s s' :
    environment s s' -> step cfg s s'.

(** A store before any interview. *)
Definition initial (s : Store) : Prop :=
  interviews s = [] /\ questions s = [] /\ answers s = [].

Definition reachable (cfg : Config) (s : Store) : Prop :=
  exists s0, initial s0 /\ rtc (step cfg) s0 s.

(** The identity of an interview row: an update never changes it. *)
Definition interview_key (i : Interview.t) : Z * Z :=
  (Interview.id i, Interview.session_id i).

(** What one step does to the interviews and the questions: it inserts
    nothing; or it asks one more question in an interview that has room for
    it; or it starts an interview, in place of the one of the session, with
    at most its first question. *)
Inductive change (cfg : Config) (s s' : Store) : Prop :=
| change_kept :
    sublist (map interview_key (interviews s')) (map interview_key (interviews s)) ->
    sublist (questions s') (questions s) ->
    next_interview_id s' = next_interview_id s ->
    change cfg s s'
| change_asked new asked interview :
    map interview_key (interviews s') = map interview_key (interviews s) ->
    questions s' = questions s ++ [new] ->
    next_interview_id s' = next_interview_id s ->
    In interview (interviews s) ->
    In asked (questions s) ->
    Question.interview_id new = Interview.id interview ->
    Question_count (Interview.id interview) s < interview_maxQuestions cfg ->
    (Question.depth_level new = 0
     \/ (Question.depth_level new = Question.depth_level asked + 1
         /\ Question.depth_level asked < interview_maxFollowUpDepth cfg)) ->
    change cfg s s'
| change_started session_id new_interview first :
    interviews s' = interviews (cleared session_id s) ++ [new_interview] ->
    Interview.id new_interview = next_interview_id s ->
    Interview.session_id new_interview = session_id ->
    next_interview_id s' = next_interview_id s + 1 ->
    questions s' = questions (cleared session_id s) ++ first ->
    (length first <= 1)%nat ->
    Forall (fun q => Question.interview_id q = next_interview_id s
                     /\ Question.depth_level q = 0) first ->
    change cfg s s'.

(** The sequences are ahead of the rows. *)
Definition fresh (s : Store) : Prop :=
  Forall (fun q => Question.interview_id q < next_interview_id s) (questions s)
  /\ Forall (fun i => Interview.id i < next_interview_id s) (interviews s).

(** No interview has more questions than the configured maximum. *)
Definition bounded (cfg : Config) (s : Store) : Prop :=
  forall interview_id, Question_count interview_id s <= interview_maxQuestions cfg.

(** No question is deeper than the configured maximum depth. *)
Definition shallow (cfg : Config) (s : Store) : Prop :=
  Forall (fun q => Question.depth_level q <= interview_maxFollowUpDepth cfg)
         (questions s).

(** A session has at most one interview. *)
Definition one_interview (s : Store) : Prop :=
  NoDup (map Interview.session_id (interviews s)).

(** ** A run of answers on one session *)

Record AnswerCall := {
  call_gen : GenerateJSON;
  call_now : Z;
  call_question : Z;
  call_text : string;
  call_time : option Z
}.

Definition submit (cfg : Config) (uuid : string) (c : AnswerCall) : M ProcessAnswerResult :=
  processAnswer cfg (call_gen c) (call_now c) uuid (call_question c)
    (call_text c) (call_time c).

Fixpoint submit_all (cfg : Config) (uuid : string) (calls : list AnswerCall)
    (s : Store) : list (outcome ProcessAnswerResult) * Store :=
  match calls with
  | [] => ([], s)
  | c :: calls' =>
      let '(r, s1) := submit cfg uuid c s in
      let '(rs, s2) := submit_all cfg uuid calls' s1 in
      (r :: rs, s2)
  end.

(** The call returned and the interview goes on. *)
Definition continued (r : outcome ProcessAnswerResult) : bool :=
  match r with
  | Returns res => negb (isComplete res)
  | Throws _ => false
  end.

(** The call returned and the interview is complete. *)
Definition completed (r : outcome ProcessAnswerResult) : bool :=
  match r with
  | Returns res => isComplete res
  | Throws _ => false
  end.

(** The session [uuid] has one interview, [interview_id], in progress with
    [asked] questions, a state and a plan, and its CV and job description
    are parsed. *)
Definition in_progress (uuid : string) (interview_id asked : Z) (s : Store) : Prop :=
  exists session interview,
    Session_findOne uuid s = Some session
    /\ List.filter (fun x => Interview.session_id x =? Session.id session) (interviews s)
       = [interview]
    /\ Interview.id interview = interview_id
    /\ Interview.status interview = i_in_progress
    /\ is_Some (Interview.interview_state interview)
    /\ is_Some (Interview.question_plan interview)
    /\ is_Some (CV_findOne (Session.id session) s ≫= CV.parsed_data)
    /\ is_Some (JobDescription_findOne (Session.id session) s ≫= JobDescription.parsed_data)
    /\ Question_count interview_id s = asked.

(** The session [uuid] has no interview in progress. *)
Definition finished (uuid : string) (s : Store) : Prop :=
  forall session,
    Session_findOne uuid s = Some session ->
    Interview_findOne_in_progress (Session.id session) s = None.

(** ** Example data *)

Definition mock_config : Config :=
  {| ollama_maxRetries := 3;
     ollama_timeoutMs := 300000;
     interview_maxFollowUpDepth := 3;
     interview_maxQuestions := 15;
     dev_mockAiServices := true |}.

(** A backend that is down. *)
Definition no_backend : GenerateJSON :=
  {| initialQuestion := fun _ _ _ _ => Throws (JS.new_Error "backend down");
     followUpQuestion := fun _ _ _ _ _ _ => Throws (JS.new_Error "backend down");
     responseEvaluation := fun _ _ _ _ => Throws (JS.new_Error "backend down") |}.

Definition demo_jd : ParsedJDData.t :=
  ParsedJDData.mk "Engineer"
    [CompetencyArea.mk "Backend" (3 # 5) ["node"];
     CompetencyArea.mk "Frontend" (2 # 5) ["react"]].

(** One session with a parsed CV and the job description [jd]; no interview
    yet. *)
Definition store_with (jd : ParsedJDData.t) : Store :=
  mkStore [Session.mk 1 "u-1" s_scored 86400000]
          [CV.mk 1 1 (Some (ParsedCVData.mk "mid" 4))]
          [JobDescription.mk 1 1 (Some jd)]
          [] [] [] [] 1 1 1.

Definition demo_store : Store := store_with demo_jd.

(** The interview of [demo_store] started in mock mode, and its first
    question answered (weakly, so that a follow-up is open). *)
Definition demo_started : Store :=
  snd (startInterview mock_config no_backend 1000 "u-1" demo_store).

Definition demo_answered : Store :=
  snd (processAnswer mock_config no_backend 2000 "u-1" 1 "It depends." (Some 900)
         demo_started).

(** A job description without competency areas. *)
Definition empty_jd : ParsedJDData.t := ParsedJDData.mk "Engineer" [].

(** A limit of two questions, outside mock mode. *)
Definition two_question_config : Config :=
  {| ollama_maxRetries := 3;
     ollama_timeoutMs := 300000;
     interview_maxFollowUpDepth := 3;
     interview_maxQuestions := 2;
     dev_mockAiServices := false |}.

(** A backend that generates a first question and finds every answer weak;
    [followUp] is what the generation of a follow-up question gives. *)
Definition evaluating_backend (followUp : outcome GeneratedQuestion.t) : GenerateJSON :=
  {| initialQuestion := fun _ _ _ _ =>
       Returns (GeneratedQuestion.mk "How do you design APIs?" "Backend" [] "technical"
                  None);
     followUpQuestion := fun _ _ _ _ _ _ => followUp;
     responseEvaluation := fun _ _ _ _ => Returns weak_answer |}.

Definition follow_up_down : GenerateJSON :=
  evaluating_backend (Throws (JS.new_Error "backend down")).

Definition follow_up_up : GenerateJSON :=
  evaluating_backend
    (Returns (GeneratedQuestion.mk "Can you give an example?" "Backend" [] "follow_up"
                (Some clarify))).

(** The answer [It depends.] to [question], given at [now]. *)
Definition answer_call (gen : GenerateJSON) (question now : Z) : AnswerCall :=
  {| call_gen := gen; call_now := now; call_question := question;
     call_text := "It depends."; call_time := Some 900 |}.

(** The interview of [demo_store] started with the limit of two questions. *)
Definition two_started (gen : GenerateJSON) : Store :=
  snd (startInterview two_question_config gen 1000 "u-1" demo_store).

(** The store without its job descriptions. *)
Definition without_jds (s : Store) : Store :=
  mkStore (sessions s) (cvs s) [] (interviews s) (questions s) (answers s) (summaries s)
          (next_interview_id s) (next_question_id s) (next_answer_id s).

(** [demo_answered] with the interview finished after ten minutes. *)
Definition demo_finished : Store :=
  snd (POST_finish 601000 "u-1" demo_answered).

(** ** The response of the finish request *)

(** [state.total_questions || plan.total_planned_questions]; [None] when the
    expression throws. *)
Definition reported_total (interview : Interview.t) : option Z :=
  match Interview.interview_state interview with
  | None => None
  | Some state =>
      if InterviewState.total_questions state =? 0
      then option_map QuestionPlan.total_planned_questions
                      (Interview.question_plan interview)
      else Some (InterviewState.total_questions state)
  end.

Definition finish_response (now : Z) (interview : Interview.t) (total : Z)
    : FinishInterviewResponse :=
  {| fin_interviewId := Interview.id interview;
     fin_status := "completed";
     duration_minutes :=
       JS.Math_round
         (inject_Z (now - default (Interview.created_at interview)
                                  (Interview.started_at interview)) / 1000 / 60)%Q;
     fin_total_questions := total;
     fin_message := "Interview completed successfully. Summary generation available." |}.

(** The store after a finish request that found [interview]. *)
Definition finished_store (now : Z) (uuid : string) (interview : Interview.t)
    (s : Store) : Store :=
  if InterviewStatus_eqb (Interview.status interview) i_completed then s
  else Session_update_status uuid s_completed
         (Interview_update (Interview.id interview) (mark_completed now) s).

(** ** Further vocabulary *)

(** The sum of a list of scores. *)
Definition Qsum (l : list Q) : Q := foldr Qplus 0%Q l.

(** The statistics of a competency after the scores of [scores] have been
    recorded, in this order, starting from [c]. *)
Definition record_all (scores : list Q) (c : CompetencyState.t) : CompetencyState.t :=
  fold_left (fun c score => record_score score c) scores c.

(** The name of the first competency of a plan, the empty string for the
    empty plan. *)
Definition first_name (plan : QuestionPlan.t) : string :=
  match QuestionPlan.competencies plan with
  | c :: _ => PlannedCompetency.name c
  | [] => ""
  end.

(** The delays of [k] consecutive back-offs, in milliseconds: 1000, 2000,
    4000, ... *)
Definition backoff (k : nat) : list Z :=
  map (fun i => 2 ^ Z.of_nat i * 1000) (seq 0 k).

(** The evaluation [processAnswer] stores and returns for a result of the
    evaluator. *)
Definition evaluation_of (ev : EvaluationResult.t) : AnswerEvaluation.t :=
  {| AnswerEvaluation.relevance := EvaluationResult.relevance ev;
     AnswerEvaluation.depth := EvaluationResult.depth ev;
     AnswerEvaluation.accuracy := EvaluationResult.accuracy ev;
     AnswerEvaluation.examples := EvaluationResult.examples ev;
     AnswerEvaluation.communication := EvaluationResult.communication ev;
     AnswerEvaluation.reasoning := EvaluationResult.reasoning ev;
     AnswerEvaluation.overall_score := EvaluationResult.overall_score ev;
     AnswerEvaluation.suggested_follow_up :=
       to_follow_up (EvaluationResult.suggested_follow_up ev) |}.

(** The store with the answer to question [qid] recorded, and nothing else
    changed. *)
Definition answer_recorded (qid : Z) (text : string) (rt : option Z)
    (ev : EvaluationResult.t) (s : Store) : Store :=
  snd (Answer_create qid text (match rt with Some 0 => None | t => t end)
         (evaluation_of ev) (JS.Math_round (EvaluationResult.overall_score ev)) s).

(** Mock mode with room for a single question, and the interview of
    [demo_store] started under it. *)
Definition single_question_config : Config :=
  {| ollama_maxRetries := 3;
     ollama_timeoutMs := 300000;
     interview_maxFollowUpDepth := 3;
     interview_maxQuestions := 1;
     dev_mockAiServices := true |}.

Definition single_started : Store :=
  snd (startInterview single_question_config no_backend 1000 "u-1" demo_store).

(** Every answer refers to a question that was created before. *)
Definition answers_fresh (s : Store) : Prop :=
  Forall (fun a => Answer.question_id a < next_question_id s) (answers s).

(** The questions have ids below the sequence, and those of interview
    [interview_id] are numbered up to their count. *)
Definition numbered (interview_id : Z) (s : Store) : Prop :=
  Forall (fun q => Question.id q < next_question_id s
                   /\ (Question.interview_id q = interview_id ->
                       Question.sequence_num q <= Question_count interview_id s))
         (questions s).


(** * Properties *)

(** ** Numbers *)

Lemma Math_max_lower (a b : Q) : (a <= JS.Math_max a b)%Q.
Proof.
  unfold JS.Math_max. destruct (Qle_bool a b) eqn:E.
  - now apply Qle_bool_iff.
  - apply Qle_refl.
Qed.

Lemma Math_min_upper (a b : Q) : (JS.Math_min a b <= a)%Q.
Proof.
  unfold JS.Math_min. destruct (Qle_bool a b) eqn:E.
  - apply Qle_refl.
  - destruct (Qlt_le_dec a b) as [H|H]; [|exact H].
    apply Qlt_le_weak, Qle_bool_iff in H. congruence.
Qed.

(** [Math.max(1, Math.min(5, x))] lies between 1 and 5. *)
Lemma clamp_range (x : Q) :
  (1 <= JS.Math_max 1 (JS.Math_min 5 x) <= 5)%Q.
Proof.
  split; [apply Math_max_lower|].
  unfold JS.Math_max. destruct (Qle_bool 1 (JS.Math_min 5 x)).
  - apply Math_min_upper.
  - discriminate.
Qed.

Lemma Math_round_comp (x y : Q) : (x == y)%Q -> JS.Math_round x = JS.Math_round y.
Proof.
  intros H. unfold JS.Math_round. apply Qfloor_comp. now rewrite H.
Qed.

(** ** Plan builder *)






Lemma sum_weights_nonneg (areas : list CompetencyArea.t) :
  Forall (fun c => (0 <= CompetencyArea.weight c)%Q) areas ->
  (0 <= sum_weights areas)%Q.
Proof.
  induction 1 as [|c areas Hc _ IH]; simpl.
  - apply Qle_refl.
  - replace 0%Q with (0 + 0)%Q by reflexivity. now apply Qplus_le_compat.
Qed.


(** *** Signs in binary64 *)















(** ** Decision engine *)



(** C1. The decision follows the priority order: a score of 4 or more, or
    the maximum depth reached, advances; else a score of 2 or less asks to
    clarify; else a score of exactly 3 with a probe suggestion asks to
    probe; everything else advances.  A score of 1.5 at depth 0 of 3 asks to
    clarify; a score of 4.2 at depth 1 of 3 advances. *)
Theorem determineNextAction_priority :
  (forall (ev : EvaluationResult.t) (d maxDepth : Z),
      let s := EvaluationResult.overall_score ev in
      let first := (4 <= s)%Q \/ maxDepth <= d in
      let second := (s <= 2)%Q /\ d < maxDepth in
      let third := (s == 3)%Q /\ d < maxDepth
                   /\ EvaluationResult.suggested_follow_up ev = sug_probe in
      (first -> determineNextAction ev d maxDepth = advance)
      /\ (~ first -> second -> determineNextAction ev d maxDepth = follow clarify)
      /\ (~ first -> ~ second -> third -> determineNextAction ev d maxDepth = follow probe)
      /\ (~ first -> ~ second -> ~ third -> determineNextAction ev d maxDepth = advance))
  /\ (forall ev : EvaluationResult.t,
         EvaluationResult.overall_score ev = (3 # 2)%Q ->
         determineNextAction ev 0 3 = follow clarify)
  /\ (forall ev : EvaluationResult.t,
         EvaluationResult.overall_score ev = (21 # 5)%Q ->
         determineNextAction ev 1 3 = advance).
Proof.
  split; [|split; intros ev H; unfold determineNextAction; rewrite H; reflexivity].
  intros ev d maxDepth s first second third.
  assert (Hfirst : JS.ge s 4 || (d >=? maxDepth) = true <-> first).
  { unfold first, JS.ge. rewrite orb_true_iff, Qle_bool_iff, Z.geb_le. tauto. }
  assert (Hsecond : JS.le s 2 && (d <? maxDepth) = true <-> second).
  { unfold second, JS.le. rewrite andb_true_iff, Qle_bool_iff, Z.ltb_lt. tauto. }
  assert (Hthird : JS.strict_eq s 3 && (d <? maxDepth)
                   && match EvaluationResult.suggested_follow_up ev with
                      | sug_probe => true | _ => false end = true <-> third).
  { unfold third, JS.strict_eq. rewrite !andb_true_iff, Qeq_bool_iff, Z.ltb_lt.
    destruct (EvaluationResult.suggested_follow_up ev); intuition congruence. }
  unfold determineNextAction. fold s.
  destruct (JS.ge s 4 || (d >=? maxDepth)) eqn:E1;
    [|destruct (JS.le s 2 && (d <? maxDepth)) eqn:E2;
      [|destruct (JS.strict_eq s 3 && (d <? maxDepth)
                  && match EvaluationResult.suggested_follow_up ev with
                     | sug_probe => true | _ => false end) eqn:E3]];
    repeat split; intros; try reflexivity;
    repeat match goal with
           | H : _ = true <-> _ |- _ => destruct H
           end; intuition congruence.
Qed.


Lemma determineNextAction_priority_witness :
  ~ ((4 <= EvaluationResult.overall_score weak_answer)%Q \/ 3 <= 1)
  /\ ((EvaluationResult.overall_score weak_answer <= 2)%Q /\ 1 < 3)
  /\ determineNextAction weak_answer 1 3 = follow clarify.
Proof.
  assert (H1 : ~ ((4 <= EvaluationResult.overall_score weak_answer)%Q \/ 3 <= 1)).
  { intros [H|H]; [apply Qle_bool_iff in H; discriminate | lia]. }
  assert (H2 : (EvaluationResult.overall_score weak_answer <= 2)%Q /\ 1 < 3).
  { split; [apply Qle_bool_iff; reflexivity | lia]. }
  split; [exact H1 | split; [exact H2 |]].
  destruct determineNextAction_priority as [Htable _].
  destruct (Htable weak_answer 1 3) as (_ & Hclarify & _).
  exact (Hclarify H1 H2).
Defined.

(** ** Evaluator *)





(** C3, as stated, fails.  The overall score is the backend's, not a mean
    the evaluator computes: for dimensions 3, 3, 3, 3, 3 and an overall score
    of 5 from the backend the result has the overall score 5, where the
    mean is 3.  And no dimension is clamped: for the dimensions 7, 0, 3, 3, 3
    the result has relevance 7 and depth 0 (and again the overall score 5,
    where the mean of the clamped dimensions is 3). *)
Lemma evaluateResponse_keeps_backend_scores :
  (exists r,
      evaluateResponse default_config (answering generous_evaluation)
        "How do you design APIs?" "With care." "Backend" [] = Returns r
      /\ EvaluationResult.overall_score r = 5%Q
      /\ (clamped_mean r == 3)%Q
      /\ ~ (EvaluationResult.overall_score r == clamped_mean r)%Q)
  /\ (exists r,
         evaluateResponse default_config (answering skewed_evaluation)
           "How do you design APIs?" "With care." "Backend" [] = Returns r
         /\ ~ (EvaluationResult.relevance r <= 5)%Q
         /\ ~ (1 <= EvaluationResult.depth r)%Q
         /\ ~ (EvaluationResult.overall_score r == clamped_mean r)%Q).
Proof.
  split.
  - eexists. split; [reflexivity|]. simpl.
    split; [reflexivity|]. split; [reflexivity|].
    intros H. apply Qeq_bool_iff in H. discriminate.
  - eexists. split; [reflexivity|]. simpl.
    repeat split; intros H.
    + apply Qle_bool_iff in H. discriminate.
    + apply Qle_bool_iff in H. discriminate.
    + apply Qeq_bool_iff in H. discriminate.
Qed.

(** C3, amended. For every evaluation result obtained from the backend the
    evaluator returns a result whose overall score is the overall score of
    the backend clamped to the range 1 to 5; it is not computed from the
    dimension scores. *)
Theorem evaluateResponse_clamps_overall (cfg : Config) (gen : GenerateJSON)
    (question answer competency : string) (expectedTopics : list string)
    (raw : EvaluationResult.t) :
  dev_mockAiServices cfg = false ->
  responseEvaluation gen question answer competency expectedTopics = Returns raw ->
  exists r,
    evaluateResponse cfg gen question answer competency expectedTopics = Returns r
    /\ EvaluationResult.overall_score r
       = JS.Math_max 1 (JS.Math_min 5 (EvaluationResult.overall_score raw))
    /\ (1 <= EvaluationResult.overall_score r <= 5)%Q.
Proof.
  intros Hmock Hraw. unfold evaluateResponse. rewrite Hmock, Hraw.
  eexists. split; [reflexivity|]. simpl.
  split; [reflexivity | apply clamp_range].
Qed.

Lemma evaluateResponse_clamps_overall_witness :
  exists r,
    evaluateResponse default_config (answering generous_evaluation)
      "How do you design APIs?" "With care." "Backend" [] = Returns r
    /\ EvaluationResult.overall_score r = 5%Q.
Proof.
  destruct (evaluateResponse_clamps_overall default_config (answering generous_evaluation)
              "How do you design APIs?" "With care." "Backend" [] generous_evaluation
              eq_refl eq_refl)
    as (r & Hr & Ho & _).
  exists r. split; [exact Hr|]. rewrite Ho. reflexivity.
Defined.

(** ** Generation gateway *)

Section GatewayFacts.

Import Gateway.

Variable cfg : Config.
Variable backend : Backend.
Variable T : Type.
Variable JSON_parse : string -> outcome T.




Lemma attemptCompletion_error (prompt : string) (w : World) (e : JS.Error) :
  attempt_error (backend prompt (requests w)) = Some e ->
  attemptCompletion backend prompt w
  = (Throws e, {| requests := S (requests w); sleeps := sleeps w |}).
Proof.
  unfold attemptCompletion, attempt_error.
  destruct (backend prompt (requests w)) as [e'|[] status text [r|e']];
    simpl; intros H; inversion H; reflexivity.
Qed.

Lemma attemptCompletion_requests (prompt : string) (w : World) :
  requests (snd (attemptCompletion backend prompt w)) = S (requests w).
Proof.
  unfold attemptCompletion.
  destruct (backend prompt (requests w)) as [e'|[] status text [r|e']]; reflexivity.
Qed.

(** When every attempt fails the loop runs out and throws the generic
    error, after one request per iteration. *)
Lemma completionLoop_exhausted (prompt : string) :
  (forall n, attempt_error (backend prompt n) <> None) ->
  forall (fuel : nat) (attempt : Z) (lastError : option JS.Error) (w : World),
  exists m w',
    completionLoop cfg backend fuel prompt attempt lastError w
    = (Throws (completion_failure cfg m), w')
    /\ requests w' = (requests w + fuel)%nat.
Proof.
  intros Hfail. induction fuel as [|fuel IH]; intros attempt lastError w; simpl.
  - eexists _, _. split; [reflexivity|]. lia.
  - destruct (attempt_error (backend prompt (requests w))) as [e|] eqn:He;
      [|now destruct (Hfail (requests w))].
    rewrite (attemptCompletion_error _ _ _ He).
    match goal with
    | |- context [completionLoop _ _ _ _ ?a ?l ?w0] =>
        destruct (IH a l w0) as (m & w' & Heq & Hreq)
    end.
    exists m, w'. split; [exact Heq|].
    rewrite Hreq. destruct (attempt <? ollama_maxRetries cfg - 1); simpl; lia.
Qed.

(** A failure of [generateCompletion] is the generic error. *)
Lemma completionLoop_throws (prompt : string) (fuel : nat) :
  forall (attempt : Z) (lastError : option JS.Error) (w : World) (e : JS.Error),
    fst (completionLoop cfg backend fuel prompt attempt lastError w) = Throws e ->
    exists m, e = completion_failure cfg m.
Proof.
  induction fuel as [|fuel IH]; intros attempt lastError w e; simpl.
  - intros H. inversion H. now eexists.
  - destruct (attemptCompletion backend prompt w) as [[r|err] w'].
    + discriminate.
    + apply IH.
Qed.

Lemma jsonLoop_throws (prompt : string) (fuel : nat) :
  forall (lastError : option JS.Error) (w : World) (e : JS.Error),
    fst (jsonLoop cfg backend T JSON_parse fuel prompt lastError w) = Throws e ->
    e = json_failure (JS.optional_message lastError)
    \/ exists m, e = json_failure m.
Proof.
  induction fuel as [|fuel IH]; intros lastError w e; simpl.
  - intros H. inversion H. now left.
  - destruct (generateCompletion cfg backend prompt w) as [[response|err] w'].
    + destruct (JSON_parse response) as [parsed|err].
      * discriminate.
      * intros H. right. destruct (IH _ _ _ H) as [->|Hm]; [now eexists | exact Hm].
    + intros H. right. destruct (IH _ _ _ H) as [->|Hm]; [now eexists | exact Hm].
Qed.

Lemma jsonLoop_unavailable (prompt : string) :
  (forall n, attempt_error (backend prompt n) <> None) ->
  forall (fuel : nat) (lastError : option JS.Error) (w : World),
    (0 < fuel)%nat ->
    exists m w',
      jsonLoop cfg backend T JSON_parse fuel prompt lastError w
      = (Throws (json_failure (JS.message (completion_failure cfg m))), w')
      /\ requests w' = (requests w + fuel * Z.to_nat (ollama_maxRetries cfg))%nat.
Proof.
  intros Hfail. induction fuel as [|fuel IH]; intros lastError w Hpos; [lia|].
  simpl. unfold generateCompletion.
  destruct (completionLoop_exhausted prompt Hfail (Z.to_nat (ollama_maxRetries cfg))
              0 None w) as (m & w' & Heq & Hreq).
  rewrite Heq. destruct fuel as [|fuel].
  - simpl. exists m, w'. split; [reflexivity|]. lia.
  - destruct (IH (Some (completion_failure cfg m)) w') as (m' & w'' & Heq' & Hreq'); [lia|].
    exists m', w''. split; [exact Heq'|]. lia.
Qed.


Lemma generateCompletion_first (prompt : string) (w : World)
    (status : Z) (statusText response : string) :
  1 <= ollama_maxRetries cfg ->
  backend prompt (requests w) = FetchResponds true status statusText (BodyJson response) ->
  generateCompletion cfg backend prompt w
  = (Returns response, {| requests := S (requests w); sleeps := sleeps w |}).
Proof.
  intros Hretries Hb. unfold generateCompletion.
  destruct (Z.to_nat (ollama_maxRetries cfg)) as [|fuel] eqn:Hfuel; [lia|].
  simpl. unfold attemptCompletion. rewrite Hb. reflexivity.
Qed.

Lemma jsonLoop_malformed (prompt : string) :
  1 <= ollama_maxRetries cfg ->
  (forall n, malformed backend JSON_parse prompt n) ->
  forall (fuel : nat) (lastError : option JS.Error) (w : World),
    (0 < fuel)%nat ->
    exists response e w',
      JSON_parse response = Throws e
      /\ jsonLoop cfg backend T JSON_parse fuel prompt lastError w
         = (Throws (json_failure (JS.message e)), w')
      /\ requests w' = (requests w + fuel)%nat.
Proof.
  intros Hretries Hbad. induction fuel as [|fuel IH]; intros lastError w Hpos; [lia|].
  simpl. destruct (Hbad (requests w)) as (status & text & response & e & Hb & Hparse).
  rewrite (generateCompletion_first _ _ _ _ _ Hretries Hb), Hparse.
  destruct fuel as [|fuel].
  - simpl. exists response, e. eexists. split; [exact Hparse|].
    split; [reflexivity|]. simpl. lia.
  - match goal with
    | |- context [jsonLoop _ _ _ _ _ _ ?l ?w0] =>
        destruct (IH l w0) as (r' & e' & w' & Hp' & Heq' & Hreq'); [lia|]
    end.
    exists r', e', w'. split; [exact Hp'|]. split; [exact Heq'|].
    rewrite Hreq'. simpl. lia.
Qed.

(** C5, amended. [generateJSON] has no failure values: a failure is thrown,
    and what is thrown is always the generic error whose message starts
    with "Failed to get valid JSON from Ollama: ".  When every request
    fails, this happens after three rounds of [maxRetries] requests and the
    message quotes the generic error of [generateCompletion]; when every
    payload arrives but does not parse, it happens after three requests and
    the message quotes the parse error. *)
Theorem generateJSON_failure_is_generic_error (prompt : string) (w : World) :
  (forall e,
      fst (generateJSON cfg backend T JSON_parse prompt w) = Throws e ->
      JS.name e = "Error"
      /\ exists m, JS.message e = "Failed to get valid JSON from Ollama: " +:+ m)
  /\ ((forall n, attempt_error (backend prompt n) <> None) ->
      exists m w',
        generateJSON cfg backend T JSON_parse prompt w
        = (Throws (JS.new_Error
                     ("Failed to get valid JSON from Ollama: Ollama failed after "
                        +:+ JS.String_of_Z (ollama_maxRetries cfg)
                        +:+ " attempts: " +:+ m)), w')
        /\ requests w' = (requests w + 3 * Z.to_nat (ollama_maxRetries cfg))%nat)
  /\ (1 <= ollama_maxRetries cfg ->
      (forall n, malformed backend JSON_parse prompt n) ->
      exists response e w',
        JSON_parse response = Throws e
        /\ generateJSON cfg backend T JSON_parse prompt w
           = (Throws (JS.new_Error
                        ("Failed to get valid JSON from Ollama: " +:+ JS.message e)), w')
        /\ requests w' = (requests w + 3)%nat).
Proof.
  unfold generateJSON. split; [|split].
  - intros e H. destruct (jsonLoop_throws _ _ _ _ _ H) as [->|[m ->]];
      (split; [reflexivity | now eexists]).
  - intros Hfail.
    destruct (jsonLoop_unavailable prompt Hfail 3 None w) as (m & w' & Heq & Hreq); [lia|].
    exists m, w'. split; [exact Heq | exact Hreq].
  - intros Hretries Hbad.
    destruct (jsonLoop_malformed prompt Hretries Hbad 3 None w)
      as (response & e & w' & Hp & Heq & Hreq); [lia|].
    exists response, e, w'. repeat split; assumption.
Qed.

End GatewayFacts.



(** C5, as stated, fails: with the backend unreachable and both retry
    budgets spent (nine requests, a back-off of 1 s and 2 s in each round),
    [generateJSON] throws a plain [Error]; no failure value is returned and
    the error carries no type of its own. *)
Lemma generateJSON_throws_untyped_error :
  Gateway.generateJSON default_config unreachable_backend unit parse_empty_object
    "Evaluate this interview response." {| Gateway.requests := 0; Gateway.sleeps := [] |}
  = (Throws (JS.mkError "Error"
               "Failed to get valid JSON from Ollama: Ollama failed after 3 attempts: fetch failed"),
     {| Gateway.requests := 9;
        Gateway.sleeps := [1000; 2000; 1000; 2000; 1000; 2000] |}).
Proof. vm_compute. reflexivity. Qed.

Lemma generateJSON_failure_is_generic_error_witness :
  exists m w',
    Gateway.generateJSON default_config unreachable_backend unit parse_empty_object
      "Evaluate this interview response." {| Gateway.requests := 0; Gateway.sleeps := [] |}
    = (Throws (JS.new_Error
                 ("Failed to get valid JSON from Ollama: Ollama failed after "
                    +:+ JS.String_of_Z (ollama_maxRetries default_config)
                    +:+ " attempts: " +:+ m)), w')
    /\ Gateway.requests w' = 9%nat.
Proof.
  destruct (generateJSON_failure_is_generic_error default_config unreachable_backend
              unit parse_empty_object "Evaluate this interview response."
              {| Gateway.requests := 0; Gateway.sleeps := [] |})
    as (_ & Hunavailable & _).
  destruct Hunavailable as (m & w' & Heq & Hreq); [intros n; discriminate|].
  exists m, w'. split; [exact Heq | exact Hreq].
Defined.

(** ** Lists and tables *)

Lemma find_map_preserve {A : Type} (P : A -> bool) (f : A -> A) (l : list A) :
  (forall x, P (f x) = P x) ->
  List.find P (map f l) = option_map f (List.find P l).
Proof.
  intros Hf. induction l as [|x l IH]; simpl; [reflexivity|].
  rewrite Hf. destruct (P x); [reflexivity | exact IH].
Qed.

Lemma filter_map_preserve {A : Type} (P : A -> bool) (f : A -> A) (l : list A) :
  (forall x, P (f x) = P x) ->
  List.filter P (map f l) = map f (List.filter P l).
Proof.
  intros Hf. induction l as [|x l IH]; simpl; [reflexivity|].
  rewrite Hf. destruct (P x); simpl; now rewrite IH.
Qed.

Lemma filter_sublist {A : Type} (P : A -> bool) (l : list A) :
  sublist (List.filter P l) l.
Proof.
  induction l as [|x l IH]; simpl; [constructor|].
  destruct (P x); now constructor.
Qed.

Lemma sublist_filter_length {A : Type} (P : A -> bool) (l1 l2 : list A) :
  sublist l1 l2 -> (length (List.filter P l1) <= length (List.filter P l2))%nat.
Proof.
  induction 1 as [|x l1 l2 _ IH|x l1 l2 _ IH]; simpl.
  - lia.
  - destruct (P x); simpl; lia.
  - destruct (P x); simpl; lia.
Qed.

Lemma sublist_Forall {A : Type} (P : A -> Prop) (l1 l2 : list A) :
  sublist l1 l2 -> Forall P l2 -> Forall P l1.
Proof.
  intros Hsub Hall. apply Forall_forall. intros x Hx.
  rewrite Forall_forall in Hall. apply Hall.
  now apply (sublist_subseteq _ _ Hsub).
Qed.

Lemma update_keeps_keys (id : Z) (f : Interview.t -> Interview.t) (l : list Interview.t) :
  (forall x, interview_key (f x) = interview_key x) ->
  map interview_key (map (fun x => if Interview.id x =? id then f x else x) l)
  = map interview_key l.
Proof.
  intros Hf. rewrite map_map. apply map_ext. intros x.
  destruct (Interview.id x =? id); [apply Hf | reflexivity].
Qed.

Lemma Question_count_app (i : Z) (s s' : Store) (new : Question.t) :
  questions s' = questions s ++ [new] ->
  Question_count i s'
  = Question_count i s + (if Question.interview_id new =? i then 1 else 0).
Proof.
  intros H. unfold Question_count. rewrite H, List.filter_app, length_app. simpl.
  destruct (Question.interview_id new =? i); simpl; lia.
Qed.

Lemma Question_count_sublist (i : Z) (s s' : Store) :
  sublist (questions s') (questions s) -> Question_count i s' <= Question_count i s.
Proof.
  intros H. unfold Question_count.
  apply inj_le. now apply sublist_filter_length.
Qed.

(** ** What the operations do to the store *)

Lemma follow_up_depth (ev : EvaluationResult.t) (d maxDepth : Z) :
  action (determineNextAction ev d maxDepth) = follow_up -> d < maxDepth.
Proof.
  unfold determineNextAction.
  destruct (JS.ge _ 4 || (d >=? maxDepth)) eqn:E1; [discriminate|].
  apply orb_false_iff in E1. destruct E1 as [_ E1].
  intros _. lia.
Qed.

Ltac case_match_eq :=
  match goal with
  | |- context [match ?x with _ => _ end] => destruct x eqn:?
  end.

(** Case analysis on a scrutinee that contains no other case analysis: the
    one the program evaluates first. *)
Ltac case_inner :=
  match goal with
  | |- context [match ?x with _ => _ end] =>
      lazymatch x with
      | context [match _ with _ => _ end] => fail
      | _ => destruct x eqn:?
      end
  end.

Ltac finish_effect :=
  simpl;
  first [ now apply effect_aborted
        | now (eapply effect_completed; eauto; simpl; eauto)
        | now (eapply effect_continued; eauto; simpl; try reflexivity; eauto) ].

Ltac advance_case :=
  repeat (first [ finish_effect | case_match_eq; simpl ]).

Lemma processAnswer_effect (cfg : Config) (gen : GenerateJSON) (now : Z)
    (uuid : string) (qid : Z) (text : string) (rt : option Z) (s : Store) :
  answer_effect cfg uuid qid s
    (fst (processAnswer cfg gen now uuid qid text rt s))
    (snd (processAnswer cfg gen now uuid qid text rt s)).
Proof.
  unfold processAnswer, bind, query, orThrow, await, insert_row, write, ret, throw,
    continue_result, updateSessionStatus.
  destruct (Session_findOne uuid s) as [session|] eqn:Hs; simpl; [|constructor].
  destruct (Interview_findOne_in_progress (Session.id session) s) as [iv|] eqn:Hi;
    simpl; [|constructor].
  destruct (Question_findByPk qid s) as [q|] eqn:Hq; simpl; [|constructor].
  destruct (Question.interview_id q =? Interview.id iv) eqn:Hqi; simpl; [|constructor].
  apply Z.eqb_eq in Hqi.
  destruct (CV_findOne _ s ≫= CV.parsed_data) as [cvData|]; simpl; [|constructor].
  destruct (JobDescription_findOne _ s ≫= JobDescription.parsed_data) as [jdData|];
    simpl; [|constructor].
  destruct (evaluateResponse _ _ _ _ _ _) as [ev|e]; simpl; [|constructor].
  destruct (Answer_valid _); simpl; [|constructor].
  destruct (Interview.interview_state iv) as [st|]; simpl;
    [|now apply effect_aborted].
  change (Question_count (Interview.id iv) _) with (Question_count (Interview.id iv) s).
  set (st1 := alter_competency _ _ (count_answer st)).
  set (evaluation := AnswerEvaluation.mk _ _ _ _ _ _ _ _).
  set (answer := Answer.mk _ _ _ _ _ _).
  destruct (Question_count (Interview.id iv) s >=? interview_maxQuestions cfg) eqn:Hmax;
    simpl.
  { eapply effect_completed; eauto; simpl; eauto. }
  destruct (every_completed st1) eqn:Hall; simpl.
  { eapply effect_completed; eauto; simpl; eauto. }
  assert (Hroom : Question_count (Interview.id iv) s < interview_maxQuestions cfg) by lia.
  destruct (action (determineNextAction ev (Question.depth_level q)
                      (interview_maxFollowUpDepth cfg))) eqn:Hact.
  - destruct (followUpType _) as [fut|] eqn:Hfut.
    + destruct (generateFollowUp _ _ _ _ _ _ _ _) as [fu|e]; simpl;
        [|now apply effect_aborted].
      destruct (Interview.question_plan iv) as [plan|] eqn:Hplan; simpl;
        (eapply effect_continued; eauto; simpl; try reflexivity; eauto;
         right; split; [reflexivity|]; eapply follow_up_depth; eauto).
    + advance_case.
  - advance_case.
  - advance_case.
  - advance_case.
Qed.

(** [startInterview] throws before it writes; or it replaces the interview
    of the session and then either fails to get the first question or
    stores it. *)
Lemma startInterview_effect (cfg : Config) (gen : GenerateJSON) (now : Z)
    (uuid : string) (s : Store) :
  (exists e, startInterview cfg gen now uuid s = (Throws e, s))
  \/ exists session cvData jdData,
       Session_findOne uuid s = Some session
       /\ CV_findOne (Session.id session) s ≫= CV.parsed_data = Some cvData
       /\ JobDescription_findOne (Session.id session) s ≫= JobDescription.parsed_data
          = Some jdData
       /\ let s1 := cleared (Session.id session) s in
          let interview := fresh_interview cfg now (Session.id session) jdData s1 in
          let s2 := mkStore (sessions s1) (cvs s1) (jds s1) (interviews s1 ++ [interview])
                            (questions s1) (answers s1) (summaries s1)
                            (next_interview_id s1 + 1) (next_question_id s1)
                            (next_answer_id s1) in
          let first := generateQuestion cfg gen cvData jdData
                         (head (ParsedJDData.competency_areas jdData)) 1 in
          (exists e, first = Throws e
                     /\ startInterview cfg gen now uuid s = (Throws e, s2))
          \/ (exists g r,
                 first = Returns g
                 /\ interviewId r = Interview.id interview
                 /\ startInterview cfg gen now uuid s
                    = (Returns r,
                       Session_update_status uuid s_interviewing
                         (snd (Question_create (Interview.id interview) None 1
                                 (GeneratedQuestion.competency g)
                                 (GeneratedQuestion.question_text g) 0 s2)))).
Proof.
  unfold startInterview, bind, query, orThrow, await, insert_row, write, ret, throw,
    updateSessionStatus.
  destruct (Session_findOne uuid s) as [session|] eqn:Hs; simpl; [|left; eauto].
  destruct (CV_findOne _ s ≫= CV.parsed_data) as [cvData|] eqn:Hcv; simpl;
    [|left; eauto].
  destruct (JobDescription_findOne _ s ≫= JobDescription.parsed_data) as [jdData|] eqn:Hjd;
    simpl; [|left; eauto].
  right. exists session, cvData, jdData.
  repeat (split; [first [reflexivity | assumption]|]).
  cbv zeta. unfold cleared.
  destruct (Interview_findOne (Session.id session) s) as [existing|]; simpl;
    (destruct (generateQuestion cfg gen cvData jdData _ 1) as [g|e]; simpl;
     [right; eexists _, _; repeat split; reflexivity | left; eauto]).
Qed.

Lemma POST_finish_effect (now : Z) (uuid : string) (s : Store) :
  let s' := snd (POST_finish now uuid s) in
  questions s' = questions s
  /\ next_interview_id s' = next_interview_id s
  /\ (interviews s' = interviews s
      \/ exists id, interviews s'
                    = interviews (Interview_update id (mark_completed now) s)).
Proof.
  unfold POST_finish, catch_finish_error, validateSession, bind, query, write, ret,
    throw, updateSessionStatus.
  repeat (first [ progress simpl | case_inner ]);
    (split; [reflexivity | split; [reflexivity|]]);
    first [ left; reflexivity | right; eexists; reflexivity ].
Qed.

(** ** Every step is a change *)

Lemma sublist_map {A B : Type} (f : A -> B) (l1 l2 : list A) :
  sublist l1 l2 -> sublist (map f l1) (map f l2).
Proof. induction 1; simpl; now constructor. Qed.

Lemma answer_change (cfg : Config) (uuid : string) (qid : Z) (s s' : Store)
    (r : outcome ProcessAnswerResult) :
  answer_effect cfg uuid qid s r s' -> change cfg s s'.
Proof.
  intros [e | e s1 _ _ _ Hi Hq Hn
          | res s1 session iv st now _ _ _ _ _ _ Hi Hq Hn
          | r0 s1 session iv st asked new _ Hiv Hasked Hq Hi _ _ _ Hn _ Hroom Hnew Hdepth].
  - now apply change_kept.
  - apply change_kept; [rewrite Hi | rewrite Hq | exact Hn]; reflexivity.
  - apply change_kept; [|rewrite Hq; reflexivity | exact Hn].
    rewrite Hi. simpl. rewrite update_keeps_keys; reflexivity.
  - apply (change_asked cfg s s1 new asked iv); try assumption.
    + rewrite Hi. simpl. rewrite update_keeps_keys; reflexivity.
    + unfold Interview_findOne_in_progress in Hiv. now apply find_some in Hiv.
    + unfold Question_findByPk in Hasked. now apply find_some in Hasked.
Qed.

Lemma cleared_sublist (session_id : Z) (s : Store) :
  sublist (interviews (cleared session_id s)) (interviews s)
  /\ sublist (questions (cleared session_id s)) (questions s)
  /\ next_interview_id (cleared session_id s) = next_interview_id s.
Proof.
  unfold cleared. destruct (Interview_findOne session_id s) as [existing|]; simpl.
  - repeat split; apply filter_sublist.
  - repeat split; reflexivity.
Qed.

Lemma start_change (cfg : Config) (gen : GenerateJSON) (now : Z) (uuid : string)
    (s : Store) :
  change cfg s (snd (startInterview cfg gen now uuid s)).
Proof.
  destruct (startInterview_effect cfg gen now uuid s)
    as [[e ->] | (session & cvData & jdData & _ & _ & _ & H)].
  - now apply change_kept.
  - cbv zeta in H.
    destruct (cleared_sublist (Session.id session) s) as (_ & _ & Hnext).
    destruct H as [(e & _ & ->) | (g & r & _ & _ & ->)]; simpl.
    + apply (change_started cfg s _ (Session.id session)
               (fresh_interview cfg now (Session.id session) jdData
                  (cleared (Session.id session) s)) []); simpl;
        first [ reflexivity | lia | now rewrite ?Hnext | now rewrite app_nil_r
              | constructor ].
    + eapply (change_started cfg s _ (Session.id session)
                (fresh_interview cfg now (Session.id session) jdData
                   (cleared (Session.id session) s)) [_]); simpl;
        first [ reflexivity | lia | now rewrite ?Hnext
              | repeat constructor; simpl; exact Hnext ].
Qed.

Lemma finish_change (cfg : Config) (now : Z) (uuid : string) (s : Store) :
  change cfg s (snd (POST_finish now uuid s)).
Proof.
  destruct (POST_finish_effect now uuid s) as (Hq & Hn & [Hi | [id Hi]]);
    (apply change_kept; [|rewrite Hq; reflexivity | exact Hn]).
  - rewrite Hi. reflexivity.
  - rewrite Hi. simpl. rewrite update_keeps_keys; reflexivity.
Qed.

Lemma step_change (cfg : Config) (s s' : Store) : step cfg s s' -> change cfg s s'.
Proof.
  intros [gen now uuid s0 | gen now uuid qid text rt s0 | now uuid s0 | s0 s1 Henv].
  - apply start_change.
  - eapply answer_change, processAnswer_effect.
  - apply finish_change.
  - destruct Henv as (Hi & Hq & _ & Hn & _).
    apply change_kept; [now apply sublist_map | exact Hq | exact Hn].
Qed.

(** ** Invariants *)

Lemma key_In (l : list Interview.t) (i : Interview.t) (keys : list (Z * Z)) :
  In i l -> sublist (map interview_key l) keys ->
  In (interview_key i) keys.
Proof.
  intros Hin Hsub. apply list_elem_of_In, (sublist_subseteq _ _ Hsub), list_elem_of_In.
  now apply in_map.
Qed.

Lemma fresh_change (cfg : Config) (s s' : Store) :
  fresh s -> change cfg s s' -> fresh s'.
Proof.
  intros [Hq Hi] Hchange. rewrite Forall_forall in Hi.
  assert (Hkeys : forall i keys,
             In i (interviews s') ->
             sublist (map interview_key (interviews s')) keys ->
             keys = map interview_key (interviews s) ->
             Interview.id i < next_interview_id s).
  { intros i keys Hin Hsub ->. apply (key_In _ _ _ Hin) in Hsub.
    apply in_map_iff in Hsub. destruct Hsub as (i0 & Hkey & Hin0).
    apply list_elem_of_In, Hi in Hin0. inversion Hkey. congruence. }
  destruct Hchange as [Hsi Hsq Hn | new asked iv Hsi Hsq Hn Hiv _ Hnew _ _
                      | sid iv first Hsi Hid _ Hn Hsq _ Hfirst].
  - split.
    + rewrite Hn. eapply sublist_Forall; eassumption.
    + apply Forall_forall. intros i Hin. rewrite Hn.
      apply list_elem_of_In in Hin. eapply Hkeys; eauto.
  - split.
    + rewrite Hn, Hsq. apply Forall_app. split; [exact Hq|].
      repeat constructor. rewrite Hnew. apply Hi. now apply list_elem_of_In.
    + apply Forall_forall. intros i Hin. rewrite Hn.
      apply list_elem_of_In in Hin. eapply Hkeys; eauto; now rewrite Hsi.
  - destruct (cleared_sublist sid s) as (Hci & Hcq & _). split.
    + rewrite Hn, Hsq. apply Forall_app. split.
      * eapply sublist_Forall; [exact Hcq|].
        eapply Forall_impl; [exact Hq|]. simpl. intros; lia.
      * eapply Forall_impl; [exact Hfirst|]. simpl. intros q [-> _]. lia.
    + rewrite Hn, Hsi. apply Forall_app. split.
      * eapply sublist_Forall; [exact Hci|].
        apply Forall_forall. intros i Hin. apply Hi in Hin. lia.
      * repeat constructor. lia.
Qed.

Lemma filter_nil {A : Type} (P : A -> bool) (l : list A) :
  (forall x, In x l -> P x = false) -> List.filter P l = [].
Proof.
  induction l as [|a l IH]; simpl; intros H; [reflexivity|].
  rewrite (H a) by now left. apply IH. intros x Hx. apply H. now right.
Qed.

Lemma fresh_count_zero (s : Store) :
  fresh s -> Question_count (next_interview_id s) s = 0.
Proof.
  intros [Hq _]. unfold Question_count.
  rewrite filter_nil; [reflexivity|]. intros q Hin.
  rewrite Forall_forall in Hq. apply list_elem_of_In, Hq in Hin.
  apply Z.eqb_neq. lia.
Qed.

Lemma bounded_change (cfg : Config) (s s' : Store) :
  1 <= interview_maxQuestions cfg ->
  fresh s -> bounded cfg s -> change cfg s s' -> bounded cfg s'.
Proof.
  intros Hmax Hfresh Hb Hchange i.
  destruct Hchange as [_ Hsq _ | new asked iv _ Hsq _ _ _ Hnew Hroom _
                      | sid iv first _ _ _ _ Hsq Hlen Hfirst].
  - pose proof (Question_count_sublist i s s' Hsq). specialize (Hb i). lia.
  - rewrite (Question_count_app i s s' new Hsq).
    destruct (Question.interview_id new =? i) eqn:E.
    + apply Z.eqb_eq in E. subst i. rewrite Hnew. lia.
    + specialize (Hb i). lia.
  - destruct (cleared_sublist sid s) as (_ & Hcq & _).
    unfold Question_count. rewrite Hsq, List.filter_app, length_app.
    pose proof (Question_count_sublist i s (cleared sid s) Hcq) as Hle.
    unfold Question_count in Hle.
    destruct (Z.eq_dec i (next_interview_id s)) as [->|Hne].
    + pose proof (fresh_count_zero s Hfresh) as Hz. unfold Question_count in Hz.
      pose proof (sublist_length _ _ (filter_sublist
                   (fun q => Question.interview_id q =? next_interview_id s) first)).
      lia.
    + replace (List.filter _ first) with (@nil Question.t).
      * specialize (Hb i). unfold Question_count in Hb. simpl. lia.
      * symmetry. apply filter_nil. intros q Hq.
        rewrite Forall_forall in Hfirst. apply list_elem_of_In, Hfirst in Hq.
        destruct Hq as [Hq _]. apply Z.eqb_neq. congruence.
Qed.

Lemma shallow_change (cfg : Config) (s s' : Store) :
  0 <= interview_maxFollowUpDepth cfg ->
  shallow cfg s -> change cfg s s' -> shallow cfg s'.
Proof.
  intros Hmax Hs Hchange. unfold shallow in *.
  destruct Hchange as [_ Hsq _ | new asked iv _ Hsq _ _ _ _ _ Hdepth
                      | sid iv first _ _ _ _ Hsq _ Hfirst].
  - eapply sublist_Forall; eassumption.
  - rewrite Hsq. apply Forall_app. split; [exact Hs|].
    repeat constructor. destruct Hdepth as [-> | [-> Hlt]]; lia.
  - destruct (cleared_sublist sid s) as (_ & Hcq & _).
    rewrite Hsq. apply Forall_app. split.
    + eapply sublist_Forall; eassumption.
    + eapply Forall_impl; [exact Hfirst|]. simpl. intros q [_ ->]. exact Hmax.
Qed.

Lemma NoDup_map_inj {A B : Type} (f : A -> B) (l : list A) (x y : A) :
  NoDup (map f l) -> In x l -> In y l -> f x = f y -> x = y.
Proof.
  induction l as [|a l IH]; simpl; [tauto|].
  intros Hnd Hx Hy Hf. apply NoDup_cons in Hnd. destruct Hnd as [Hna Hnd].
  destruct Hx as [->|Hx], Hy as [->|Hy].
  - reflexivity.
  - exfalso. apply Hna. rewrite Hf. apply list_elem_of_In. now apply in_map.
  - exfalso. apply Hna. rewrite <- Hf. apply list_elem_of_In. now apply in_map.
  - now apply IH.
Qed.

(** Once the interview of a session is destroyed the session has none. *)
Lemma cleared_none (session_id : Z) (s : Store) :
  one_interview s ->
  List.filter (fun x => Interview.session_id x =? session_id)
              (interviews (cleared session_id s)) = [].
Proof.
  intros Hnd. unfold cleared, Interview_findOne.
  destruct (List.find _ (interviews s)) as [existing|] eqn:Hfind; simpl.
  - apply find_some in Hfind. destruct Hfind as [Hin Hsid]. apply Z.eqb_eq in Hsid.
    apply filter_nil. intros x Hx. apply filter_In in Hx. destruct Hx as [Hx Hid].
    destruct (Interview.session_id x =? session_id) eqn:E; [|reflexivity].
    apply Z.eqb_eq in E.
    assert (x = existing) by (eapply NoDup_map_inj; eauto; congruence).
    subst x. rewrite Z.eqb_refl in Hid. discriminate.
  - apply filter_nil. intros x Hx. exact (find_none _ _ Hfind x Hx).
Qed.

Lemma one_interview_change (cfg : Config) (s s' : Store) :
  one_interview s -> change cfg s s' -> one_interview s'.
Proof.
  unfold one_interview. intros Hnd Hchange.
  assert (Hsnd : forall l, map Interview.session_id l = map snd (map interview_key l)).
  { intros l. rewrite map_map. reflexivity. }
  destruct Hchange as [Hsi _ _ | new asked iv Hsi _ _ _ _ _ _ _
                      | sid iv first Hsi _ Hsid _ _ _ _].
  - rewrite Hsnd. eapply sublist_NoDup; [|apply sublist_map, Hsi].
    now rewrite <- Hsnd.
  - now rewrite Hsnd, Hsi, <- Hsnd.
  - destruct (cleared_sublist sid s) as (Hci & _ & _).
    rewrite Hsi, map_app. simpl. apply NoDup_app. split; [|split].
    + eapply sublist_NoDup; [exact Hnd | apply sublist_map, Hci].
    + intros y Hy Hin. apply list_elem_of_In in Hin. destruct Hin as [<-|[]].
      apply list_elem_of_In, in_map_iff in Hy. destruct Hy as (x & Hx & Hin).
      pose proof (cleared_none sid s Hnd) as Hnone.
      assert (Hf : In x (List.filter (fun x => Interview.session_id x =? sid)
                                     (interviews (cleared sid s)))).
      { apply filter_In. split; [exact Hin|]. apply Z.eqb_eq. congruence. }
      rewrite Hnone in Hf. destruct Hf.
    + apply NoDup_singleton.
Qed.

(** The invariants hold in every reachable store. *)
Lemma reachable_invariants (cfg : Config) (s : Store) :
  reachable cfg s ->
  fresh s /\ one_interview s
  /\ (1 <= interview_maxQuestions cfg -> bounded cfg s)
  /\ (0 <= interview_maxFollowUpDepth cfg -> shallow cfg s).
Proof.
  intros (s0 & (Hi & Hq & _) & Hrun).
  assert (H0 : fresh s0 /\ one_interview s0
               /\ (1 <= interview_maxQuestions cfg -> bounded cfg s0)
               /\ (0 <= interview_maxFollowUpDepth cfg -> shallow cfg s0)).
  { unfold fresh, one_interview, bounded, shallow, Question_count.
    rewrite Hi, Hq. simpl. repeat split; try constructor; intros; lia. }
  clear Hi Hq. induction Hrun as [s0 | s0 s1 s2 Hstep _ IH]; [exact H0|].
  apply IH. apply step_change in Hstep.
  destruct H0 as (Hf & Ho & Hb & Hs). repeat split.
  - apply (fresh_change cfg s0 s1 Hf Hstep).
  - apply (fresh_change cfg s0 s1 Hf Hstep).
  - apply (one_interview_change cfg s0 s1 Ho Hstep).
  - intros Hmax. apply (bounded_change cfg s0 s1 Hmax Hf (Hb Hmax) Hstep).
  - intros Hmax. apply (shallow_change cfg s0 s1 Hmax (Hs Hmax) Hstep).
Qed.

(** ** The validation of the answer row never fails *)

Lemma Math_round_range (x : Q) :
  (1 <= x <= 5)%Q -> 1 <= JS.Math_round x <= 5.
Proof.
  intros [H1 H5]. unfold JS.Math_round.
  assert (Hlow : Qfloor (1 + (1 # 2)) <= Qfloor (x + (1 # 2))).
  { apply Qfloor_resp_le, Qplus_le_compat; [exact H1 | apply Qle_refl]. }
  assert (Hhigh : Qfloor (x + (1 # 2)) <= Qfloor (5 + (1 # 2))).
  { apply Qfloor_resp_le, Qplus_le_compat; [exact H5 | apply Qle_refl]. }
  replace (Qfloor (1 + (1 # 2))) with 1 in Hlow by reflexivity.
  replace (Qfloor (5 + (1 # 2))) with 5 in Hhigh by reflexivity.
  lia.
Qed.

(** The overall score the evaluator returns rounds to a valid
    [quality_score]. *)
Lemma evaluateResponse_quality (cfg : Config) (gen : GenerateJSON)
    (question answer competency : string) (expectedTopics : list string)
    (ev : EvaluationResult.t) :
  evaluateResponse cfg gen question answer competency expectedTopics = Returns ev ->
  Answer_valid (JS.Math_round (EvaluationResult.overall_score ev)) = true.
Proof.
  unfold evaluateResponse, Answer_valid. destruct (dev_mockAiServices cfg).
  - intros H. inversion H. subst ev. clear H. unfold getMockEvaluation. simpl.
    destruct (Z.of_nat (String.length answer) >? 200); [reflexivity|].
    destruct (Z.of_nat (String.length answer) >? 100); reflexivity.
  - destruct (responseEvaluation gen question answer competency expectedTopics)
      as [raw|e]; [|discriminate].
    intros H. inversion H. subst ev. clear H. simpl.
    pose proof (Math_round_range _ (clamp_range (EvaluationResult.overall_score raw))).
    apply andb_true_iff. split; apply Z.leb_le; lia.
Qed.

(** ** A run of answers *)

Lemma find_and_filter {A : Type} (P Q : A -> bool) (l : list A) :
  List.find (fun x => P x && Q x) l = List.find Q (List.filter P l).
Proof.
  induction l as [|x l IH]; simpl; [reflexivity|].
  destruct (P x); simpl; [|exact IH]. destruct (Q x); [reflexivity | exact IH].
Qed.

(** A status update keeps the sessions findable, with their ids. *)
Lemma Session_findOne_update_status (uuid uuid' : string) (status : SessionStatus)
    (s : Store) (session : Session.t) :
  Session_findOne uuid s = Some session ->
  exists session',
    Session_findOne uuid (Session_update_status uuid' status s) = Some session'
    /\ Session.id session' = Session.id session.
Proof.
  unfold Session_findOne, Session_update_status. simpl. intros H.
  rewrite find_map_preserve.
  - rewrite H. simpl. eexists. split; [reflexivity|].
    destruct (String.eqb (Session.uuid session) uuid'); reflexivity.
  - intros x. destruct (String.eqb (Session.uuid x) uuid'); reflexivity.
Qed.

Lemma in_progress_found (uuid : string) (interview_id asked : Z) (s : Store) :
  in_progress uuid interview_id asked s ->
  exists session interview st,
    Session_findOne uuid s = Some session
    /\ Interview_findOne_in_progress (Session.id session) s = Some interview
    /\ List.filter (fun x => Interview.session_id x =? Session.id session) (interviews s)
       = [interview]
    /\ Interview.id interview = interview_id
    /\ Interview.interview_state interview = Some st.
Proof.
  intros (session & interview & Hs & Hf & Hid & Hst & [st Hstate] & _).
  exists session, interview, st. repeat split; try assumption.
  unfold Interview_findOne_in_progress.
  rewrite (find_and_filter (fun x => Interview.session_id x =? Session.id session)
             (fun x => InterviewStatus_eqb (Interview.status x) i_in_progress)).
  rewrite Hf. simpl. now rewrite Hst.
Qed.

(** The stores the predicate cannot tell apart. *)
Lemma in_progress_ext (uuid : string) (interview_id asked : Z) (s s' : Store) :
  sessions s' = sessions s -> cvs s' = cvs s -> jds s' = jds s ->
  interviews s' = interviews s -> questions s' = questions s ->
  in_progress uuid interview_id asked s -> in_progress uuid interview_id asked s'.
Proof.
  intros Hs Hc Hj Hi Hq. unfold in_progress, Session_findOne, CV_findOne,
    JobDescription_findOne, Question_count.
  now rewrite Hs, Hc, Hj, Hi, Hq.
Qed.

Lemma answer_in_progress (cfg : Config) (uuid : string) (qid : Z) (s s' : Store)
    (r : outcome ProcessAnswerResult) (interview_id asked : Z) :
  in_progress uuid interview_id asked s ->
  answer_effect cfg uuid qid s r s' ->
  match r with
  | Throws _ => in_progress uuid interview_id asked s'
  | Returns res =>
      if isComplete res then finished uuid s'
      else asked < interview_maxQuestions cfg
           /\ in_progress uuid interview_id (asked + 1) s'
  end.
Proof.
  intros Hopen Heff.
  destruct (in_progress_found _ _ _ _ Hopen)
    as (session & interview & st0 & Hs & Hfind & Hfilter & Hid & Hstate).
  destruct Hopen as (session1 & interview1 & Hs1 & Hf1 & _ & Hst & Hsome & Hplan & Hcv
                     & Hjd & Hcount).
  rewrite Hs in Hs1. inversion Hs1. subst session1. clear Hs1.
  rewrite Hfilter in Hf1. inversion Hf1. subst interview1. clear Hf1.
  destruct Heff as [e | e s1 Hss Hc Hj Hi Hq Hn
          | res s1 session2 iv st now Hs2 Hiv Hres Hss Hc Hj Hi Hq Hn
          | r0 s1 session2 iv st q new Hs2 Hiv Hasked Hq Hi Hss Hc Hj Hn Hres Hroom Hnew Hdepth].
  - exists session, interview. repeat split; assumption.
  - apply (in_progress_ext uuid interview_id asked s s1); try assumption.
    exists session, interview. repeat split; assumption.
  - rewrite Hres. rewrite Hs in Hs2. inversion Hs2. subst session2. clear Hs2.
    rewrite Hfind in Hiv. inversion Hiv. subst iv. clear Hiv.
    intros session' Hs'.
    assert (Hsid : Session.id session' = Session.id session).
    { destruct Hss as [Hss | Hss].
      - unfold Session_findOne in Hs', Hs. rewrite Hss, Hs in Hs'. congruence.
      - destruct (Session_findOne_update_status uuid uuid s_completed s session Hs)
          as (session'' & Hs'' & Heq).
        unfold Session_findOne in Hs', Hs''. rewrite Hss, Hs'' in Hs'. congruence. }
    unfold Interview_findOne_in_progress.
    rewrite (find_and_filter (fun x => Interview.session_id x =? Session.id session')
               (fun x => InterviewStatus_eqb (Interview.status x) i_in_progress)).
    rewrite Hi, Hsid. simpl. rewrite filter_map_preserve.
    + rewrite Hfilter. simpl. rewrite Z.eqb_refl. reflexivity.
    + intros x. destruct (Interview.id x =? Interview.id interview); reflexivity.
  - rewrite Hs in Hs2. inversion Hs2. subst session2. clear Hs2.
    rewrite Hfind in Hiv. inversion Hiv. subst iv. clear Hiv.
    destruct r0 as [res|e];
      [|rewrite Hres in Hplan; now destruct Hplan].
    rewrite Hres.
    split; [rewrite <- Hcount, <- Hid; exact Hroom|].
    exists session, (save_state st interview).
    unfold Session_findOne, CV_findOne, JobDescription_findOne.
    rewrite Hss, Hc, Hj, Hi. simpl. repeat split; try assumption.
    + rewrite filter_map_preserve.
      * rewrite Hfilter. simpl. now rewrite Z.eqb_refl.
      * intros x. destruct (Interview.id x =? Interview.id interview); reflexivity.
    + now eexists.
    + rewrite (Question_count_app interview_id s s1 new Hq), Hnew, Hid, Z.eqb_refl. lia.
Qed.

Lemma finished_stays (cfg : Config) (gen : GenerateJSON) (now : Z) (uuid : string)
    (qid : Z) (text : string) (rt : option Z) (s : Store) :
  finished uuid s ->
  exists e, processAnswer cfg gen now uuid qid text rt s = (Throws e, s).
Proof.
  intros Hdone. unfold processAnswer, bind, query, orThrow, ret, throw.
  destruct (Session_findOne uuid s) as [session|] eqn:Hs; simpl; [|now eexists].
  rewrite (Hdone session Hs). simpl. now eexists.
Qed.

Lemma run_finished (cfg : Config) (uuid : string) (calls : list AnswerCall) (s : Store) :
  finished uuid s ->
  List.filter continued (fst (submit_all cfg uuid calls s)) = [].
Proof.
  intros Hdone. induction calls as [|c calls IH]; simpl; [reflexivity|].
  unfold submit at 1.
  destruct (finished_stays cfg (call_gen c) (call_now c) uuid (call_question c)
              (call_text c) (call_time c) s Hdone) as [e ->].
  destruct (submit_all cfg uuid calls s) as [rs s2]. simpl. exact IH.
Qed.

(** The questions asked and the answers that continue never add up to more
    than the maximum. *)
Lemma run_bounded (cfg : Config) (uuid : string) (interview_id : Z)
    (calls : list AnswerCall) :
  forall (asked : Z) (s : Store),
    in_progress uuid interview_id asked s ->
    asked <= interview_maxQuestions cfg ->
    asked + Z.of_nat (length (List.filter continued (fst (submit_all cfg uuid calls s))))
    <= interview_maxQuestions cfg.
Proof.
  induction calls as [|c calls IH]; intros asked s Hopen Hle; simpl; [lia|].
  pose proof (processAnswer_effect cfg (call_gen c) (call_now c) uuid (call_question c)
                (call_text c) (call_time c) s) as Heff.
  apply (answer_in_progress cfg uuid _ s _ _ interview_id asked Hopen) in Heff.
  unfold submit at 1.
  destruct (processAnswer cfg (call_gen c) (call_now c) uuid (call_question c)
              (call_text c) (call_time c) s) as [r s1]. simpl in Heff.
  destruct (submit_all cfg uuid calls s1) as [rs s2] eqn:Hrun. simpl.
  destruct r as [res|e]; simpl.
  - destruct (isComplete res); simpl.
    + pose proof (run_finished cfg uuid calls s1 Heff) as Hnil.
      rewrite Hrun in Hnil. simpl in Hnil. rewrite Hnil. simpl. lia.
    + destruct Heff as [Hlt Hopen']. specialize (IH (asked + 1) s1 Hopen').
      rewrite Hrun in IH. simpl in IH. lia.
  - specialize (IH asked s1 Heff Hle). rewrite Hrun in IH. exact IH.
Qed.

(** As long as no answer completes the interview it stays in progress, one
    question further with every answer that continues. *)
Lemma run_in_progress (cfg : Config) (uuid : string) (interview_id : Z)
    (calls : list AnswerCall) :
  forall (asked : Z) (s : Store),
    in_progress uuid interview_id asked s ->
    existsb completed (fst (submit_all cfg uuid calls s)) = false ->
    in_progress uuid interview_id
      (asked + Z.of_nat (length (List.filter continued (fst (submit_all cfg uuid calls s)))))
      (snd (submit_all cfg uuid calls s)).
Proof.
  induction calls as [|c calls IH]; intros asked s Hopen Hnone; simpl.
  - now rewrite Z.add_0_r.
  - pose proof (processAnswer_effect cfg (call_gen c) (call_now c) uuid (call_question c)
                  (call_text c) (call_time c) s) as Heff.
    apply (answer_in_progress cfg uuid _ s _ _ interview_id asked Hopen) in Heff.
    simpl in Hnone. unfold submit in *.
    destruct (processAnswer cfg (call_gen c) (call_now c) uuid (call_question c)
                (call_text c) (call_time c) s) as [r s1]. simpl in Heff.
    specialize (IH) with (s := s1).
    destruct (submit_all cfg uuid calls s1) as [rs s2] eqn:Hrun. simpl in *.
    apply orb_false_iff in Hnone. destruct Hnone as [Hr Hrs].
    destruct r as [res|e]; simpl in *.
    + rewrite Hr in Heff. rewrite Hr. simpl. destruct Heff as [_ Hopen'].
      specialize (IH (asked + 1) Hopen' Hrs).
      replace (asked + Z.of_nat (S (length (List.filter continued rs))))
        with (asked + 1 + Z.of_nat (length (List.filter continued rs))) by lia.
      exact IH.
    + exact (IH asked Heff Hrs).
Qed.

Lemma cleared_frame (session_id : Z) (s : Store) :
  sessions (cleared session_id s) = sessions s
  /\ cvs (cleared session_id s) = cvs s
  /\ jds (cleared session_id s) = jds s.
Proof.
  unfold cleared. destruct (Interview_findOne session_id s); repeat split; reflexivity.
Qed.

(** A started interview is in progress with one question asked. *)
Lemma start_in_progress (cfg : Config) (gen : GenerateJSON) (now : Z) (uuid : string)
    (s s' : Store) (r : StartResult) :
  fresh s -> one_interview s ->
  startInterview cfg gen now uuid s = (Returns r, s') ->
  in_progress uuid (interviewId r) 1 s'.
Proof.
  intros Hfresh Hone Hstart.
  destruct (startInterview_effect cfg gen now uuid s)
    as [[e He] | (session & cvData & jdData & Hs & Hcv & Hjd & H)];
    [rewrite He in Hstart; discriminate|].
  cbv zeta in H.
  destruct H as [(e & _ & He) | (g & r' & _ & Hid & Hr)];
    [rewrite He in Hstart; discriminate|].
  rewrite Hr in Hstart. inversion Hstart. subst r' s'. clear Hstart Hr.
  destruct (cleared_frame (Session.id session) s) as (Hss & Hc & Hj).
  destruct (cleared_sublist (Session.id session) s) as (_ & Hcq & Hn).
  pose proof (cleared_none (Session.id session) s Hone) as Hnone.
  set (s1 := cleared (Session.id session) s) in *.
  set (interview := fresh_interview cfg now (Session.id session) jdData s1) in *.
  assert (Hfound : exists session',
             List.find (fun x => String.eqb (Session.uuid x) uuid)
               (map (fun x => if String.eqb (Session.uuid x) uuid
                              then Session.mk (Session.id x) (Session.uuid x)
                                     s_interviewing (Session.expires_at x)
                              else x) (sessions s)) = Some session'
             /\ Session.id session' = Session.id session).
  { exact (Session_findOne_update_status uuid uuid s_interviewing s session Hs). }
  destruct Hfound as (session' & Hs' & Hsid).
  exists session', interview.
  unfold Session_findOne, CV_findOne, JobDescription_findOne, Question_count.
  simpl. rewrite Hss, Hc, Hj, Hs', Hsid.
  split; [reflexivity|]. split.
  { rewrite List.filter_app, Hnone. simpl.
    now rewrite Z.eqb_refl. }
  split; [now rewrite Hid|]. split; [reflexivity|]. split; [now eexists|].
  split; [now eexists|].
  split; [unfold CV_findOne in Hcv; rewrite Hcv; now eexists|].
  split; [unfold JobDescription_findOne in Hjd; rewrite Hjd; now eexists|].
  rewrite Hid, List.filter_app, length_app. simpl. rewrite Z.eqb_refl. simpl.
  rewrite Hn.
  pose proof (Question_count_sublist (next_interview_id s) s s1 Hcq) as Hle.
  rewrite (fresh_count_zero s Hfresh) in Hle.
  unfold Question_count in Hle. lia.
Qed.

(** Once the maximum is reached, an answer that is evaluated ends the
    interview. *)
Lemma answer_final (cfg : Config) (gen : GenerateJSON) (now : Z) (uuid : string)
    (qid : Z) (text : string) (rt : option Z) (s : Store)
    (interview_id asked : Z) (q : Question.t) (ev : EvaluationResult.t) :
  in_progress uuid interview_id asked s ->
  interview_maxQuestions cfg <= asked ->
  Question_findByPk qid s = Some q ->
  Question.interview_id q = interview_id ->
  evaluateResponse cfg gen (Question.question_text q) text (Question.competency q) []
  = Returns ev ->
  exists res,
    fst (processAnswer cfg gen now uuid qid text rt s) = Returns res
    /\ isComplete res = true.
Proof.
  intros Hopen Hmax Hq Hqi Hev.
  destruct (in_progress_found _ _ _ _ Hopen)
    as (session & interview & st & Hs & Hfind & Hfilter & Hid & Hstate).
  destruct Hopen as (session1 & interview1 & Hs1 & _ & _ & _ & _ & _ & [cvData Hcv]
                     & [jdData Hjd] & Hcount).
  rewrite Hs in Hs1. inversion Hs1. subst session1. clear Hs1.
  unfold processAnswer, bind, query, orThrow, await, insert_row, write, ret, throw,
    updateSessionStatus.
  rewrite Hs. simpl. rewrite Hfind. simpl. rewrite Hq. simpl.
  rewrite Hqi, Hid, Z.eqb_refl. simpl. rewrite Hcv, Hjd, Hev. simpl.
  rewrite (evaluateResponse_quality _ _ _ _ _ _ _ Hev). simpl.
  rewrite Hstate. simpl.
  change (Question_count interview_id _) with (Question_count interview_id s).
  rewrite Hcount.
  destruct (asked >=? interview_maxQuestions cfg) eqn:E; [|lia].
  simpl. eexists. split; reflexivity.
Qed.

(** C6, as stated, fails: a call that throws does not count.  With a maximum
    of two questions and a backend whose follow-up generation fails, five
    answers to the first question all throw: none reports completion, each
    leaves its answer in the store, and the interview stays in progress with
    its one question. *)
Lemma interview_open_after_failed_calls :
  let calls := map (answer_call follow_up_down 1) [2000; 3000; 4000; 5000; 6000] in
  let run := submit_all two_question_config "u-1" calls (two_started follow_up_down) in
  interview_maxQuestions two_question_config = 2
  /\ (exists r0,
         startInterview two_question_config follow_up_down 1000 "u-1" demo_store
         = (Returns r0, two_started follow_up_down))
  /\ fst run = repeat (Throws (JS.new_Error "backend down")) 5
  /\ existsb completed (fst run) = false
  /\ map Answer.question_id (answers (snd run)) = [1; 1; 1; 1; 1]
  /\ map Interview.status (interviews (snd run)) = [i_in_progress]
  /\ Question_count 1 (snd run) = 1.
Proof.
  split; [reflexivity|]. split; [eexists; vm_compute; reflexivity|].
  repeat split; vm_compute; reflexivity.
Qed.

(** C6, amended. With a maximum of at least one question: no interview ever
    has more questions than the maximum; of the answers given to a started
    interview fewer than the maximum return and continue it; and when the
    maximum less one have continued it, the next answer that is evaluated
    returns and completes it.  An answer whose call throws is no turn. *)
Theorem interview_terminates (cfg : Config) :
  1 <= interview_maxQuestions cfg ->
  (forall s interview_id,
      reachable cfg s ->
      Question_count interview_id s <= interview_maxQuestions cfg)
  /\ (forall s0 gen now uuid r0 s1 calls,
         reachable cfg s0 ->
         startInterview cfg gen now uuid s0 = (Returns r0, s1) ->
         let results := fst (submit_all cfg uuid calls s1) in
         let s := snd (submit_all cfg uuid calls s1) in
         Z.of_nat (length (List.filter continued results)) < interview_maxQuestions cfg
         /\ (existsb completed results = false ->
             Z.of_nat (length (List.filter continued results))
             = interview_maxQuestions cfg - 1 ->
             forall c q ev,
               Question_findByPk (call_question c) s = Some q ->
               Question.interview_id q = interviewId r0 ->
               evaluateResponse cfg (call_gen c) (Question.question_text q)
                 (call_text c) (Question.competency q) [] = Returns ev ->
               exists res,
                 fst (submit cfg uuid c s) = Returns res /\ isComplete res = true)).
Proof.
  intros Hmax. split.
  - intros s i Hreach.
    destruct (reachable_invariants cfg s Hreach) as (_ & _ & Hb & _).
    exact (Hb Hmax i).
  - intros s0 gen now uuid r0 s1 calls Hreach Hstart results s.
    destruct (reachable_invariants cfg s0 Hreach) as (Hfresh & Hone & _).
    pose proof (start_in_progress cfg gen now uuid s0 s1 r0 Hfresh Hone Hstart) as Hopen.
    split.
    + pose proof (run_bounded cfg uuid (interviewId r0) calls 1 s1 Hopen Hmax).
      subst results. lia.
    + intros Hnone Hturns c q ev Hq Hqi Hev.
      pose proof (run_in_progress cfg uuid (interviewId r0) calls 1 s1 Hopen Hnone)
        as Hopen'.
      fold results in Hopen'. fold s in Hopen'. rewrite Hturns in Hopen'.
      unfold submit.
      eapply answer_final; eauto. lia.
Qed.

Lemma demo_reachable : reachable mock_config demo_answered.
Proof.
  exists demo_store. split; [repeat split; reflexivity|].
  eapply rtc_l; [apply (step_start mock_config no_backend 1000 "u-1")|].
  eapply rtc_l; [|apply rtc_refl].
  apply (step_answer mock_config no_backend 2000 "u-1" 1 "It depends." (Some 900)).
Qed.

Lemma interview_terminates_witness :
  1 <= interview_maxQuestions two_question_config
  /\ Question_count 1 (two_started follow_up_up) <= 2
  /\ exists res,
       fst (submit two_question_config "u-1" (answer_call follow_up_up 2 3000)
              (snd (submit_all two_question_config "u-1" [answer_call follow_up_up 1 2000]
                      (two_started follow_up_up))))
       = Returns res
       /\ isComplete res = true.
Proof.
  assert (H : 1 <= interview_maxQuestions two_question_config) by (simpl; lia).
  split; [exact H|].
  destruct (interview_terminates two_question_config H) as [Hbound Hrun].
  assert (Hinitial : reachable two_question_config demo_store).
  { exists demo_store. split; [repeat split; reflexivity | apply rtc_refl]. }
  split.
  - apply Hbound. exists demo_store. split; [repeat split; reflexivity|].
    eapply rtc_l; [|apply rtc_refl].
    apply (step_start two_question_config follow_up_up 1000 "u-1").
  - eassert (Hstart : startInterview two_question_config follow_up_up 1000 "u-1" demo_store
                      = (Returns _, two_started follow_up_up))
      by (vm_compute; reflexivity).
    pose proof (Hrun demo_store follow_up_up 1000 "u-1" _ _
                  [answer_call follow_up_up 1 2000] Hinitial Hstart) as Hcalls.
    cbv zeta in Hcalls. destruct Hcalls as [_ Hfinal].
    eapply Hfinal.
    + vm_compute. reflexivity.
    + vm_compute. reflexivity.
    + vm_compute. reflexivity.
    + vm_compute. reflexivity.
    + vm_compute. reflexivity.
Defined.

(** C7. With a maximum depth that is not negative: no question of a
    reachable store is deeper than the maximum; the decision asks for a
    follow-up only below the maximum depth; and a question that
    [processAnswer] adds is a root question or one level below the answered
    question, which is itself below the maximum. *)
Theorem depth_level_bounded (cfg : Config) :
  0 <= interview_maxFollowUpDepth cfg ->
  (forall s,
      reachable cfg s ->
      Forall (fun q => Question.depth_level q <= interview_maxFollowUpDepth cfg)
             (questions s))
  /\ (forall ev d,
         action (determineNextAction ev d (interview_maxFollowUpDepth cfg)) = follow_up ->
         d < interview_maxFollowUpDepth cfg)
  /\ (forall gen now uuid qid text rt s,
         let s' := snd (processAnswer cfg gen now uuid qid text rt s) in
         questions s' = questions s
         \/ exists asked new,
              Question_findByPk qid s = Some asked
              /\ questions s' = questions s ++ [new]
              /\ (Question.depth_level new = 0
                  \/ (Question.depth_level new = Question.depth_level asked + 1
                      /\ Question.depth_level asked < interview_maxFollowUpDepth cfg))).
Proof.
  intros Hmax. split; [|split].
  - intros s Hreach.
    destruct (reachable_invariants cfg s Hreach) as (_ & _ & _ & Hs).
    exact (Hs Hmax).
  - intros ev d. apply follow_up_depth.
  - intros gen now uuid qid text rt s s'. subst s'.
    destruct (processAnswer_effect cfg gen now uuid qid text rt s)
      as [e | e s1 _ _ _ _ Hq _
          | res s1 session iv st now' _ _ _ _ _ _ _ Hq _
          | r0 s1 session iv st asked new _ _ Hasked Hq _ _ _ _ _ _ _ _ Hdepth].
    + now left.
    + now left.
    + now left.
    + right. exists asked, new. repeat split; assumption.
Qed.

Lemma depth_level_bounded_witness :
  0 <= interview_maxFollowUpDepth mock_config
  /\ Forall (fun q => Question.depth_level q <= interview_maxFollowUpDepth mock_config)
            (questions demo_answered).
Proof.
  assert (H : 0 <= interview_maxFollowUpDepth mock_config) by (simpl; lia).
  split; [exact H|].
  destruct (depth_level_bounded mock_config H) as [Hdepth _].
  exact (Hdepth demo_answered demo_reachable).
Defined.

(** ** Answers to a question that is not open *)

(** C2, as stated, fails: in [demo_answered] the open question is the
    follow-up 2, question 1 has its answer; yet an answer to question 1 is
    accepted: the call returns the next question, a second answer to
    question 1 is stored and a third question is created. *)
Lemma processAnswer_accepts_answered_question :
  option_map Question.id (currentQuestion 1 demo_answered) = Some 2
  /\ map Answer.question_id (answers demo_answered) = [1]
  /\ continued (fst (processAnswer mock_config no_backend 3000 "u-1" 1 "Once more."
                       None demo_answered)) = true
  /\ map Answer.question_id
         (answers (snd (processAnswer mock_config no_backend 3000 "u-1" 1 "Once more."
                          None demo_answered))) = [1; 1]
  /\ map Question.id
         (questions (snd (processAnswer mock_config no_backend 3000 "u-1" 1 "Once more."
                            None demo_answered))) = [1; 2; 3].
Proof. vm_compute. repeat split; reflexivity. Qed.

(** C2, amended. An answer against an id that names no question, or a
    question of another interview, is rejected with the generic error
    "Question not found", and the store stays as it is. *)
Theorem processAnswer_rejects_foreign_question (cfg : Config) (gen : GenerateJSON)
    (now : Z) (uuid : string) (qid : Z) (text : string) (rt : option Z) (s : Store)
    (session : Session.t) (interview : Interview.t) :
  Session_findOne uuid s = Some session ->
  Interview_findOne_in_progress (Session.id session) s = Some interview ->
  (Question_findByPk qid s = None
   \/ exists q, Question_findByPk qid s = Some q
                /\ Question.interview_id q <> Interview.id interview) ->
  processAnswer cfg gen now uuid qid text rt s
  = (Throws (JS.new_Error "Question not found"), s).
Proof.
  intros Hs Hi Hq. unfold processAnswer, bind, query, orThrow, ret, throw.
  rewrite Hs. simpl. rewrite Hi. simpl.
  destruct Hq as [-> | (q & -> & Hne)]; simpl; [reflexivity|].
  apply Z.eqb_neq in Hne. now rewrite Hne.
Qed.

Lemma processAnswer_rejects_foreign_question_witness :
  processAnswer mock_config no_backend 3000 "u-1" 99 "Once more." None demo_answered
  = (Throws (JS.new_Error "Question not found"), demo_answered).
Proof.
  eapply (processAnswer_rejects_foreign_question mock_config no_backend 3000 "u-1" 99
            "Once more." None demo_answered).
  - vm_compute. reflexivity.
  - vm_compute. reflexivity.
  - left. vm_compute. reflexivity.
Defined.

(** ** Starting an interview *)

(** C8, as stated, fails: for a job description without competency areas
    the plan builder returns the empty plan, and [startInterview] has
    created the interview record when it throws (a [TypeError], while it
    prepares the first question). *)
Lemma startInterview_creates_interview_for_empty_plan :
  generateQuestionPlan default_config empty_jd = QuestionPlan.mk [] 0 0
  /\ interviews (store_with empty_jd) = []
  /\ fst (startInterview default_config no_backend 1000 "u-1" (store_with empty_jd))
     = Throws (JS.mkError "TypeError"
                 "Cannot read properties of undefined (reading 'name')")
  /\ map (fun i => (Interview.id i, Interview.status i, Interview.question_plan i))
         (interviews (snd (startInterview default_config no_backend 1000 "u-1"
                             (store_with empty_jd))))
     = [(1, i_in_progress, Some (QuestionPlan.mk [] 0 0))].
Proof. vm_compute. repeat split; reflexivity. Qed.

Lemma fresh_interview_cleared (cfg : Config) (now session_id : Z)
    (jdData : ParsedJDData.t) (s : Store) :
  fresh_interview cfg now session_id jdData (cleared session_id s)
  = fresh_interview cfg now session_id jdData s.
Proof.
  unfold fresh_interview.
  destruct (cleared_sublist session_id s) as (_ & _ & ->). reflexivity.
Qed.

(** The interviews and the questions after [startInterview] got past its
    checks. *)
Lemma startInterview_tables (cfg : Config) (gen : GenerateJSON) (now : Z)
    (uuid : string) (s : Store) (session : Session.t) (cvData : ParsedCVData.t)
    (jdData : ParsedJDData.t) :
  Session_findOne uuid s = Some session ->
  CV_findOne (Session.id session) s ≫= CV.parsed_data = Some cvData ->
  JobDescription_findOne (Session.id session) s ≫= JobDescription.parsed_data
  = Some jdData ->
  let s' := snd (startInterview cfg gen now uuid s) in
  let s1 := cleared (Session.id session) s in
  let created := fresh_interview cfg now (Session.id session) jdData s in
  interviews s' = interviews s1 ++ [created]
  /\ match generateQuestion cfg gen cvData jdData
             (head (ParsedJDData.competency_areas jdData)) 1 with
     | Throws e =>
         fst (startInterview cfg gen now uuid s) = Throws e
         /\ questions s' = questions s1
     | Returns g =>
         (exists r, fst (startInterview cfg gen now uuid s) = Returns r
                    /\ interviewId r = Interview.id created)
         /\ questions s'
            = questions s1
              ++ [Question.mk (next_question_id s) (Interview.id created) None 1
                    (GeneratedQuestion.competency g)
                    (GeneratedQuestion.question_text g) 0]
     end.
Proof.
  intros Hs Hcv Hjd s' s1 created. subst s' s1 created.
  destruct (startInterview_effect cfg gen now uuid s)
    as [[e He] | (session' & cvData' & jdData' & Hs' & Hcv' & Hjd' & H)].
  - exfalso. revert He.
    unfold startInterview, bind, query, orThrow, await, insert_row, write, ret, throw.
    rewrite Hs. simpl. rewrite Hcv, Hjd. simpl.
    destruct (Interview_findOne (Session.id session) s); simpl;
      destruct (generateQuestion _ _ _ _ _ _); simpl; intros He;
      inversion He as [[He1 He2]];
      apply (f_equal next_interview_id) in He2; simpl in He2; lia.
  - rewrite Hs in Hs'. inversion Hs'. subst session'. clear Hs'.
    rewrite Hcv in Hcv'. inversion Hcv'. subst cvData'. clear Hcv'.
    rewrite Hjd in Hjd'. inversion Hjd'. subst jdData'. clear Hjd'.
    cbv zeta in H. rewrite fresh_interview_cleared in H.
    assert (Hq : next_question_id (cleared (Session.id session) s) = next_question_id s).
    { unfold cleared. now destruct (Interview_findOne (Session.id session) s). }
    destruct H as [(e & -> & ->) | (g & r & -> & Hid & ->)]; simpl.
    + repeat split; reflexivity.
    + rewrite Hq. split; [reflexivity|]. split; [|reflexivity].
      exists r. split; [reflexivity | exact Hid].
Qed.

(** C8, amended. For a job description without competency areas the plan
    builder does not reject its input, it returns the empty plan; and
    [startInterview] stores the interview record, in progress and with that
    plan, before it asks for the first question. *)
Theorem startInterview_empty_competencies (cfg : Config) (gen : GenerateJSON) (now : Z)
    (uuid : string) (s : Store) (session : Session.t) (cvData : ParsedCVData.t)
    (jdData : ParsedJDData.t) :
  Session_findOne uuid s = Some session ->
  CV_findOne (Session.id session) s ≫= CV.parsed_data = Some cvData ->
  JobDescription_findOne (Session.id session) s ≫= JobDescription.parsed_data
  = Some jdData ->
  ParsedJDData.competency_areas jdData = [] ->
  let s' := snd (startInterview cfg gen now uuid s) in
  let created := fresh_interview cfg now (Session.id session) jdData s in
  generateQuestionPlan cfg jdData = QuestionPlan.mk [] 0 0
  /\ interviews s' = interviews (cleared (Session.id session) s) ++ [created]
  /\ Interview.status created = i_in_progress
  /\ Interview.question_plan created = Some (QuestionPlan.mk [] 0 0).
Proof.
  intros Hs Hcv Hjd Hempty s' created.
  assert (Hplan : generateQuestionPlan cfg jdData = QuestionPlan.mk [] 0 0).
  { unfold generateQuestionPlan. rewrite Hempty. reflexivity. }
  destruct (startInterview_tables cfg gen now uuid s session cvData jdData Hs Hcv Hjd)
    as [Hi _].
  split; [exact Hplan|]. split; [exact Hi|]. split; [reflexivity|].
  unfold created, fresh_interview. simpl. now rewrite Hplan.
Qed.

Lemma startInterview_empty_competencies_witness :
  generateQuestionPlan default_config empty_jd = QuestionPlan.mk [] 0 0
  /\ length (interviews (snd (startInterview default_config no_backend 1000 "u-1"
                                (store_with empty_jd)))) = 1%nat.
Proof.
  destruct (startInterview_empty_competencies default_config no_backend 1000 "u-1"
              (store_with empty_jd)
              (Session.mk 1 "u-1" s_scored 86400000) (ParsedCVData.mk "mid" 4) empty_jd
              eq_refl eq_refl eq_refl eq_refl)
    as (Hplan & Hi & _).
  split; [exact Hplan|]. rewrite Hi. reflexivity.
Defined.

Lemma mem_In (x : Z) (l : list Z) : mem x l = true <-> In x l.
Proof.
  unfold mem. rewrite existsb_exists. split.
  - intros (y & Hy & Heq). apply Z.eqb_eq in Heq. now subst.
  - intros H. exists x. split; [exact H | apply Z.eqb_refl].
Qed.

Lemma cascade_incl (fuel : nat) (qs : list Question.t) :
  forall (dead : list Z) (x : Z), In x dead -> In x (cascade fuel qs dead).
Proof.
  induction fuel as [|fuel IH]; intros dead x Hx; simpl; [exact Hx|].
  apply IH, in_or_app. now left.
Qed.

(** A destroyed interview leaves no question behind. *)
Lemma Interview_destroy_questions (id : Z) (s : Store) :
  Forall (fun q => Question.interview_id q <> id) (questions (Interview_destroy id s)).
Proof.
  apply Forall_forall. intros q Hq Heq. apply list_elem_of_In in Hq.
  unfold Interview_destroy in Hq. simpl in Hq.
  apply filter_In in Hq. destruct Hq as [Hin Hmem].
  apply negb_true_iff in Hmem.
  assert (Hdead : mem (Question.id q)
                    (cascade (length (questions s)) (questions s)
                       (map Question.id
                          (List.filter (fun q => Question.interview_id q =? id)
                                       (questions s)))) = true).
  { apply mem_In, cascade_incl, in_map, filter_In.
    split; [exact Hin | now apply Z.eqb_eq]. }
  congruence.
Qed.

(** C10, as stated, fails: the check of the CV and the job description comes
    before the existing interview is looked up.  On [demo_answered] with the
    job description gone, a store the system reaches, the repeated start is
    rejected and the interview of the session is kept as it was. *)
Lemma startInterview_keeps_interview_without_jd :
  reachable mock_config (without_jds demo_answered)
  /\ map Interview.id (interviews (without_jds demo_answered)) = [1]
  /\ startInterview mock_config no_backend 5000 "u-1" (without_jds demo_answered)
     = (Throws (JS.new_Error "CV and JD must be parsed before starting interview"),
        without_jds demo_answered).
Proof.
  split; [|split; vm_compute; reflexivity].
  destruct demo_reachable as (s0 & Hinitial & Hsteps).
  exists s0. split; [exact Hinitial|].
  eapply rtc_r; [exact Hsteps|]. apply step_environment.
  unfold environment, without_jds.
  cbn [interviews questions answers next_interview_id next_question_id next_answer_id].
  repeat split; reflexivity.
Qed.

(** C10, amended. When the CV and the job description of the session are
    parsed and the session already has an interview, whatever its status,
    [startInterview] does not reject the call on its account: it removes
    that interview (with its questions) and appends a new one, in progress,
    with a plan and a state computed afresh from the job description;
    whether the call then returns depends only on the generation of the
    first question. *)
Theorem startInterview_replaces_existing (cfg : Config) (gen : GenerateJSON) (now : Z)
    (uuid : string) (s : Store) (session : Session.t) (cvData : ParsedCVData.t)
    (jdData : ParsedJDData.t) (existing : Interview.t) :
  Session_findOne uuid s = Some session ->
  CV_findOne (Session.id session) s ≫= CV.parsed_data = Some cvData ->
  JobDescription_findOne (Session.id session) s ≫= JobDescription.parsed_data
  = Some jdData ->
  Interview_findOne (Session.id session) s = Some existing ->
  let s' := snd (startInterview cfg gen now uuid s) in
  let created := fresh_interview cfg now (Session.id session) jdData s in
  interviews s'
  = List.filter (fun x => negb (Interview.id x =? Interview.id existing)) (interviews s)
    ++ [created]
  /\ Interview.status created = i_in_progress
  /\ Interview.question_plan created = Some (generateQuestionPlan cfg jdData)
  /\ Interview.interview_state created
     = Some (initializeInterviewState (generateQuestionPlan cfg jdData))
  /\ (Interview.id existing < next_interview_id s ->
      Forall (fun i => Interview.id i <> Interview.id existing) (interviews s')
      /\ Forall (fun q => Question.interview_id q <> Interview.id existing) (questions s'))
  /\ (forall g,
         generateQuestion cfg gen cvData jdData
           (head (ParsedJDData.competency_areas jdData)) 1 = Returns g ->
         exists r, fst (startInterview cfg gen now uuid s) = Returns r
                   /\ interviewId r = Interview.id created).
Proof.
  intros Hs Hcv Hjd Hex s' created.
  destruct (startInterview_tables cfg gen now uuid s session cvData jdData Hs Hcv Hjd)
    as [Hi Hq].
  fold s' in Hi, Hq. fold created in Hi, Hq.
  assert (Hcl : cleared (Session.id session) s
                = Interview_destroy (Interview.id existing) s).
  { unfold cleared. now rewrite Hex. }
  rewrite Hcl in Hi, Hq.
  split; [exact Hi|]. repeat (split; [reflexivity|]). split.
  - intros Hlt. split.
    + rewrite Hi. simpl. apply Forall_app. split.
      * apply Forall_forall. intros i Hin Heq. apply list_elem_of_In, filter_In in Hin.
        destruct Hin as [_ Hne]. rewrite Heq, Z.eqb_refl in Hne. discriminate.
      * repeat constructor. simpl. lia.
    + pose proof (Interview_destroy_questions (Interview.id existing) s) as Hgone.
      destruct (generateQuestion cfg gen cvData jdData _ 1) as [g|e].
      * destruct Hq as [_ ->]. apply Forall_app. split; [exact Hgone|].
        repeat constructor. simpl. lia.
      * destruct Hq as [_ ->]. exact Hgone.
  - intros g Hg. rewrite Hg in Hq. apply Hq.
Qed.

Lemma startInterview_replaces_existing_witness :
  map Interview.id
      (interviews (snd (startInterview mock_config no_backend 5000 "u-1" demo_answered)))
  = [2].
Proof.
  destruct (startInterview_replaces_existing mock_config no_backend 5000 "u-1"
              demo_answered
              (Session.mk 1 "u-1" s_interviewing 86400000) (ParsedCVData.mk "mid" 4)
              demo_jd
              (Interview.mk 1 1 i_in_progress
                 (Interview.question_plan
                    (fresh_interview mock_config 1000 1 demo_jd demo_store))
                 (default None
                    (option_map Interview.interview_state
                       (head (interviews demo_answered))))
                 (Some 1000) None 1000)
              eq_refl eq_refl eq_refl)
    as (Hi & _).
  - vm_compute. reflexivity.
  - rewrite Hi. vm_compute. reflexivity.
Defined.

(** ** The finish request *)

Lemma latest_map_preserve {A : Type} (key : A -> Z) (f : A -> A) (l : list A) :
  (forall x, key (f x) = key x) ->
  latest key (map f l) = option_map f (latest key l).
Proof.
  intros Hf. induction l as [|x l IH]; simpl; [reflexivity|].
  rewrite IH. destruct (latest key l) as [y|]; simpl; [|reflexivity].
  rewrite !Hf. now destruct (key x <? key y).
Qed.

(** The request on a valid session whose latest interview has a total to
    report. *)
Lemma POST_finish_run (now : Z) (uuid : string) (s : Store) (session : Session.t)
    (interview : Interview.t) (total : Z) :
  String.eqb uuid "" = false ->
  Session_findOne uuid s = Some session ->
  (Session.expires_at session <? now) = false ->
  Interview_findOne_latest (Session.id session) s = Some interview ->
  reported_total interview = Some total ->
  POST_finish now uuid s
  = (Returns (json_success (finish_response now interview total)),
     finished_store now uuid interview s).
Proof.
  intros Hu Hs Hvalid Hi Htotal.
  unfold POST_finish, catch_finish_error, validateSession, bind, query, write, ret,
    throw, updateSessionStatus, finished_store, reported_total in *.
  rewrite Hu, Hs. simpl. rewrite Hvalid. simpl. rewrite Hs. simpl. rewrite Hi. simpl.
  destruct (InterviewStatus_eqb (Interview.status interview) i_completed); simpl;
    (destruct (Interview.interview_state interview) as [st|]; [|discriminate]);
    (destruct (InterviewState.total_questions st =? 0);
     [destruct (Interview.question_plan interview) as [plan|]; [|discriminate]|]);
    simpl in *; inversion Htotal; reflexivity.
Qed.

(** A successful request is such a run. *)
Lemma POST_finish_success (now : Z) (uuid : string) (s : Store)
    (d : FinishInterviewResponse) :
  body (match fst (POST_finish now uuid s) with
        | Returns r => r
        | Throws _ => json_error 500 "" ""
        end) = ApiSuccess d ->
  exists session interview total,
    String.eqb uuid "" = false
    /\ Session_findOne uuid s = Some session
    /\ (Session.expires_at session <? now) = false
    /\ Interview_findOne_latest (Session.id session) s = Some interview
    /\ reported_total interview = Some total.
Proof.
  unfold POST_finish, catch_finish_error, validateSession, bind, query, write, ret,
    throw, updateSessionStatus, reported_total.
  destruct (String.eqb uuid "") eqn:Hu; simpl; [discriminate|].
  destruct (Session_findOne uuid s) as [session|] eqn:Hs; simpl; [|discriminate].
  destruct (Session.expires_at session <? now) eqn:Hvalid; simpl.
  { destruct (negb _); simpl; discriminate. }
  rewrite Hs. simpl.
  destruct (Interview_findOne_latest (Session.id session) s) as [interview|] eqn:Hi;
    simpl; [|discriminate].
  intros H. exists session, interview.
  destruct (negb (InterviewStatus_eqb (Interview.status interview) i_completed));
    simpl in H;
    (destruct (Interview.interview_state interview) as [st|]; simpl in H;
     [|discriminate]);
    (destruct (InterviewState.total_questions st =? 0) eqn:Hz; simpl in H;
     [destruct (Interview.question_plan interview) as [plan|]; simpl in H;
      [|discriminate]|]);
    eexists; repeat split; first [eassumption | reflexivity].
Qed.

(** After the request the session is still there and its latest interview
    is the same one, completed. *)
Lemma finished_store_latest (now : Z) (uuid : string) (s : Store)
    (session : Session.t) (interview : Interview.t) :
  Session_findOne uuid s = Some session ->
  Interview_findOne_latest (Session.id session) s = Some interview ->
  exists session' interview',
    Session_findOne uuid (finished_store now uuid interview s) = Some session'
    /\ Session.id session' = Session.id session
    /\ Session.expires_at session' = Session.expires_at session
    /\ Interview_findOne_latest (Session.id session) (finished_store now uuid interview s)
       = Some interview'
    /\ Interview.status interview' = i_completed
    /\ Interview.id interview' = Interview.id interview
    /\ Interview.started_at interview' = Interview.started_at interview
    /\ Interview.created_at interview' = Interview.created_at interview
    /\ reported_total interview' = reported_total interview.
Proof.
  intros Hs Hi. unfold finished_store.
  destruct (InterviewStatus_eqb (Interview.status interview) i_completed) eqn:Hst.
  - exists session, interview. repeat split; try assumption.
    now destruct (Interview.status interview).
  - unfold Session_findOne, Interview_findOne_latest in *. simpl.
    rewrite find_map_preserve, Hs;
      [|intros x; destruct (String.eqb (Session.uuid x) uuid) eqn:E; simpl;
        now rewrite ?E].
    rewrite filter_map_preserve, latest_map_preserve, Hi;
      [| intros x; now destruct (Interview.id x =? Interview.id interview)
       | intros x; now destruct (Interview.id x =? Interview.id interview)].
    simpl. rewrite Z.eqb_refl.
    eexists _, _. split; [reflexivity|].
    destruct (String.eqb (Session.uuid session) uuid); repeat split; reflexivity.
Qed.

(** C9. The second finish request does not return what the first returned:
    the first request on [demo_answered], ten minutes after the start,
    completes the interview and reports a duration of 10; the second
    request, fifteen minutes later, changes nothing in the store but
    reports 25. *)
Lemma finish_twice_differs :
  POST_finish 601000 "u-1" demo_answered
  = (Returns (json_success
                {| fin_interviewId := 1; fin_status := "completed";
                   duration_minutes := 10; fin_total_questions := 1;
                   fin_message :=
                     "Interview completed successfully. Summary generation available." |}),
     demo_finished)
  /\ POST_finish 1501000 "u-1" demo_finished
     = (Returns (json_success
                   {| fin_interviewId := 1; fin_status := "completed";
                      duration_minutes := 25; fin_total_questions := 1;
                      fin_message :=
                        "Interview completed successfully. Summary generation available." |}),
        demo_finished).
Proof. split; vm_compute; reflexivity. Qed.

(** X24. After a successful finish request, a second request on the
    session, still valid, changes nothing in the store and succeeds with the
    same interview id, status, total and message; the whole response is the
    same when the two requests carry the same time. *)
Theorem finish_twice (now1 now2 : Z) (uuid : string) (s : Store)
    (d1 : FinishInterviewResponse) :
  let s1 := snd (POST_finish now1 uuid s) in
  body (match fst (POST_finish now1 uuid s) with
        | Returns r => r
        | Throws _ => json_error 500 "" ""
        end) = ApiSuccess d1 ->
  (forall session, Session_findOne uuid s = Some session ->
                   now2 <= Session.expires_at session) ->
  exists d2,
    POST_finish now2 uuid s1 = (Returns (json_success d2), s1)
    /\ fin_interviewId d2 = fin_interviewId d1
    /\ fin_status d2 = fin_status d1
    /\ fin_total_questions d2 = fin_total_questions d1
    /\ fin_message d2 = fin_message d1
    /\ (now2 = now1 -> d2 = d1).
Proof.
  intros s1 Hfirst Hvalid.
  destruct (POST_finish_success now1 uuid s d1 Hfirst)
    as (session & interview & total & Hu & Hs & Hexp & Hi & Htotal).
  pose proof (POST_finish_run now1 uuid s session interview total Hu Hs Hexp Hi Htotal)
    as Hrun.
  subst s1. rewrite Hrun in Hfirst |- *. simpl in Hfirst |- *.
  inversion Hfirst. subst d1. clear Hfirst.
  destruct (finished_store_latest now1 uuid s session interview Hs Hi)
    as (session' & interview' & Hs' & Hsid & Hexp' & Hi' & Hst & Hid & Hstart & Hcreated
        & Htotal').
  assert (Hvalid' : (Session.expires_at session' <? now2) = false).
  { apply Z.ltb_ge. rewrite Hexp'. now apply Hvalid. }
  rewrite <- Hsid in Hi'. rewrite <- Htotal' in Htotal.
  rewrite (POST_finish_run now2 uuid _ session' interview' total Hu Hs' Hvalid' Hi' Htotal).
  exists (finish_response now2 interview' total). split.
  - f_equal. unfold finished_store at 1. now rewrite Hst.
  - unfold finish_response. simpl. rewrite Hid, Hstart, Hcreated.
    repeat split; try reflexivity. now intros ->.
Qed.

Lemma finish_twice_witness :
  exists d2,
    POST_finish 1501000 "u-1" (snd (POST_finish 601000 "u-1" demo_answered))
    = (Returns (json_success d2), snd (POST_finish 601000 "u-1" demo_answered))
    /\ fin_interviewId d2 = 1
    /\ fin_total_questions d2 = 1.
Proof.
  destruct (finish_twice 601000 1501000 "u-1" demo_answered
              {| fin_interviewId := 1; fin_status := "completed";
                 duration_minutes := 10; fin_total_questions := 1;
                 fin_message :=
                   "Interview completed successfully. Summary generation available." |})
    as (d2 & Hrun & Hid & _ & Htotal & _).
  - vm_compute. reflexivity.
  - intros session Hs. vm_compute in Hs. inversion Hs. simpl. lia.
  - exists d2. split; [exact Hrun|]. split; [exact Hid | exact Htotal].
Defined.


(** * Further properties of the code *)

(** ** The initial state *)

Lemma pending_entries_lookup (l : list PlannedCompetency.t)
    (m : gmap string CompetencyState.t) (k : string) :
  fold_left
    (fun (m : gmap string CompetencyState.t) comp =>
       <[PlannedCompetency.name comp := CompetencyState.mk c_pending 0 0 0%Q]> m)
    l m !! k
  = if existsb (String.eqb k) (map PlannedCompetency.name l)
    then Some (CompetencyState.mk c_pending 0 0 0%Q)
    else m !! k.
Proof.
  revert m. induction l as [|c l IH]; intros m; simpl; [reflexivity|].
  rewrite IH. destruct (existsb (String.eqb k) (map PlannedCompetency.name l));
    [now rewrite orb_true_r|].
  rewrite orb_false_r. destruct (String.eqb k (PlannedCompetency.name c)) eqn:E.
  - apply String.eqb_eq in E. subst k. apply lookup_insert_eq.
  - apply String.eqb_neq in E. apply lookup_insert_ne. congruence.
Qed.

Lemma initial_state_lookup (plan : QuestionPlan.t) (name : string) :
  InterviewState.competencies (initializeInterviewState plan) !! name
  = (if existsb (String.eqb name)
                (map PlannedCompetency.name (QuestionPlan.competencies plan))
     then Some (CompetencyState.mk
                  (if String.eqb name (first_name plan)
                      && negb (String.eqb (first_name plan) "")
                   then c_in_progress else c_pending)
                  0 0 0%Q)
     else None).
Proof.
  unfold initializeInterviewState, first_name. simpl.
  set (first := match QuestionPlan.competencies plan with
                | [] => ""
                | comp :: _ => PlannedCompetency.name comp
                end).
  destruct (String.eqb first "") eqn:Hfirst; simpl.
  - rewrite pending_entries_lookup, lookup_empty, andb_false_r. reflexivity.
  - rewrite andb_true_r. destruct (String.eqb name first) eqn:Hname.
    + apply String.eqb_eq in Hname. subst name.
      rewrite lookup_alter_eq, pending_entries_lookup, lookup_empty.
      now destruct (existsb _ _).
    + apply String.eqb_neq in Hname.
      rewrite lookup_alter_ne by congruence.
      now rewrite pending_entries_lookup, lookup_empty.
Qed.

(** X1. The state a plan starts with has one entry per competency name of the
    plan and no other; the entry of the first competency is in progress
    (unless its name is empty), the others are pending; nothing is counted
    yet; and the state counts as "every competency completed", the test of
    [processAnswer], only for the empty plan.  The names are own keys. *)
Theorem initializeInterviewState_entries (plan : QuestionPlan.t) (name : string) :
  own_key name = true ->
  Forall (fun c => own_key (PlannedCompetency.name c) = true)
         (QuestionPlan.competencies plan) ->
  let state := initializeInterviewState plan in
  let listed := existsb (String.eqb name)
                        (map PlannedCompetency.name (QuestionPlan.competencies plan)) in
  InterviewState.competencies state !! name
  = (if listed
     then Some (CompetencyState.mk
                  (if String.eqb name (first_name plan)
                      && negb (String.eqb (first_name plan) "")
                   then c_in_progress else c_pending)
                  0 0 0%Q)
     else None)
  /\ InterviewState.current_competency state = first_name plan
  /\ InterviewState.total_questions state = 0
  /\ InterviewState.estimated_remaining state
     = QuestionPlan.total_planned_questions plan
  /\ (every_completed state = true <-> QuestionPlan.competencies plan = []).
Proof.
  intros _ _.
  intros state listed. subst state listed.
  split; [apply initial_state_lookup|].
  do 3 (split; [reflexivity|]).
  split.
  - intros Hall. destruct (QuestionPlan.competencies plan) as [|c l] eqn:Hplan;
      [reflexivity|]. exfalso.
    pose proof (initial_state_lookup plan (PlannedCompetency.name c)) as Hlookup.
    rewrite Hplan in Hlookup. simpl in Hlookup. rewrite String.eqb_refl in Hlookup.
    simpl in Hlookup.
    unfold every_completed in Hall. rewrite forallb_forall in Hall.
    apply elem_of_map_to_list, list_elem_of_In, Hall in Hlookup. simpl in Hlookup.
    now destruct (_ && _).
  - intros Hplan. unfold every_completed, initializeInterviewState.
    rewrite Hplan. simpl. now rewrite map_to_list_empty.
Qed.

Lemma initializeInterviewState_entries_witness :
  InterviewState.competencies
    (initializeInterviewState (generateQuestionPlan mock_config demo_jd)) !! "Frontend"
  = Some (CompetencyState.mk c_pending 0 0 0%Q).
Proof.
  destruct (initializeInterviewState_entries (generateQuestionPlan mock_config demo_jd)
              "Frontend" eq_refl) as [Hlookup _].
  - repeat constructor.
  - exact Hlookup.
Defined.

(** ** The running mean of a competency *)

Lemma inject_Z_nonzero (z : Z) : z <> 0 -> ~ (inject_Z z == 0)%Q.
Proof. intros Hz H. unfold Qeq in H. simpl in H. lia. Qed.

Lemma record_all_invariant (scores : list Q) :
  forall c : CompetencyState.t,
    0 <= CompetencyState.questions_asked c ->
    CompetencyState.questions_asked (record_all scores c)
    = CompetencyState.questions_asked c + Z.of_nat (length scores)
    /\ (scores <> [] ->
        (CompetencyState.avg_score (record_all scores c)
         * inject_Z (CompetencyState.questions_asked (record_all scores c))
         == CompetencyState.avg_score c * inject_Z (CompetencyState.questions_asked c)
            + Qsum scores)%Q).
Proof.
  induction scores as [|x scores IH]; intros c Hc.
  - simpl. split; [lia | congruence].
  - unfold record_all in *. simpl fold_left.
    set (c1 := record_score x c).
    assert (Hq1 : CompetencyState.questions_asked c1
                  = CompetencyState.questions_asked c + 1) by reflexivity.
    assert (Ha1 : (CompetencyState.avg_score c1
                   * inject_Z (CompetencyState.questions_asked c1)
                   == CompetencyState.avg_score c
                      * inject_Z (CompetencyState.questions_asked c) + x)%Q).
    { unfold c1, record_score. simpl.
      replace (CompetencyState.questions_asked c + 1 - 1)
        with (CompetencyState.questions_asked c) by lia.
      field. apply inject_Z_nonzero. lia. }
    destruct (IH c1) as [Hq Ha]; [lia|]. split.
    + rewrite Hq, Hq1. simpl length. lia.
    + intros _. destruct scores as [|y scores'].
      * change (fold_left _ [] c1) with c1. rewrite Ha1.
        change (Qsum [x]) with (x + 0)%Q. ring.
      * rewrite Ha by discriminate. rewrite Ha1.
        change (Qsum (x :: y :: scores')) with (x + Qsum (y :: scores'))%Q. ring.
Qed.

(** X2. After the scores of [k >= 1] answers are recorded in a competency that
    had none, [questions_asked] is [k] and [avg_score] is the arithmetic
    mean of the scores. *)
Theorem avg_score_is_mean (scores : list Q) (c : CompetencyState.t) :
  CompetencyState.questions_asked c = 0 ->
  scores <> [] ->
  CompetencyState.questions_asked (record_all scores c) = Z.of_nat (length scores)
  /\ (CompetencyState.avg_score (record_all scores c)
      == Qsum scores / inject_Z (Z.of_nat (length scores)))%Q.
Proof.
  intros Hzero Hne.
  destruct (record_all_invariant scores c) as [Hq Ha]; [lia|].
  rewrite Hzero in Hq, Ha. simpl in Hq. split; [exact Hq|].
  specialize (Ha Hne). rewrite Hq in Ha.
  assert (Hk : ~ (inject_Z (Z.of_nat (length scores)) == 0)%Q).
  { apply inject_Z_nonzero. destruct scores; [congruence | simpl; lia]. }
  apply (Qmult_inj_r _ _ (inject_Z (Z.of_nat (length scores))) Hk).
  rewrite Ha. field. exact Hk.
Qed.

Lemma avg_score_is_mean_witness :
  (CompetencyState.avg_score
     (record_all [2; 3; 5 # 2] (CompetencyState.mk c_in_progress 0 0 0))
   == 5 # 2)%Q.
Proof.
  destruct (avg_score_is_mean [2%Q; 3%Q; (5 # 2)%Q]
              (CompetencyState.mk c_in_progress 0 0 0) eq_refl) as [_ Havg];
    [discriminate|].
  rewrite Havg. reflexivity.
Defined.

(** ** Mock mode *)

(** X3. In mock mode the decision depends on the length of the answer and on
    the depth only: more than 200 characters advance; up to 100 ask to
    clarify and 101 to 200 to probe, as long as the depth is below the
    maximum. *)
Theorem mock_decision (answer : string) (d maxDepth : Z) :
  let n := Z.of_nat (String.length answer) in
  let decision := determineNextAction (getMockEvaluation answer) d maxDepth in
  (200 < n -> decision = advance)
  /\ (n <= 100 -> decision = if d <? maxDepth then follow clarify else advance)
  /\ (100 < n <= 200 -> decision = if d <? maxDepth then follow probe else advance).
Proof.
  intros n decision. subst decision. unfold determineNextAction, getMockEvaluation.
  fold n. simpl.
  assert (Hge : (d >=? maxDepth) = negb (d <? maxDepth)).
  { destruct (d <? maxDepth) eqn:E; simpl; lia. }
  repeat split; intros H.
  - destruct (n >? 200) eqn:E; [reflexivity | lia].
  - destruct (n >? 200) eqn:E1; [lia|]. destruct (n >? 100) eqn:E2; [lia|].
    simpl. rewrite Hge. now destruct (d <? maxDepth).
  - destruct (n >? 200) eqn:E1; [lia|]. destruct (n >? 100) eqn:E2; [|lia].
    simpl. rewrite Hge. now destruct (d <? maxDepth).
Qed.

Lemma mock_decision_witness :
  determineNextAction (getMockEvaluation "It depends.") 0 3 = follow clarify.
Proof.
  destruct (mock_decision "It depends." 0 3) as (_ & Hshort & _).
  rewrite Hshort; [reflexivity | simpl; lia].
Defined.

(** ** Generation in mock mode *)

Lemma pick_In (l : list string) (n : Z) :
  l <> [] -> 0 <= n -> In (pick l n) l.
Proof.
  intros Hl Hn. unfold pick. apply nth_In.
  assert (Hlen : (0 < length l)%nat) by (destruct l; [congruence | simpl; lia]).
  rewrite Z.rem_mod_nonneg by lia.
  pose proof (Z.mod_pos_bound n (Z.of_nat (length l)) ltac:(lia)). lia.
Qed.

(** X4. In mock mode no generation fails and the backend is never asked: a
    question for a competency (its name an own key, the number not
    negative) is one of the fixed questions of its category, those of
    [Backend] for a name that has none, about the first three of its
    skills; a follow-up is one of the three fixed questions of its kind and keeps
    the competency. *)
Theorem mock_generation (cfg : Config) (gen : GenerateJSON) (cvData : ParsedCVData.t)
    (jdData : ParsedJDData.t) (competency : CompetencyArea.t) (n : Z)
    (previousQuestion previousAnswer reasoning name : string)
    (followUpType : FollowUpType) (depth : Z) :
  dev_mockAiServices cfg = true ->
  own_key (CompetencyArea.name competency) = true ->
  0 <= n -> 0 <= depth ->
  (exists g,
      generateQuestion cfg gen cvData jdData (Some competency) n = Returns g
      /\ In (GeneratedQuestion.question_text g)
            (default (default [] (mockQuestions "Backend"))
                     (mockQuestions (CompetencyArea.name competency)))
      /\ GeneratedQuestion.competency g = CompetencyArea.name competency
      /\ sublist (GeneratedQuestion.expected_topics g) (CompetencyArea.skills competency)
      /\ (length (GeneratedQuestion.expected_topics g) <= 3)%nat
      /\ GeneratedQuestion.expected_topics g = take 3 (CompetencyArea.skills competency))
  /\ (exists f,
         generateFollowUp cfg gen previousQuestion previousAnswer reasoning name
           followUpType depth = Returns f
         /\ In (GeneratedQuestion.question_text f)
               (match followUpType with
                | clarify => ["Could you give me a specific example of that?";
                              "Walk me through the steps you took.";
                              "What was the specific outcome?"]
                | probe => ["How would you approach it differently today?";
                            "What were the trade-offs you considered?";
                            "How did you measure success?"]
                end)
         /\ GeneratedQuestion.competency f = name
         /\ GeneratedQuestion.follow_up_type f = Some followUpType).
Proof.
  intros Hmock _ Hn Hdepth. split.
  - unfold generateQuestion. rewrite Hmock. eexists. split; [reflexivity|].
    unfold getMockQuestion.
    cbn [GeneratedQuestion.question_text GeneratedQuestion.competency
         GeneratedQuestion.expected_topics].
    split; [|split; [reflexivity|split; [apply sublist_take|]]].
    + destruct (mockQuestions (CompetencyArea.name competency)) as [l|] eqn:Hl;
        cbn [default].
      * apply pick_In; [|exact Hn]. unfold mockQuestions in Hl.
        repeat (destruct (String.eqb _ _) in Hl; [inversion Hl; discriminate|]).
        discriminate.
      * apply pick_In; [discriminate | exact Hn].
    + split; [rewrite length_take; lia | reflexivity].
  - unfold generateFollowUp. rewrite Hmock. eexists. split; [reflexivity|].
    unfold getMockFollowUp.
    cbn [GeneratedQuestion.question_text GeneratedQuestion.competency
         GeneratedQuestion.follow_up_type].
    split; [|split; reflexivity].
    destruct followUpType; (apply pick_In; [discriminate | exact Hdepth]).
Qed.

Lemma mock_generation_witness :
  exists g,
    generateQuestion mock_config no_backend (ParsedCVData.mk "mid" 4) demo_jd
      (Some (CompetencyArea.mk "Security" (1 # 5) ["tls"; "oauth"; "csp"; "xss"])) 3
    = Returns g
    /\ GeneratedQuestion.question_text g = "How do you design APIs for scalability?".
Proof.
  destruct (mock_generation mock_config no_backend (ParsedCVData.mk "mid" 4) demo_jd
              (CompetencyArea.mk "Security" (1 # 5) ["tls"; "oauth"; "csp"; "xss"]) 3
              "" "" "" "Security" clarify 1 eq_refl eq_refl) as [(g & Hg & _) _];
    [lia | lia |].
  exists g. split; [exact Hg|]. vm_compute in Hg. inversion Hg. reflexivity.
Defined.

(** ** The retry loop of the gateway *)

Section GatewayRetries.

Import Gateway.

Variable cfg : Config.
Variable backend : Backend.

Lemma backoff_shift (attempt : Z) (k : nat) :
  2 ^ attempt * 1000 :: map (fun i => 2 ^ (attempt + 1 + Z.of_nat i) * 1000) (seq 0 k)
  = map (fun i => 2 ^ (attempt + Z.of_nat i) * 1000) (seq 0 (S k)).
Proof.
  simpl. rewrite Z.add_0_r. f_equal.
  rewrite <- seq_shift, map_map. apply map_ext. intros i.
  do 2 f_equal. lia.
Qed.

Lemma attemptCompletion_success (prompt : string) (w : World) (r : string) :
  fst (attemptCompletion backend prompt w) = Returns r ->
  attemptCompletion backend prompt w
  = (Returns r, {| requests := S (requests w); sleeps := sleeps w |})
  /\ exists status statusText,
      backend prompt (requests w) = FetchResponds true status statusText (BodyJson r).
Proof.
  unfold attemptCompletion.
  destruct (backend prompt (requests w)) as [e'|[] status text [r'|e']];
    simpl; intros H; inversion H; subst. split; [reflexivity | eauto].
Qed.

Lemma attemptCompletion_failure (prompt : string) (w : World) (e : JS.Error) :
  fst (attemptCompletion backend prompt w) = Throws e ->
  attempt_error (backend prompt (requests w)) = Some e.
Proof.
  unfold attemptCompletion, attempt_error.
  destruct (backend prompt (requests w)) as [e'|[] status text [r'|e']];
    simpl; intros H; inversion H; subst; reflexivity.
Qed.

Lemma completionLoop_retries (prompt r : string) :
  forall (k fuel : nat) (attempt : Z) (lastError : option JS.Error) (w : World),
    (k < fuel)%nat ->
    attempt + Z.of_nat k < ollama_maxRetries cfg ->
    (forall i, (i < k)%nat ->
               attempt_error (backend prompt (requests w + i)%nat) <> None) ->
    (exists status statusText,
        backend prompt (requests w + k)%nat
        = FetchResponds true status statusText (BodyJson r)) ->
    completionLoop cfg backend fuel prompt attempt lastError w
    = (Returns r,
       {| requests := (requests w + k + 1)%nat;
          sleeps := sleeps w
                    ++ map (fun i => 2 ^ (attempt + Z.of_nat i) * 1000) (seq 0 k) |}).
Proof.
  induction k as [|k IH]; intros fuel attempt lastError w Hfuel Hmax Hfail Hok;
    (destruct fuel as [|fuel]; [lia|]); simpl completionLoop.
  - destruct Hok as (status & text & Hok). rewrite Nat.add_0_r in Hok.
    unfold attemptCompletion. rewrite Hok. simpl. rewrite app_nil_r.
    do 2 f_equal. lia.
  - destruct (attempt_error (backend prompt (requests w))) as [e|] eqn:He.
    2:{ exfalso. apply (Hfail 0%nat); [lia|]. now rewrite Nat.add_0_r. }
    rewrite (attemptCompletion_error _ _ _ _ He).
    assert (Hlt : (attempt <? ollama_maxRetries cfg - 1) = true) by lia.
    rewrite Hlt. rewrite IH.
    + simpl requests. simpl sleeps. f_equal. f_equal; [lia|].
      rewrite <- app_assoc. simpl app. now rewrite backoff_shift.
    + lia.
    + lia.
    + intros i Hi. simpl. replace (S (requests w + i)%nat) with (requests w + S i)%nat by lia.
      apply Hfail. lia.
    + simpl. replace (S (requests w + k)) with (requests w + S k)%nat by lia.
      exact Hok.
Qed.

Lemma completionLoop_schedule (prompt : string) :
  forall (fuel : nat) (attempt : Z) (lastError : option JS.Error) (w : World),
    attempt + Z.of_nat fuel = ollama_maxRetries cfg ->
    let result := completionLoop cfg backend fuel prompt attempt lastError w in
    exists j,
      (j <= fuel)%nat /\ ((0 < fuel)%nat -> (0 < j)%nat)
      /\ requests (snd result) = (requests w + j)%nat
      /\ sleeps (snd result)
         = sleeps w ++ map (fun i => 2 ^ (attempt + Z.of_nat i) * 1000) (seq 0 (j - 1))
      /\ match fst result with
         | Returns r =>
             exists status statusText,
               backend prompt (requests w + (j - 1))%nat
               = FetchResponds true status statusText (BodyJson r)
         | Throws e =>
             j = fuel
             /\ e = completion_failure cfg
                      (JS.optional_message
                         (match fuel with
                          | O => lastError
                          | S _ => attempt_error (backend prompt (requests w + (j - 1))%nat)
                          end))
         end.
Proof.
  induction fuel as [|fuel IH]; intros attempt lastError w Hmax; simpl.
  - exists 0%nat. simpl. rewrite app_nil_r. repeat split; lia.
  - destruct (attemptCompletion backend prompt w) as [[r|e] w'] eqn:Hattempt.
    + destruct (attemptCompletion_success prompt w r) as [Heq (status & text & Hb)];
        [now rewrite Hattempt|].
      rewrite Hattempt in Heq. inversion Heq; subst w'.
      exists 1%nat. simpl. rewrite app_nil_r, Nat.add_0_r.
      repeat split; try lia. eauto.
    + pose proof (attemptCompletion_failure prompt w e) as He.
      rewrite Hattempt in He. specialize (He eq_refl).
      rewrite (attemptCompletion_error _ _ _ _ He) in Hattempt.
      inversion Hattempt; subst w'. clear Hattempt.
      destruct (attempt <? ollama_maxRetries cfg - 1) eqn:Hlt.
      * destruct (IH (attempt + 1) (Some e)
                    (sleep (2 ^ attempt * 1000)
                       {| requests := S (requests w); sleeps := sleeps w |}))
          as (j & Hj & Hpos & Hreq & Hsleeps & Hres); [lia|].
        specialize (Hpos ltac:(lia)).
        exists (S j). cbn [requests sleeps sleep] in Hreq, Hsleeps, Hres.
        split; [lia|]. split; [lia|]. split; [rewrite Hreq; lia|].
        split.
        { rewrite Hsleeps. rewrite <- app_assoc. cbn [app].
          replace (S j - 1)%nat with (S (j - 1)) by lia.
          now rewrite backoff_shift. }
        replace (requests w + (S j - 1))%nat with (S (requests w + (j - 1)))%nat by lia.
        destruct (fst (completionLoop _ _ _ _ _ _ _)) as [r|e'].
        -- exact Hres.
        -- destruct fuel as [|fuel']; [lia|].
           destruct Hres as [-> ->]. split; reflexivity.
      * destruct fuel as [|fuel']; [|lia].
        simpl. exists 1%nat. simpl. rewrite app_nil_r, Nat.add_0_r.
        repeat split; try lia. now rewrite He.
Qed.

(** X5. When the first [k] requests fail and the next one answers, for a [k]
    below the configured number of attempts, [generateCompletion] returns
    that answer after [k + 1] requests and has waited 1000, 2000, ...,
    [2^(k-1) * 1000] milliseconds between them. *)
Theorem generateCompletion_retries (prompt r : string) (k : nat) (w : World) :
  Z.of_nat k < ollama_maxRetries cfg ->
  (forall i, (i < k)%nat -> attempt_error (backend prompt (requests w + i)%nat) <> None) ->
  (exists status statusText,
      backend prompt (requests w + k)%nat
      = FetchResponds true status statusText (BodyJson r)) ->
  generateCompletion cfg backend prompt w
  = (Returns r, {| requests := (requests w + k + 1)%nat; sleeps := sleeps w ++ backoff k |}).
Proof.
  intros Hk Hfail Hok. unfold generateCompletion.
  rewrite (completionLoop_retries prompt r k); [reflexivity | lia | lia | | ]; assumption.
Qed.

(** X6. Whatever the backend does, [generateCompletion] sends [j] requests for
    some [j] up to the configured number of attempts, and the delays it
    has waited are exactly the first [j - 1] back-offs; what it returns is
    the answer to its last request, and it throws only after all the
    attempts, quoting the error of the last one. *)
Theorem generateCompletion_schedule (prompt : string) (w : World) :
  let n := Z.to_nat (ollama_maxRetries cfg) in
  let result := generateCompletion cfg backend prompt w in
  exists j,
    (j <= n)%nat
    /\ requests (snd result) = (requests w + j)%nat
    /\ sleeps (snd result) = sleeps w ++ backoff (j - 1)
    /\ match fst result with
       | Returns r =>
           (0 < j)%nat
           /\ exists status statusText,
               backend prompt (requests w + (j - 1))%nat
               = FetchResponds true status statusText (BodyJson r)
       | Throws e =>
           j = n
           /\ e = completion_failure cfg
                    (JS.optional_message
                       (match n with
                        | O => None
                        | S _ => attempt_error (backend prompt (requests w + (n - 1))%nat)
                        end))
       end.
Proof.
  intros n result. subst result. unfold generateCompletion. fold n.
  destruct (Z_le_gt_dec (ollama_maxRetries cfg) 0) as [Hzero|Hpos].
  - assert (Hn : n = 0%nat) by (unfold n; lia). rewrite Hn. simpl.
    exists 0%nat. simpl. rewrite app_nil_r. repeat split; lia.
  - destruct (completionLoop_schedule prompt n 0 None w)
      as (j & Hj & Hjpos & Hreq & Hsleeps & Hres); [unfold n; lia|].
    exists j. split; [exact Hj|]. split; [exact Hreq|]. split; [exact Hsleeps|].
    destruct (fst (completionLoop _ _ _ _ _ _ _)) as [r|e].
    + split; [apply Hjpos; unfold n; lia | exact Hres].
    + destruct Hres as [-> ->]. split; reflexivity.
Qed.

End GatewayRetries.

Lemma generateCompletion_retries_witness :
  Gateway.generateCompletion default_config
    (fun _ n => match n with
                | 2%nat => Gateway.FetchResponds true 200 "OK" (Gateway.BodyJson "{}")
                | _ => Gateway.FetchRejects (JS.mkError "TypeError" "fetch failed")
                end)
    "prompt" {| Gateway.requests := 0; Gateway.sleeps := [] |}
  = (Returns "{}", {| Gateway.requests := 3; Gateway.sleeps := [1000; 2000] |}).
Proof.
  apply (generateCompletion_retries default_config _ "prompt" "{}" 2
           {| Gateway.requests := 0; Gateway.sleeps := [] |}).
  - simpl. lia.
  - intros [|[|i]] Hi; simpl; [discriminate | discriminate | lia].
  - simpl. eauto.
Defined.

Section GatewayJSON.

Import Gateway.

Variable cfg : Config.
Variable backend : Backend.
Variable T : Type.
Variable JSON_parse : string -> outcome T.

Lemma completionLoop_requests (prompt : string) :
  forall (fuel : nat) (attempt : Z) (lastError : option JS.Error) (w : World),
    (requests w
     <= requests (snd (completionLoop cfg backend fuel prompt attempt lastError w))
     <= requests w + fuel)%nat.
Proof.
  induction fuel as [|fuel IH]; intros attempt lastError w; simpl; [lia|].
  pose proof (attemptCompletion_requests backend prompt w) as Hreq.
  destruct (attemptCompletion backend prompt w) as [[r|e] w']; simpl in *; [lia|].
  match goal with
  | |- context [completionLoop _ _ _ _ _ _ ?w0] =>
      specialize (IH (attempt + 1) (Some e) w0);
      assert (Hw0 : requests w0 = requests w') by (now destruct (_ <? _))
  end.
  lia.
Qed.

Lemma jsonLoop_requests (prompt : string) :
  forall (fuel : nat) (lastError : option JS.Error) (w : World),
    (requests w
     <= requests (snd (jsonLoop cfg backend T JSON_parse fuel prompt lastError w))
     <= requests w + fuel * Z.to_nat (ollama_maxRetries cfg))%nat.
Proof.
  induction fuel as [|fuel IH]; intros lastError w; simpl; [lia|].
  pose proof (completionLoop_requests prompt (Z.to_nat (ollama_maxRetries cfg))
                0 None w) as Hreq.
  unfold generateCompletion.
  destruct (completionLoop _ _ _ _ _ _ _) as [[response|e] w']; simpl in Hreq.
  - destruct (JSON_parse response) as [parsed|e]; simpl; [lia|].
    specialize (IH (Some e) w'). lia.
  - specialize (IH (Some e) w'). lia.
Qed.

Lemma jsonLoop_reparse (prompt : string) (v : T) :
  1 <= ollama_maxRetries cfg ->
  forall (k fuel : nat) (lastError : option JS.Error) (w : World),
    (k < fuel)%nat ->
    (forall i, (i < k)%nat -> malformed backend JSON_parse prompt (requests w + i)%nat) ->
    (exists status statusText response,
        backend prompt (requests w + k)%nat
        = FetchResponds true status statusText (BodyJson response)
        /\ JSON_parse response = Returns v) ->
    jsonLoop cfg backend T JSON_parse fuel prompt lastError w
    = (Returns v, {| requests := (requests w + k + 1)%nat; sleeps := sleeps w |}).
Proof.
  intros Hretries.
  induction k as [|k IH]; intros fuel lastError w Hfuel Hbad Hok;
    (destruct fuel as [|fuel]; [lia|]); simpl jsonLoop.
  - destruct Hok as (status & text & response & Hb & Hparse).
    rewrite Nat.add_0_r in Hb.
    rewrite (generateCompletion_first cfg backend prompt w status text response Hretries Hb).
    rewrite Hparse. do 2 f_equal. lia.
  - destruct (Hbad 0%nat) as (status & text & response & e & Hb & Hparse); [lia|].
    rewrite Nat.add_0_r in Hb.
    rewrite (generateCompletion_first cfg backend prompt w status text response Hretries Hb).
    rewrite Hparse. rewrite IH; [| lia | |].
    + simpl. do 2 f_equal. lia.
    + intros i Hi. simpl.
      replace (S (requests w + i)) with (requests w + S i)%nat by lia.
      apply Hbad. lia.
    + simpl. replace (S (requests w + k)) with (requests w + S k)%nat by lia.
      exact Hok.
Qed.

(** X7. [generateJSON] never sends more than three times the configured number
    of requests, whatever the backend does; with a number of attempts that
    is not positive it sends none and throws. *)
Theorem generateJSON_request_bound (prompt : string) (w : World) :
  let n := Z.to_nat (ollama_maxRetries cfg) in
  (requests w
   <= requests (snd (generateJSON cfg backend T JSON_parse prompt w))
   <= requests w + 3 * n)%nat
  /\ (n = 0%nat ->
      generateJSON cfg backend T JSON_parse prompt w
      = (Throws (json_failure (JS.message (completion_failure cfg "undefined"))), w)).
Proof.
  intros n. split.
  - unfold generateJSON. apply jsonLoop_requests.
  - intros Hn. unfold generateJSON, jsonLoop, generateCompletion. fold n.
    rewrite Hn. reflexivity.
Qed.

(** X8. A payload that does not parse costs one more generation, without any
    delay: when the first [k < 3] payloads do not parse and the next one
    parses to [v], [generateJSON] returns [v] after [k + 1] requests. *)
Theorem generateJSON_reparses (prompt : string) (v : T) (k : nat) (w : World) :
  1 <= ollama_maxRetries cfg ->
  (k < 3)%nat ->
  (forall i, (i < k)%nat -> malformed backend JSON_parse prompt (requests w + i)%nat) ->
  (exists status statusText response,
      backend prompt (requests w + k)%nat
      = FetchResponds true status statusText (BodyJson response)
      /\ JSON_parse response = Returns v) ->
  generateJSON cfg backend T JSON_parse prompt w
  = (Returns v, {| requests := (requests w + k + 1)%nat; sleeps := sleeps w |}).
Proof.
  intros Hretries Hk Hbad Hok. unfold generateJSON.
  now apply jsonLoop_reparse.
Qed.

End GatewayJSON.

Lemma generateJSON_reparses_witness :
  Gateway.generateJSON default_config
    (fun _ n => Gateway.FetchResponds true 200 "OK"
                  (Gateway.BodyJson (match n with 2%nat => "{}" | _ => "{" end)))
    unit parse_empty_object "prompt" {| Gateway.requests := 0; Gateway.sleeps := [] |}
  = (Returns tt, {| Gateway.requests := 3; Gateway.sleeps := [] |}).
Proof.
  apply (generateJSON_reparses default_config _ unit parse_empty_object "prompt" tt 2
           {| Gateway.requests := 0; Gateway.sleeps := [] |}).
  - simpl. lia.
  - lia.
  - intros [|[|i]] Hi; [| | lia];
      (exists 200, "OK", "{", (JS.mkError "SyntaxError" "Unexpected end of JSON input");
       split; reflexivity).
  - exists 200, "OK", "{}". split; reflexivity.
Defined.

(** ** The health check of the backend *)

Section Health.

Import OllamaHealth.

Lemma append_assoc (a b c : string) : (a +:+ b) +:+ c = a +:+ (b +:+ c).
Proof.
  induction a as [|x a IH]; [reflexivity|].
  change (String x ((a +:+ b) +:+ c) = String x (a +:+ (b +:+ c))). now rewrite IH.
Qed.

Lemma prefix_app (a b : string) : String.prefix a (a +:+ b) = true.
Proof.
  induction a as [|c a IH]; simpl.
  - now destruct b.
  - destruct (ascii_dec c c) as [_|Hne]; [exact IH | congruence].
Qed.

(** X9. The two required models are split, in their order, into those the
    server lists and those it does not; [allPresent] holds exactly when
    none is missing; and when the server cannot be asked (no connection,
    an error status, a body that is not JSON) both are missing. *)
Theorem checkRequiredModels_partition (modelLight modelHeavy : string)
    (tags : TagsOutcome) :
  let result := checkRequiredModels modelLight modelHeavy tags in
  let listed := hasModel (models (checkOllamaHealth tags)) in
  present result = List.filter listed [modelLight; modelHeavy]
  /\ missing result = List.filter (fun m => negb (listed m)) [modelLight; modelHeavy]
  /\ (allPresent result = true <-> missing result = [])
  /\ (healthy (checkOllamaHealth tags) = false ->
      missing result = [modelLight; modelHeavy]).
Proof.
  intros result listed. subst result listed. unfold checkRequiredModels.
  destruct (healthy (checkOllamaHealth tags)) eqn:Hhealthy; simpl.
  - destruct (hasModel _ modelLight), (hasModel _ modelHeavy); simpl;
      repeat split; try reflexivity; try discriminate.
  - assert (Hmodels : models (checkOllamaHealth tags) = []).
    { revert Hhealthy. unfold checkOllamaHealth.
      destruct tags as [e|[] status [m|e]]; simpl; intros H;
        try reflexivity; discriminate. }
    rewrite Hmodels. simpl. repeat split; try reflexivity; discriminate.
Qed.

(** X10. A required model counts as present as soon as the server lists any tag
    of its base name: the tag that is required is not compared. *)
Theorem checkRequiredModels_any_tag (modelLight modelHeavy tagLight tagHeavy : string)
    (listed : list string) (status : Z) :
  In (JSString.before_colon modelLight +:+ ":" +:+ tagLight) listed ->
  In (JSString.before_colon modelHeavy +:+ ":" +:+ tagHeavy) listed ->
  checkRequiredModels modelLight modelHeavy
    (TagsResponds true status (TagsJson (Some listed)))
  = {| allPresent := true; missing := []; present := [modelLight; modelHeavy] |}.
Proof.
  intros Hlight Hheavy.
  assert (Hhas : forall model tag,
             In (JSString.before_colon model +:+ ":" +:+ tag) listed ->
             hasModel listed model = true).
  { intros model tag Hin. unfold hasModel. apply existsb_exists.
    eexists. split; [exact Hin|]. apply orb_true_iff. right.
    unfold JSString.startsWith.
    rewrite <- append_assoc. apply prefix_app. }
  unfold checkRequiredModels. simpl.
  now rewrite (Hhas _ _ Hlight), (Hhas _ _ Hheavy).
Qed.

End Health.

Lemma checkRequiredModels_any_tag_witness :
  OllamaHealth.checkRequiredModels "llama3:8b" "llama3:70b"
    (OllamaHealth.TagsResponds true 200 (OllamaHealth.TagsJson (Some ["llama3:1b"])))
  = {| OllamaHealth.allPresent := true; OllamaHealth.missing := [];
       OllamaHealth.present := ["llama3:8b"; "llama3:70b"] |}.
Proof.
  apply (checkRequiredModels_any_tag "llama3:8b" "llama3:70b" "1b" "1b" ["llama3:1b"] 200);
    simpl; now left.
Defined.

(** ** Normalised weights *)





(** ** Sessions *)

Lemma Session_update_found (uuid : string) (s : Store) (session : Session.t)
    (status : SessionStatus) :
  Session_findOne uuid s = Some session ->
  Session_findOne uuid (Session_update (Session.id session) status s)
  = Some (Session.mk (Session.id session) (Session.uuid session) status
            (Session.expires_at session)).
Proof.
  unfold Session_findOne, Session_update. simpl. intros Hfind.
  rewrite find_map_preserve.
  - rewrite Hfind. simpl. now rewrite Z.eqb_refl.
  - intros x. now destruct (Session.id x =? Session.id session).
Qed.

Lemma validateSession_cases (now : Z) (uuid : string) (s : Store) :
  validateSession now uuid s
  = match Session_findOne uuid s with
    | None => (Returns None, s)
    | Some session =>
        if Session.expires_at session <? now then
          (Returns None,
           if SessionStatus_eqb (Session.status session) s_expired then s
           else Session_update (Session.id session) s_expired s)
        else (Returns (Some session), s)
    end.
Proof.
  unfold validateSession, bind, query, ret, write.
  destruct (Session_findOne uuid s) as [session|]; simpl; [|reflexivity].
  destruct (Session.expires_at session <? now); [|reflexivity].
  now destruct (SessionStatus_eqb (Session.status session) s_expired).
Qed.

Lemma Session_update_keeps (id : Z) (status : SessionStatus) (s : Store) :
  map (fun x => (Session.id x, Session.uuid x, Session.expires_at x))
    (sessions (Session_update id status s))
  = map (fun x => (Session.id x, Session.uuid x, Session.expires_at x)) (sessions s).
Proof.
  unfold Session_update. simpl. rewrite map_map. apply map_ext.
  intros x. now destruct (Session.id x =? id).
Qed.

(** What [validateSession] gives and writes. *)
Lemma validateSession_writes (now : Z) (uuid : string) (s : Store) :
  let result := validateSession now uuid s in
  let s' := snd result in
  (forall session,
      fst result = Returns (Some session)
      <-> Session_findOne uuid s = Some session /\ now <= Session.expires_at session)
  /\ (fst result = Returns None \/ s' = s)
  /\ (forall session,
         Session_findOne uuid s = Some session ->
         Session.expires_at session < now ->
         fst result = Returns None
         /\ Session_findOne uuid s'
            = Some (Session.mk (Session.id session) (Session.uuid session) s_expired
                      (Session.expires_at session))
         /\ fst (getSession now uuid s)
            = Returns (Some {| info_session := session; isExpired := true |}))
  /\ mkStore (sessions s) (cvs s') (jds s') (interviews s') (questions s') (answers s')
             (summaries s') (next_interview_id s') (next_question_id s')
             (next_answer_id s') = s
  /\ map (fun x => (Session.id x, Session.uuid x, Session.expires_at x)) (sessions s')
     = map (fun x => (Session.id x, Session.uuid x, Session.expires_at x)) (sessions s)
  /\ validateSession now uuid s' = (fst result, s').
Proof.
  intros result s'. subst result s'.
  rewrite (validateSession_cases now uuid s).
  unfold getSession, bind, query, ret.
  destruct (Session_findOne uuid s) as [session|] eqn:Hfind; simpl.
  2:{ rewrite validateSession_cases, Hfind.
      split; [intros x; split; [discriminate | intros [H _]; discriminate]|].
      split; [now left|]. split; [discriminate|].
      split; [now destruct s|]. split; reflexivity. }
  destruct (Session.expires_at session <? now) eqn:Hexp; simpl.
  - split; [intros x; split; [discriminate | intros [H Hle]; inversion H; subst; lia]|].
    split; [now left|].
    destruct (SessionStatus_eqb (Session.status session) s_expired) eqn:Hstatus.
    + split.
      { intros x Hx Hlt. inversion Hx; subst x. split; [reflexivity|].
        split; [|reflexivity]. rewrite Hfind. f_equal.
        destruct session as [i u st e]. simpl in *.
        destruct st; try discriminate. reflexivity. }
      split; [now destruct s|]. split; [reflexivity|].
      now rewrite validateSession_cases, Hfind, Hexp, Hstatus.
    + pose proof (Session_update_found uuid s session s_expired Hfind) as Hfound.
      split.
      { intros x Hx Hlt. inversion Hx; subst x. split; [reflexivity|].
        split; [exact Hfound | reflexivity]. }
      split; [now destruct s|]. split; [apply Session_update_keeps|].
      rewrite validateSession_cases, Hfound. simpl. now rewrite Hexp.
  - split; [intros x; split; [intros H; inversion H; subst; split; [reflexivity | lia]
                             | intros [H _]; inversion H; reflexivity]|].
    split; [now right|]. split; [intros x Hx Hlt; inversion Hx; subst; lia|].
    split; [now destruct s|]. split; [reflexivity|].
    now rewrite validateSession_cases, Hfind, Hexp.
Qed.

(** X13. [validateSession] never throws and gives the session exactly when the
    row exists and its expiry is not before [now]; then nothing is
    written.  Otherwise the only thing it may write is the status
    [expired] of the expired row, whatever the status was; a second call
    changes nothing more; and [getSession] reports as expired exactly the
    sessions [validateSession] refuses. *)
Theorem validateSession_expiry (now : Z) (uuid : string) (s : Store) :
  let result := validateSession now uuid s in
  let s' := snd result in
  (exists o, fst result = Returns o)
  /\ (forall session,
         fst result = Returns (Some session)
         <-> Session_findOne uuid s = Some session /\ now <= Session.expires_at session)
  /\ (fst result = Returns None \/ s' = s)
  /\ (forall session,
         Session_findOne uuid s = Some session ->
         Session.expires_at session < now ->
         fst result = Returns None
         /\ Session_findOne uuid s'
            = Some (Session.mk (Session.id session) (Session.uuid session) s_expired
                      (Session.expires_at session))
         /\ fst (getSession now uuid s)
            = Returns (Some {| info_session := session; isExpired := true |}))
  /\ mkStore (sessions s) (cvs s') (jds s') (interviews s') (questions s') (answers s')
             (summaries s') (next_interview_id s') (next_question_id s')
             (next_answer_id s') = s
  /\ map (fun x => (Session.id x, Session.uuid x, Session.expires_at x)) (sessions s')
     = map (fun x => (Session.id x, Session.uuid x, Session.expires_at x)) (sessions s)
  /\ validateSession now uuid s' = (fst result, s').
Proof.
  intros result s'. split; [|exact (validateSession_writes now uuid s)].
  subst result. rewrite validateSession_cases.
  destruct (Session_findOne uuid s) as [session|]; [|now eexists].
  destruct (Session.expires_at session <? now); now eexists.
Qed.

(** ** Answers *)

Ltac answer_leaf :=
  repeat split; try reflexivity; intros; try discriminate; try congruence;
  try (match goal with
       | H : Returns _ = Returns _ |- _ => inversion H; split; reflexivity
       end).

Section Answers.

Variable cfg : Config.
Variable gen : GenerateJSON.

(** What [processAnswer] does once the evaluation has succeeded. *)
Lemma processAnswer_after_evaluation (now : Z) (uuid : string) (qid : Z)
    (text : string) (rt : option Z) (s : Store) (session : Session.t)
    (interview : Interview.t) (q : Question.t) (ev : EvaluationResult.t) :
  Session_findOne uuid s = Some session ->
  Interview_findOne_in_progress (Session.id session) s = Some interview ->
  Question_findByPk qid s = Some q ->
  Question.interview_id q = Interview.id interview ->
  is_Some (CV_findOne (Session.id session) s ≫= CV.parsed_data) ->
  is_Some (JobDescription_findOne (Session.id session) s ≫= JobDescription.parsed_data) ->
  evaluateResponse cfg gen (Question.question_text q) text (Question.competency q) []
  = Returns ev ->
  let r := processAnswer cfg gen now uuid qid text rt s in
  answers (snd r) = answers (answer_recorded qid text rt ev s)
  /\ next_answer_id (snd r) = next_answer_id s + 1
  /\ cvs (snd r) = cvs s /\ jds (snd r) = jds s /\ summaries (snd r) = summaries s
  /\ (forall res, fst r = Returns res ->
                  evaluation res = evaluation_of ev
                  /\ isComplete res = negb (bool_decide (is_Some (nextQuestion res))))
  /\ (forall e, fst r = Throws e ->
                Interview.question_plan interview <> None ->
                snd r = answer_recorded qid text rt ev s).
Proof.
  intros Hs Hi Hq Hqi [cvData Hcv] [jdData Hjd] Hev r. subst r.
  unfold processAnswer, bind, query, orThrow, await, insert_row, write, ret, throw,
    continue_result, updateSessionStatus.
  rewrite Hs. simpl. rewrite Hi. simpl. rewrite Hq. simpl.
  apply Z.eqb_eq in Hqi. rewrite Hqi. simpl. rewrite Hcv, Hjd. simpl.
  rewrite Hev. simpl. rewrite (evaluateResponse_quality _ _ _ _ _ _ _ Hev). simpl.
  unfold answer_recorded, evaluation_of. simpl.
  repeat (case_match_eq; simpl); answer_leaf.
Qed.

Lemma processAnswer_before_evaluation (now : Z) (uuid : string) (qid : Z)
    (text : string) (rt : option Z) (s : Store) :
  let r := processAnswer cfg gen now uuid qid text rt s in
  (exists e, r = (Throws e, s))
  \/ exists session interview q ev,
      Session_findOne uuid s = Some session
      /\ Interview_findOne_in_progress (Session.id session) s = Some interview
      /\ Question_findByPk qid s = Some q
      /\ Question.interview_id q = Interview.id interview
      /\ is_Some (CV_findOne (Session.id session) s ≫= CV.parsed_data)
      /\ is_Some (JobDescription_findOne (Session.id session) s
                    ≫= JobDescription.parsed_data)
      /\ evaluateResponse cfg gen (Question.question_text q) text
           (Question.competency q) [] = Returns ev.
Proof.
  intros r. subst r.
  unfold processAnswer, bind, query, orThrow, await, throw, ret.
  destruct (Session_findOne uuid s) as [session|] eqn:Hs; simpl; [|left; eauto].
  destruct (Interview_findOne_in_progress (Session.id session) s) as [iv|] eqn:Hi;
    simpl; [|left; eauto].
  destruct (Question_findByPk qid s) as [q|] eqn:Hq; simpl; [|left; eauto].
  destruct (Question.interview_id q =? Interview.id iv) eqn:Hqi; simpl; [|left; eauto].
  apply Z.eqb_eq in Hqi.
  destruct (CV_findOne _ s ≫= CV.parsed_data) as [cvData|] eqn:Hcv; simpl;
    [|left; eauto].
  destruct (JobDescription_findOne _ s ≫= JobDescription.parsed_data) as [jdData|] eqn:Hjd;
    simpl; [|left; eauto].
  destruct (evaluateResponse _ _ _ _ _ _) as [ev|e] eqn:Hev; simpl; [|left; eauto].
  right. exists session, iv, q, ev. repeat split; eauto.
Qed.

(** X14. Once the session, the interview in progress, the question and the
    parsed documents are found: a failed evaluation is passed on and
    nothing is written; after a successful one the answer is stored,
    with a quality score from 1 to 5, whatever happens next.  A returned
    result carries the stored evaluation; and when the call throws after
    the evaluation (the next question could not be generated), the stored
    answer is the only change, for an interview that has a plan. *)
Theorem processAnswer_records_answer (now : Z) (uuid : string) (qid : Z)
    (text : string) (rt : option Z) (s : Store) (session : Session.t)
    (interview : Interview.t) (q : Question.t) :
  Session_findOne uuid s = Some session ->
  Interview_findOne_in_progress (Session.id session) s = Some interview ->
  Question_findByPk qid s = Some q ->
  Question.interview_id q = Interview.id interview ->
  is_Some (CV_findOne (Session.id session) s ≫= CV.parsed_data) ->
  is_Some (JobDescription_findOne (Session.id session) s ≫= JobDescription.parsed_data) ->
  let r := processAnswer cfg gen now uuid qid text rt s in
  match evaluateResponse cfg gen (Question.question_text q) text
          (Question.competency q) [] with
  | Throws e => r = (Throws e, s)
  | Returns ev =>
      answers (snd r)
      = answers s
        ++ [Answer.mk (next_answer_id s) qid text
              (match rt with Some 0 => None | t => t end) (evaluation_of ev)
              (JS.Math_round (EvaluationResult.overall_score ev))]
      /\ 1 <= JS.Math_round (EvaluationResult.overall_score ev) <= 5
      /\ next_answer_id (snd r) = next_answer_id s + 1
      /\ (forall res, fst r = Returns res -> evaluation res = evaluation_of ev)
      /\ (forall e, fst r = Throws e ->
                    Interview.question_plan interview <> None ->
                    snd r = answer_recorded qid text rt ev s)
  end.
Proof.
  intros Hs Hi Hq Hqi Hcv Hjd r.
  destruct (evaluateResponse _ _ _ _ _ _) as [ev|e] eqn:Hev.
  - destruct (processAnswer_after_evaluation now uuid qid text rt s session interview
                q ev Hs Hi Hq Hqi Hcv Hjd Hev)
      as (Hanswers & Hnext & _ & _ & _ & Hres & Hthrow).
    fold r in Hanswers, Hnext, Hres, Hthrow.
    split; [exact Hanswers|]. split.
    { pose proof (evaluateResponse_quality _ _ _ _ _ _ _ Hev) as Hvalid.
      unfold Answer_valid in Hvalid. lia. }
    split; [exact Hnext|]. split; [|assumption].
    intros res Hr. now apply Hres.
  - subst r. destruct Hcv as [cvData Hcv]. destruct Hjd as [jdData Hjd].
    unfold processAnswer, bind, query, orThrow, await, throw, ret.
    rewrite Hs. simpl. rewrite Hi. simpl. rewrite Hq. simpl.
    apply Z.eqb_eq in Hqi. rewrite Hqi. simpl. rewrite Hcv, Hjd. simpl.
    now rewrite Hev.
Qed.

(** X15. Whatever its arguments, [processAnswer] never touches the CVs, the job
    descriptions or the summaries, and it stores at most one answer: either
    it throws and leaves the store as it is, or the answers gain exactly
    one row, for the question that was named, with a quality score from 1
    to 5; every returned result is of the second kind and carries the
    evaluation of that row. *)
Theorem processAnswer_frame (now : Z) (uuid : string) (qid : Z)
    (text : string) (rt : option Z) (s : Store) :
  let r := processAnswer cfg gen now uuid qid text rt s in
  cvs (snd r) = cvs s /\ jds (snd r) = jds s /\ summaries (snd r) = summaries s
  /\ ((exists e, r = (Throws e, s))
      \/ exists a,
          answers (snd r) = answers s ++ [a]
          /\ Answer.id a = next_answer_id s
          /\ next_answer_id (snd r) = next_answer_id s + 1
          /\ Answer.question_id a = qid
          /\ Answer.answer_text a = text
          /\ 1 <= Answer.quality_score a <= 5
          /\ forall res,
              fst r = Returns res ->
              evaluation res = Answer.evaluation a
              /\ (isComplete res = true <-> nextQuestion res = None)).
Proof.
  intros r.
  destruct (processAnswer_before_evaluation now uuid qid text rt s)
    as [[e He]|(session & iv & q & ev & Hs & Hi & Hq & Hqi & Hcv & Hjd & Hev)];
    fold r in He || idtac.
  - rewrite He. simpl. repeat split; try reflexivity. left. eauto.
  - destruct (processAnswer_after_evaluation now uuid qid text rt s session iv
                q ev Hs Hi Hq Hqi Hcv Hjd Hev)
      as (Hanswers & Hnext & Hcvs & Hjds & Hsum & Hres & _).
    fold r in Hanswers, Hnext, Hcvs, Hjds, Hsum, Hres.
    repeat (split; [assumption|]). right.
    eexists. split; [exact Hanswers|]. simpl.
    pose proof (evaluateResponse_quality _ _ _ _ _ _ _ Hev) as Hvalid.
    unfold Answer_valid in Hvalid.
    do 4 (split; [assumption || reflexivity|]). split; [lia|].
    intros res Hr. destruct (Hres res Hr) as [Heval Hcomplete].
    split; [exact Heval|]. rewrite Hcomplete.
    destruct (nextQuestion res) as [nq|]; simpl; split; try discriminate; try reflexivity.
Qed.

End Answers.

Lemma processAnswer_records_answer_witness :
  map Answer.quality_score (answers demo_answered) = [2].
Proof.
  assert (Hs : Session_findOne "u-1" demo_started
               = Some (Session.mk 1 "u-1" s_interviewing 86400000))
    by (vm_compute; reflexivity).
  assert (Hi : exists iv, Interview_findOne_in_progress 1 demo_started = Some iv
                          /\ Interview.id iv = 1)
    by (vm_compute; eexists; split; reflexivity).
  destruct Hi as (iv & Hi & Hid).
  pose proof (processAnswer_records_answer mock_config no_backend 2000 "u-1" 1
                "It depends." (Some 900) demo_started _ iv
                (Question.mk 1 1 None 1 "Backend"
                   "How do you design APIs for scalability?" 0)
                Hs Hi) as H.
  simpl in H. destruct H as (Hanswers & _).
  - vm_compute. reflexivity.
  - now rewrite Hid.
  - vm_compute. eexists. reflexivity.
  - vm_compute. eexists. reflexivity.
  - unfold demo_answered. rewrite Hanswers. vm_compute. reflexivity.
Defined.

(** X16. An answer that completes the interview is the last one: when a call
    on an interview in progress returns [isComplete = true], every later
    call for the session throws [No active interview found] and changes
    nothing. *)
Theorem processAnswer_completion_is_final (cfg : Config) (gen : GenerateJSON)
    (now : Z) (uuid : string) (qid : Z) (text : string) (rt : option Z)
    (s s' : Store) (interview_id asked : Z) (res : ProcessAnswerResult) :
  in_progress uuid interview_id asked s ->
  processAnswer cfg gen now uuid qid text rt s = (Returns res, s') ->
  isComplete res = true ->
  forall gen' now' qid' text' rt',
    processAnswer cfg gen' now' uuid qid' text' rt' s'
    = (Throws (JS.new_Error "No active interview found"), s').
Proof.
  intros Hopen Hcall Hcomplete gen' now' qid' text' rt'.
  pose proof (processAnswer_effect cfg gen now uuid qid text rt s) as Heffect.
  rewrite Hcall in Heffect. simpl in Heffect.
  pose proof (answer_in_progress cfg uuid qid s s' (Returns res) interview_id asked
                Hopen Heffect) as Hdone.
  simpl in Hdone. rewrite Hcomplete in Hdone.
  assert (Hsession : exists session', Session_findOne uuid s' = Some session').
  { inversion Heffect as [| |res0 s0 session interview st now0 Hs Hi _ Hsessions|
                          r0 s0 session interview st q new Hs Hi _ _ _ Hsessions _ _ _ Hr];
      subst.
    - destruct Hsessions as [Hsame|Hupdated].
      + exists session. unfold Session_findOne in *. now rewrite Hsame.
      + destruct (Session_findOne_update_status uuid uuid s_completed s session Hs)
          as (session' & Hfound & _).
        exists session'. unfold Session_findOne in *. now rewrite Hupdated.
    - congruence. }
  destruct Hsession as [session' Hsession].
  unfold processAnswer, bind, query, orThrow, throw, ret.
  rewrite Hsession. simpl. now rewrite (Hdone session' Hsession).
Qed.

Lemma processAnswer_completion_is_final_witness :
  processAnswer single_question_config no_backend 3000 "u-1" 1 "Once more." None
    (snd (processAnswer single_question_config no_backend 2000 "u-1" 1 "It depends."
            (Some 900) single_started))
  = (Throws (JS.new_Error "No active interview found"),
     snd (processAnswer single_question_config no_backend 2000 "u-1" 1 "It depends."
            (Some 900) single_started)).
Proof.
  assert (Hopen : in_progress "u-1" 1 1 single_started).
  { apply (start_in_progress single_question_config no_backend 1000 "u-1" demo_store
             single_started
             {| interviewId := 1;
                question := {| qv_id := 1;
                               qv_text := "How do you design APIs for scalability?";
                               qv_competency := "Backend" |};
                start_progress := {| current := 1; estimated_total := 2;
                                     progress_competency := "Backend" |} |}).
    - split; constructor.
    - constructor.
    - vm_compute. reflexivity. }
  eapply (processAnswer_completion_is_final single_question_config no_backend 2000 "u-1"
            1 "It depends." (Some 900) single_started _ 1 1 _ Hopen).
  - vm_compute. reflexivity.
  - vm_compute. reflexivity.
Defined.

(** ** Starting and resuming *)

Section Resume.

Variable cfg : Config.
Variable gen : GenerateJSON.

Lemma startInterview_returns (now : Z) (uuid : string) (s s' : Store) (r : StartResult) :
  startInterview cfg gen now uuid s = (Returns r, s') ->
  exists session cvData jdData g,
    Session_findOne uuid s = Some session
    /\ CV_findOne (Session.id session) s ≫= CV.parsed_data = Some cvData
    /\ JobDescription_findOne (Session.id session) s ≫= JobDescription.parsed_data
       = Some jdData
    /\ generateQuestion cfg gen cvData jdData
         (head (ParsedJDData.competency_areas jdData)) 1 = Returns g
    /\ let s1 := cleared (Session.id session) s in
       let first := Question.mk (next_question_id s1) (next_interview_id s1) None 1
                      (GeneratedQuestion.competency g)
                      (GeneratedQuestion.question_text g) 0 in
       r = {| interviewId := next_interview_id s1;
              question := {| qv_id := Question.id first;
                             qv_text := Question.question_text first;
                             qv_competency := Question.competency first |};
              start_progress :=
                {| current := 1;
                   estimated_total :=
                     QuestionPlan.total_planned_questions (generateQuestionPlan cfg jdData);
                   progress_competency :=
                     from_option CompetencyArea.name ""
                       (head (ParsedJDData.competency_areas jdData)) |} |}
       /\ s' = Session_update_status uuid s_interviewing
                 (mkStore (sessions s1) (cvs s1) (jds s1)
                    (interviews s1
                     ++ [fresh_interview cfg now (Session.id session) jdData s1])
                    (questions s1 ++ [first]) (answers s1) (summaries s1)
                    (next_interview_id s1 + 1) (next_question_id s1 + 1)
                    (next_answer_id s1)).
Proof.
  unfold startInterview, bind, query, orThrow, await, insert_row, write, ret, throw,
    updateSessionStatus.
  destruct (Session_findOne uuid s) as [session|] eqn:Hs; simpl; [|discriminate].
  destruct (CV_findOne _ s ≫= CV.parsed_data) as [cvData|] eqn:Hcv; simpl;
    [|discriminate].
  destruct (JobDescription_findOne _ s ≫= JobDescription.parsed_data) as [jdData|] eqn:Hjd;
    simpl; [|discriminate].
  destruct (Interview_findOne (Session.id session) s) as [existing|] eqn:Hex; simpl;
    (destruct (generateQuestion cfg gen cvData jdData _ 1) as [g|e] eqn:Hg; simpl;
     [|discriminate]; intros Hstart; inversion Hstart; subst r s';
     exists session, cvData, jdData, g; unfold cleared; rewrite Hex; repeat split;
     first [reflexivity | assumption]).
Qed.

Lemma cleared_counters (session_id : Z) (s : Store) :
  next_question_id (cleared session_id s) = next_question_id s
  /\ next_answer_id (cleared session_id s) = next_answer_id s
  /\ sublist (answers (cleared session_id s)) (answers s).
Proof.
  unfold cleared. destruct (Interview_findOne session_id s); simpl.
  - repeat split. apply filter_sublist.
  - repeat split. reflexivity.
Qed.

(** X17. Asking for the state right after a successful [startInterview] gives
    back what [startInterview] returned: the same interview, in progress,
    the same question as the current one and the same progress; nothing
    is written; and the session is then in status [interviewing].  The
    store is one in which sequences are ahead of the rows and a session has
    at most one interview. *)
Theorem getInterviewState_after_start (now : Z) (uuid : string) (s s' : Store)
    (r : StartResult) :
  fresh s -> one_interview s -> answers_fresh s ->
  startInterview cfg gen now uuid s = (Returns r, s') ->
  getInterviewState uuid s'
  = (Returns (Some {| isv_interviewId := interviewId r;
                      isv_status := i_in_progress;
                      isv_currentQuestion := Some (question r);
                      isv_progress := start_progress r |}), s')
  /\ exists session',
      Session_findOne uuid s' = Some session'
      /\ Session.status session' = s_interviewing.
Proof.
  intros Hfresh Hone Hanswers Hstart.
  destruct (startInterview_returns now uuid s s' r Hstart)
    as (session & cvData & jdData & g & Hs & Hcv & Hjd & Hg & Hr & Hs').
  destruct (cleared_frame (Session.id session) s) as (Hss & Hc & Hj).
  destruct (cleared_sublist (Session.id session) s) as (_ & Hcq & Hn).
  destruct (cleared_counters (Session.id session) s) as (Hnq & _ & Hca).
  pose proof (cleared_none (Session.id session) s Hone) as Hnone.
  set (s1 := cleared (Session.id session) s) in *.
  assert (Hfound : exists session',
             Session_findOne uuid s' = Some session'
             /\ Session.id session' = Session.id session
             /\ Session.status session' = s_interviewing).
  { rewrite Hs'. unfold Session_findOne, Session_update_status. simpl. rewrite Hss.
    unfold Session_findOne in Hs. clear -Hs.
    induction (sessions s) as [|x l IH]; simpl in *; [discriminate|].
    destruct (String.eqb (Session.uuid x) uuid) eqn:E; simpl.
    - rewrite E. inversion Hs; subst. eexists. repeat split; reflexivity.
    - rewrite E. exact (IH Hs). }
  destruct Hfound as (session' & Hfound & Hsid & Hstatus).
  split; [|exists session'; split; assumption].
  assert (Hquestions : List.filter (fun q => Question.interview_id q =? next_interview_id s1)
                         (questions s1) = []).
  { apply filter_nil. intros q Hq. apply Z.eqb_neq.
    destruct Hfresh as [Hfq _].
    pose proof (sublist_Forall _ _ _ Hcq Hfq) as Hall.
    rewrite Forall_forall in Hall. apply list_elem_of_In, Hall in Hq. lia. }
  assert (Hnoanswer : List.find (fun a => Answer.question_id a =? next_question_id s1)
                        (answers s1) = None).
  { destruct (List.find _ (answers s1)) as [a|] eqn:Hfind; [|reflexivity].
    apply find_some in Hfind. destruct Hfind as [Hin Heq]. apply Z.eqb_eq in Heq.
    pose proof (sublist_Forall _ _ _ Hca Hanswers) as Hall.
    rewrite Forall_forall in Hall. apply list_elem_of_In, Hall in Hin. lia. }
  unfold getInterviewState, bind, query, ret, throw.
  rewrite Hfound. simpl. rewrite Hsid.
  unfold Interview_findOne_latest, currentQuestion, Question_latest, Answer_findOne.
  rewrite Hs'. simpl.
  rewrite List.filter_app, Hnone. simpl. rewrite Z.eqb_refl. simpl.
  rewrite List.filter_app. fold s1. rewrite Hquestions. simpl.
  rewrite Z.eqb_refl. simpl. rewrite Hnoanswer. simpl.
  rewrite Hr. simpl.
  now destruct (ParsedJDData.competency_areas jdData).
Qed.


(** X18. [startInterview] is not atomic.  When it throws, either nothing was
    written, or the interview was already created and the first question
    could not be generated: the session then has an interview in progress
    without any question, the state request shows it without a current
    question, and every answer is rejected with [Question not found]. *)
Theorem startInterview_failure (now : Z) (uuid : string) (s s' : Store) (e : JS.Error) :
  fresh s -> one_interview s ->
  startInterview cfg gen now uuid s = (Throws e, s') ->
  s' = s
  \/ (exists session interview view,
        Session_findOne uuid s' = Some session
        /\ Interview_findOne_in_progress (Session.id session) s' = Some interview
        /\ Interview.id interview = next_interview_id s
        /\ Question_count (Interview.id interview) s' = 0
        /\ getInterviewState uuid s' = (Returns (Some view), s')
        /\ isv_interviewId view = Interview.id interview
        /\ isv_currentQuestion view = None
        /\ forall cfg' gen' now' qid text rt,
             processAnswer cfg' gen' now' uuid qid text rt s'
             = (Throws (JS.new_Error "Question not found"), s')).
Proof.
  intros Hfresh Hone Hstart.
  destruct (startInterview_effect cfg gen now uuid s)
    as [[e' He] | (session & cvData & jdData & Hs & Hcv & Hjd & H)].
  { rewrite He in Hstart. inversion Hstart. now left. }
  cbv zeta in H.
  destruct H as [(e' & _ & He) | (g & r' & _ & _ & Hr)];
    [|rewrite Hr in Hstart; discriminate].
  rewrite He in Hstart. inversion Hstart. subst e' s'. clear Hstart He.
  right.
  destruct (cleared_frame (Session.id session) s) as (Hss & Hc & Hj).
  destruct (cleared_sublist (Session.id session) s) as (_ & Hcq & Hn).
  pose proof (cleared_none (Session.id session) s Hone) as Hnone.
  set (s1 := cleared (Session.id session) s) in *.
  set (interview := fresh_interview cfg now (Session.id session) jdData s1).
  set (s2 := mkStore _ _ _ _ _ _ _ _ _ _).
  assert (Hsession : Session_findOne uuid s2 = Some session).
  { unfold Session_findOne, s2. simpl. now rewrite Hss. }
  assert (Hquestions : forall q, In q (questions s1) ->
                                 (Question.interview_id q =? next_interview_id s1) = false).
  { intros q Hq. apply Z.eqb_neq. destruct Hfresh as [Hfq _].
    pose proof (sublist_Forall _ _ _ Hcq Hfq) as Hall.
    rewrite Forall_forall in Hall. apply list_elem_of_In, Hall in Hq. lia. }
  assert (Hfound : Interview_findOne_in_progress (Session.id session) s2 = Some interview).
  { unfold Interview_findOne_in_progress, s2. simpl.
    rewrite (find_and_filter
               (fun x => Interview.session_id x =? Session.id session)
               (fun x => InterviewStatus_eqb (Interview.status x) i_in_progress)).
    rewrite List.filter_app, Hnone. simpl. now rewrite Z.eqb_refl. }
  assert (Hlatest : Interview_findOne_latest (Session.id session) s2 = Some interview).
  { unfold Interview_findOne_latest, s2. simpl.
    rewrite List.filter_app, Hnone. simpl. now rewrite Z.eqb_refl. }
  assert (Hnoq : List.filter (fun q => Question.interview_id q =? Interview.id interview)
                   (questions s2) = []).
  { apply filter_nil. exact Hquestions. }
  exists session, interview.
  eexists. split; [exact Hsession|]. split; [exact Hfound|].
  split; [simpl; exact Hn|].
  split; [unfold Question_count; now rewrite Hnoq|].
  split.
  { unfold getInterviewState, bind, query, ret, throw.
    rewrite Hsession. cbv beta iota. rewrite Hlatest. cbv beta iota.
    unfold currentQuestion, Question_latest. rewrite Hnoq. reflexivity. }
  split; [reflexivity|]. split; [reflexivity|].
  intros cfg' gen' now' qid text rt.
  unfold processAnswer, bind, query, orThrow, throw, ret.
  rewrite Hsession. simpl. rewrite Hfound. simpl.
  destruct (Question_findByPk qid s2) as [q|] eqn:Hq; simpl; [|reflexivity].
  unfold Question_findByPk in Hq. apply find_some in Hq. destruct Hq as [Hin _].
  change (Interview.id interview) with (next_interview_id s1).
  now rewrite (Hquestions q Hin).
Qed.

End Resume.

Lemma getInterviewState_after_start_witness :
  fst (getInterviewState "u-1" demo_started)
  = Returns (Some {| isv_interviewId := 1;
                     isv_status := i_in_progress;
                     isv_currentQuestion :=
                       Some {| qv_id := 1;
                               qv_text := "How do you design APIs for scalability?";
                               qv_competency := "Backend" |};
                     isv_progress := {| current := 1; estimated_total := 15;
                                        progress_competency := "Backend" |} |}).
Proof.
  assert (Hfresh : fresh demo_store) by (split; constructor).
  assert (Hone : one_interview demo_store) by constructor.
  assert (Hanswers : answers_fresh demo_store) by constructor.
  destruct (getInterviewState_after_start mock_config no_backend 1000 "u-1" demo_store
              demo_started
              {| interviewId := 1;
                 question := {| qv_id := 1;
                                qv_text := "How do you design APIs for scalability?";
                                qv_competency := "Backend" |};
                 start_progress := {| current := 1; estimated_total := 15;
                                      progress_competency := "Backend" |} |}
              Hfresh Hone Hanswers) as [Hstate _].
  - vm_compute. reflexivity.
  - rewrite Hstate. reflexivity.
Defined.

Lemma startInterview_failure_witness :
  exists session interview,
    Session_findOne "u-1"
      (snd (startInterview default_config no_backend 1000 "u-1" demo_store))
    = Some session
    /\ Interview_findOne_in_progress (Session.id session)
         (snd (startInterview default_config no_backend 1000 "u-1" demo_store))
       = Some interview
    /\ Interview.id interview = 1.
Proof.
  assert (Hfresh : fresh demo_store) by (split; constructor).
  assert (Hone : one_interview demo_store) by constructor.
  destruct (startInterview_failure default_config no_backend 1000 "u-1" demo_store
              (snd (startInterview default_config no_backend 1000 "u-1" demo_store))
              (JS.new_Error "backend down") Hfresh Hone)
    as [Hsame | (session & interview & view & Hs & Hi & Hid & _)].
  - vm_compute. reflexivity.
  - exfalso. apply (f_equal (fun s => length (interviews s))) in Hsame.
    vm_compute in Hsame. discriminate.
  - exists session, interview. repeat split; assumption.
Defined.

(** ** The next question *)

Section Next.

Variable cfg : Config.
Variable gen : GenerateJSON.

Ltac next_leaf :=
  intros; try discriminate;
  try (match goal with
       | H : Returns _ = Returns _ |- _ => inversion H; subst; clear H
       end);
  try (match goal with
       | H : nextQuestion _ = Some _ |- _ => simpl in H; try discriminate; inversion H; subst; clear H
       end);
  try (do 3 eexists; repeat split; first [reflexivity | now eexists]).

(** The question behind the [nextQuestion] of a returned result. *)
Lemma processAnswer_next_question (now : Z) (uuid : string) (qid : Z)
    (text : string) (rt : option Z) (s : Store) (session : Session.t)
    (interview : Interview.t) (res : ProcessAnswerResult) (nq : NextQuestion) :
  Session_findOne uuid s = Some session ->
  Interview_findOne_in_progress (Session.id session) s = Some interview ->
  fst (processAnswer cfg gen now uuid qid text rt s) = Returns res ->
  nextQuestion res = Some nq ->
  let s' := snd (processAnswer cfg gen now uuid qid text rt s) in
  exists new st a,
    questions s' = questions s ++ [new]
    /\ answers s' = answers s ++ [a]
    /\ Answer.question_id a = qid
    /\ sessions s' = sessions s
    /\ interviews s' = interviews (Interview_update (Interview.id interview)
                                     (save_state st) s)
    /\ Question.id new = next_question_id s
    /\ Question.interview_id new = Interview.id interview
    /\ Question.sequence_num new = Question_count (Interview.id interview) s + 1
    /\ nq_id nq = Question.id new
    /\ nq_text nq = Question.question_text new
    /\ nq_competency nq = Question.competency new
    /\ option_map QuestionPlan.total_planned_questions (Interview.question_plan interview)
       = Some (estimated_total (progress res))
    /\ is_Some (Question_findByPk qid s).
Proof.
  intros Hs Hi. 
  unfold processAnswer, bind, query, orThrow, await, insert_row, write, ret, throw,
    continue_result, updateSessionStatus.
  rewrite Hs. simpl. rewrite Hi. simpl.
  destruct (Question_findByPk qid s) as [q|]; simpl; [|discriminate].
  destruct (Question.interview_id q =? Interview.id interview) eqn:Hqi; simpl;
    [|discriminate].
  destruct (CV_findOne _ s ≫= CV.parsed_data) as [cvData|]; simpl; [|discriminate].
  destruct (JobDescription_findOne _ s ≫= JobDescription.parsed_data) as [jdData|];
    simpl; [|discriminate].
  destruct (evaluateResponse _ _ _ _ _ _) as [ev|e] eqn:Hev; simpl; [|discriminate].
  rewrite (evaluateResponse_quality _ _ _ _ _ _ _ Hev). simpl.
  repeat (case_match_eq; simpl); next_leaf.
Qed.


Lemma latest_snoc {A : Type} (key : A -> Z) (l : list A) (y : A) :
  Forall (fun x => key x < key y) l -> latest key (l ++ [y]) = Some y.
Proof.
  induction 1 as [|x l Hx _ IH]; simpl; [reflexivity|].
  rewrite IH. assert (Hlt : (key x <? key y) = true) by lia. now rewrite Hlt.
Qed.

Lemma find_snoc_none {A : Type} (P : A -> bool) (l : list A) (y : A) :
  Forall (fun x => P x = false) l -> P y = false -> List.find P (l ++ [y]) = None.
Proof.
  induction 1 as [|x l Hx _ IH]; simpl; intros Hy.
  - now rewrite Hy.
  - rewrite Hx. now apply IH.
Qed.

(** X19. The question [processAnswer] returns as the next one is the question
    the state request then reports as the current one, for the same
    interview, still in progress and with the same estimated total.  The
    store is one in which the interview is the only one of the session,
    its questions are numbered up to their count, and ids are below the
    sequences. *)
Theorem getInterviewState_after_answer (now : Z) (uuid : string) (qid : Z)
    (text : string) (rt : option Z) (s s' : Store) (interview_id asked : Z)
    (res : ProcessAnswerResult) (nq : NextQuestion) :
  in_progress uuid interview_id asked s ->
  numbered interview_id s -> answers_fresh s ->
  processAnswer cfg gen now uuid qid text rt s = (Returns res, s') ->
  nextQuestion res = Some nq ->
  exists view,
    getInterviewState uuid s' = (Returns (Some view), s')
    /\ isv_interviewId view = interview_id
    /\ isv_status view = i_in_progress
    /\ isv_currentQuestion view
       = Some {| qv_id := nq_id nq; qv_text := nq_text nq;
                 qv_competency := nq_competency nq |}
    /\ estimated_total (isv_progress view) = estimated_total (progress res).
Proof.
  intros Hopen Hnumbered Hanswers Hcall Hnext.
  assert (Hres : fst (processAnswer cfg gen now uuid qid text rt s) = Returns res)
    by now rewrite Hcall.
  assert (Hs2 : s' = snd (processAnswer cfg gen now uuid qid text rt s))
    by now rewrite Hcall.
  clear Hcall.
  destruct Hopen as (session & interview & Hs & Hfilter & Hid & Hstatus & _ & _ & _ & _
                     & Hcount).
  assert (Hi : Interview_findOne_in_progress (Session.id session) s = Some interview).
  { unfold Interview_findOne_in_progress.
    rewrite (find_and_filter
               (fun x => Interview.session_id x =? Session.id session)
               (fun x => InterviewStatus_eqb (Interview.status x) i_in_progress)).
    rewrite Hfilter. simpl. now rewrite Hstatus. }
  destruct (processAnswer_next_question now uuid qid text rt s session interview res nq
              Hs Hi Hres Hnext)
    as (new & st & a & Hq' & Ha' & Haq & Hs' & Hi' & Hnewid & Hnewiv & Hseq & Hnqid
        & Hnqtext & Hnqcomp & Hplan & [q Hq]).
  rewrite <- Hs2 in Hq', Ha', Hs', Hi'.
  destruct (Interview.question_plan interview) as [plan|] eqn:Hplan'; [|discriminate].
  simpl in Hplan. injection Hplan as Htotal.
  assert (Hsession : Session_findOne uuid s' = Some session).
  { unfold Session_findOne. now rewrite Hs'. }
  assert (Hlatest : Interview_findOne_latest (Session.id session) s'
                    = Some (save_state st interview)).
  { unfold Interview_findOne_latest. rewrite Hi'. unfold Interview_update. simpl.
    rewrite filter_map_preserve.
    - rewrite Hfilter. simpl. now rewrite Z.eqb_refl.
    - intros x. now destruct (Interview.id x =? Interview.id interview). }
  assert (Hqid : qid < next_question_id s).
  { unfold Question_findByPk in Hq. apply find_some in Hq. destruct Hq as [Hin Heq].
    apply Z.eqb_eq in Heq. unfold numbered in Hnumbered.
    rewrite Forall_forall in Hnumbered. apply list_elem_of_In, Hnumbered in Hin. lia. }
  assert (Hcurrent : currentQuestion (Interview.id interview) s' = Some new).
  { unfold currentQuestion, Question_latest, Answer_findOne.
    rewrite Hq', Ha', List.filter_app. simpl. rewrite Hnewiv, Z.eqb_refl.
    rewrite latest_snoc.
    - rewrite find_snoc_none; [reflexivity | | ].
      + unfold answers_fresh in Hanswers. eapply Forall_impl; [exact Hanswers|].
        simpl. intros x Hx. apply Z.eqb_neq. lia.
      + apply Z.eqb_neq. lia.
    - apply Forall_forall. intros x Hx. apply list_elem_of_In, filter_In in Hx.
      destruct Hx as [Hin Hiv]. apply Z.eqb_eq in Hiv.
      unfold numbered in Hnumbered. rewrite Forall_forall in Hnumbered.
      apply list_elem_of_In, Hnumbered in Hin. destruct Hin as [_ Hle].
      specialize (Hle ltac:(congruence)). rewrite Hid in *. lia. }
  eexists. split.
  { unfold getInterviewState, bind, query, ret, throw.
    rewrite Hsession. cbv beta iota. rewrite Hlatest. cbv beta iota.
    change (Interview.id (save_state st interview)) with (Interview.id interview).
    rewrite Hcurrent.
    change (Interview.interview_state (save_state st interview)) with (Some st).
    change (Interview.question_plan (save_state st interview))
      with (Interview.question_plan interview).
    rewrite Hplan'. reflexivity. }
  simpl. split; [exact Hid|]. split; [exact Hstatus|].
  split; [now rewrite Hnqid, Hnqtext, Hnqcomp|]. exact Htotal.
Qed.

End Next.

Lemma getInterviewState_after_answer_witness :
  exists view,
    getInterviewState "u-1" demo_answered = (Returns (Some view), demo_answered)
    /\ isv_currentQuestion view
       = Some {| qv_id := 2; qv_text := "Walk me through the steps you took.";
                 qv_competency := "Backend" |}.
Proof.
  assert (Hopen : in_progress "u-1" 1 1 demo_started).
  { apply (start_in_progress mock_config no_backend 1000 "u-1" demo_store demo_started
             {| interviewId := 1;
                question := {| qv_id := 1;
                               qv_text := "How do you design APIs for scalability?";
                               qv_competency := "Backend" |};
                start_progress := {| current := 1; estimated_total := 15;
                                     progress_competency := "Backend" |} |}).
    - split; constructor.
    - constructor.
    - vm_compute. reflexivity. }
  assert (Hnumbered : numbered 1 demo_started).
  { repeat constructor; vm_compute; congruence. }
  assert (Hanswers : answers_fresh demo_started) by constructor.
  eassert (Hcall : processAnswer mock_config no_backend 2000 "u-1" 1 "It depends."
                     (Some 900) demo_started = (Returns _, demo_answered))
    by (vm_compute; reflexivity).
  destruct (getInterviewState_after_answer mock_config no_backend 2000 "u-1" 1
              "It depends." (Some 900) demo_started demo_answered 1 1 _
              {| nq_id := 2; nq_text := "Walk me through the steps you took.";
                 nq_competency := "Backend"; isFollowUp := true; nq_depth := 1 |}
              Hopen Hnumbered Hanswers Hcall)
    as (view & Hview & _ & _ & Hcurrent & _).
  - reflexivity.
  - exists view. split; [exact Hview | exact Hcurrent].
Defined.

(** ** The routes *)

Section RouteFacts.

Variable cfg : Config.
Variable gen : GenerateJSON.
Variable trim : string -> string.

Lemma validateSession_tables (now : Z) (uuid : string) (s : Store) :
  let s' := snd (validateSession now uuid s) in
  cvs s' = cvs s /\ jds s' = jds s /\ interviews s' = interviews s
  /\ questions s' = questions s /\ answers s' = answers s
  /\ summaries s' = summaries s.
Proof.
  rewrite validateSession_cases.
  destruct (Session_findOne uuid s) as [session|]; simpl; [|repeat split].
  destruct (Session.expires_at session <? now); simpl; [|repeat split].
  destruct (SessionStatus_eqb (Session.status session) s_expired); repeat split.
Qed.

(** X20. The answer route never throws and answers with one of the statuses
    200, 400, 401, 404 and 500, with 200 exactly for a success body.  A
    request it refuses with 400 or 401 leaves interviews, questions and
    answers as they are; with 200 exactly one answer was stored, and its
    text is the trimmed text of the request. *)
Theorem POST_answer_responds (now : Z) (request : AnswerRequest) (s : Store) :
  let result := POST_answer cfg gen trim now request s in
  exists resp,
    fst result = Returns resp
    /\ (httpStatus resp = 200 <-> exists d, body resp = ApiSuccess d)
    /\ In (httpStatus resp) [200; 400; 401; 404; 500]
    /\ (httpStatus resp = 400 \/ httpStatus resp = 401 ->
        interviews (snd result) = interviews s
        /\ questions (snd result) = questions s
        /\ answers (snd result) = answers s)
    /\ (httpStatus resp = 200 ->
        exists a,
          answers (snd result) = answers s ++ [a]
          /\ Answer.question_id a = req_questionId request
          /\ Answer.answer_text a = trim (req_answerText request)).
Proof.
  intros result. subst result.
  unfold POST_answer, catch_answer_error, bind, ret.
  destruct (String.eqb (req_sessionUuid request) ""); simpl.
  { eexists. split; [reflexivity|]. simpl.
    split; [split; [discriminate | intros [d Hd]; discriminate]|].
    split; [tauto|]. split; [tauto | discriminate]. }
  destruct (req_questionId request =? 0); simpl.
  { eexists. split; [reflexivity|]. simpl.
    split; [split; [discriminate | intros [d Hd]; discriminate]|].
    split; [tauto|]. split; [tauto | discriminate]. }
  destruct (String.eqb (req_answerText request) ""
            || (String.length (trim (req_answerText request)) =? 0)%nat); simpl.
  { eexists. split; [reflexivity|]. simpl.
    split; [split; [discriminate | intros [d Hd]; discriminate]|].
    split; [tauto|]. split; [tauto | discriminate]. }
  pose proof (validateSession_tables now (req_sessionUuid request) s) as Htables.
  cbv zeta in Htables. rewrite validateSession_cases in *.
  destruct (Session_findOne (req_sessionUuid request) s) as [session|] eqn:Hfind; simpl.
  2:{ eexists. split; [reflexivity|]. simpl.
      split; [split; [discriminate | intros [d Hd]; discriminate]|].
      split; [tauto|]. split; [tauto | discriminate]. }
  destruct (Session.expires_at session <? now) eqn:Hexp; simpl.
  { simpl in Htables. destruct Htables as (_ & _ & Hi & Hq & Ha & _).
    eexists. split; [reflexivity|]. simpl.
    split; [split; [discriminate | intros [d Hd]; discriminate]|].
    split; [tauto|]. split; [tauto | discriminate]. }
  set (text := trim (req_answerText request)).
  pose proof (processAnswer_before_evaluation cfg gen now (req_sessionUuid request)
                (req_questionId request) text (req_responseTimeMs request) s) as Hbefore.
  cbv zeta in Hbefore.
  destruct (processAnswer cfg gen now (req_sessionUuid request) (req_questionId request)
              text (req_responseTimeMs request) s) as [[res|e] s2] eqn:Hcall; simpl.
  - eexists. split; [reflexivity|]. simpl.
    split; [split; [eauto | reflexivity]|]. split; [tauto|].
    split; [intros [H|H]; discriminate|]. intros _.
    destruct Hbefore as [[e He]|(session' & iv & q & ev & Hs & Hi & Hq & Hqi & Hcv & Hjd & Hev)];
      [discriminate|].
    destruct (processAnswer_after_evaluation cfg gen now (req_sessionUuid request)
                (req_questionId request) text (req_responseTimeMs request) s session' iv
                q ev Hs Hi Hq Hqi Hcv Hjd Hev) as (Hanswers & _).
    rewrite Hcall in Hanswers. simpl in Hanswers.
    eexists. split; [exact Hanswers|]. split; reflexivity.
  - destruct (JSString.includes (JS.message e) "not found");
      (eexists; split; [reflexivity|]; simpl;
       split; [split; [discriminate | intros [d Hd]; discriminate]|];
       split; [tauto|]; split; [intros [H|H]; discriminate | discriminate]).
Qed.

(** X21. What the answer route makes of the engine's refusals, for a request
    with all its fields on a session that has not expired: an answer to a
    session without an interview in progress (it was completed, say) is a
    500 [PROCESS_ANSWER_ERROR], while a question id that names no question
    of the interview in progress is a 404 [NOT_FOUND]; neither writes. *)
Theorem POST_answer_error_status (now : Z) (request : AnswerRequest) (s : Store)
    (session : Session.t) :
  req_sessionUuid request <> "" ->
  req_questionId request <> 0 ->
  req_answerText request <> "" ->
  String.length (trim (req_answerText request)) <> 0%nat ->
  Session_findOne (req_sessionUuid request) s = Some session ->
  now <= Session.expires_at session ->
  (Interview_findOne_in_progress (Session.id session) s = None ->
   POST_answer cfg gen trim now request s
   = (Returns (json_error 500 "PROCESS_ANSWER_ERROR" "No active interview found"), s))
  /\ (forall interview,
         Interview_findOne_in_progress (Session.id session) s = Some interview ->
         match Question_findByPk (req_questionId request) s with
         | Some q => Question.interview_id q <> Interview.id interview
         | None => True
         end ->
         POST_answer cfg gen trim now request s
         = (Returns (json_error 404 "NOT_FOUND" "Question not found"), s)).
Proof.
  intros Huuid Hqid Htext Htrim Hfind Hvalid.
  assert (Hhead :
            POST_answer cfg gen trim now request s
            = catch_answer_error
                (result <- processAnswer cfg gen now (req_sessionUuid request)
                             (req_questionId request) (trim (req_answerText request))
                             (req_responseTimeMs request) ;;
                 ret (json_success result)) s).
  { unfold POST_answer, catch_answer_error.
    apply String.eqb_neq in Huuid. rewrite Huuid.
    apply Z.eqb_neq in Hqid. rewrite Hqid.
    apply String.eqb_neq in Htext. rewrite Htext.
    apply Nat.eqb_neq in Htrim. rewrite Htrim. simpl.
    unfold bind at 1. rewrite validateSession_cases, Hfind.
    assert (Hexp : (Session.expires_at session <? now) = false) by lia.
    now rewrite Hexp. }
  rewrite Hhead.
  unfold catch_answer_error, processAnswer, bind, query, orThrow, throw, ret.
  rewrite Hfind. simpl. split.
  - intros Hnone. rewrite Hnone. reflexivity.
  - intros interview Hi Hq. rewrite Hi. simpl.
    destruct (Question_findByPk (req_questionId request) s) as [q|]; simpl;
      [|reflexivity].
    apply Z.eqb_neq in Hq. rewrite Hq. reflexivity.
Qed.


(** X22. The start route on a session that has not expired and whose CV or job
    description is not parsed answers 400 [MISSING_DATA] and writes
    nothing: an interview the session has is kept. *)
Theorem POST_start_missing_data (now : Z) (uuid : string) (s : Store)
    (session : Session.t) :
  uuid <> "" ->
  Session_findOne uuid s = Some session ->
  now <= Session.expires_at session ->
  CV_findOne (Session.id session) s ≫= CV.parsed_data = None
  \/ JobDescription_findOne (Session.id session) s ≫= JobDescription.parsed_data = None ->
  POST_start cfg gen now uuid s
  = (Returns (json_error 400 "MISSING_DATA"
                "CV and JD must be parsed before starting interview"), s).
Proof.
  intros Huuid Hfind Hvalid Hmissing.
  unfold POST_start, catch_start_error.
  apply String.eqb_neq in Huuid. rewrite Huuid.
  unfold bind at 1. rewrite validateSession_cases, Hfind.
  assert (Hexp : (Session.expires_at session <? now) = false) by lia.
  rewrite Hexp.
  unfold startInterview, bind, query, orThrow, throw, ret. rewrite Hfind. simpl.
  destruct Hmissing as [Hcv|Hjd].
  - rewrite Hcv. reflexivity.
  - rewrite Hjd. now destruct (CV_findOne _ s ≫= CV.parsed_data).
Qed.

Lemma getInterviewState_reads (uuid : string) (s : Store) :
  snd (getInterviewState uuid s) = s.
Proof.
  unfold getInterviewState, bind, query, ret, throw.
  destruct (Session_findOne uuid s) as [session|]; simpl; [|reflexivity].
  destruct (Interview_findOne_latest (Session.id session) s) as [interview|]; simpl;
    [|reflexivity].
  destruct (Interview.interview_state interview); simpl; [|reflexivity].
  now destruct (Interview.question_plan interview).
Qed.

(** X23. The state route never throws and only reads the interview: whatever
    it answers, nothing but the status of an expired session is written;
    and a success body is what [getInterviewState] gives on the store
    as it was, which is then left as it is. *)
Theorem GET_state_reads (now : Z) (uuid : string) (s : Store) :
  let result := GET_state now uuid s in
  let s' := snd result in
  exists resp,
    fst result = Returns resp
    /\ In (httpStatus resp) [200; 400; 401; 404; 500]
    /\ mkStore (sessions s) (cvs s') (jds s') (interviews s') (questions s') (answers s')
               (summaries s') (next_interview_id s') (next_question_id s')
               (next_answer_id s') = s
    /\ (httpStatus resp <> 401 -> s' = s)
    /\ forall d, body resp = ApiSuccess d ->
                 getInterviewState uuid s = (Returns (Some d), s).
Proof.
  intros result s'. subst result s'.
  unfold GET_state, catch_state_error, bind, ret.
  destruct (String.eqb uuid ""); simpl.
  { eexists. split; [reflexivity|]. simpl. split; [tauto|].
    split; [now destruct s|]. split; [reflexivity | discriminate]. }
  rewrite validateSession_cases.
  destruct (Session_findOne uuid s) as [session|] eqn:Hfind; simpl.
  2:{ eexists. split; [reflexivity|]. simpl. split; [tauto|].
      split; [now destruct s|]. split; [reflexivity | discriminate]. }
  destruct (Session.expires_at session <? now) eqn:Hexp; simpl.
  { eexists. split; [reflexivity|]. simpl. split; [tauto|].
    split; [|split; [congruence | discriminate]].
    destruct (SessionStatus_eqb (Session.status session) s_expired); now destruct s. }
  pose proof (getInterviewState_reads uuid s) as Hreads.
  destruct (getInterviewState uuid s) as [[[view|]|e] s2]; simpl in Hreads; subst s2;
    simpl.
  - eexists. split; [reflexivity|]. simpl. split; [tauto|].
    split; [now destruct s|]. split; [reflexivity|].
    intros d Hd. inversion Hd. reflexivity.
  - eexists. split; [reflexivity|]. simpl. split; [tauto|].
    split; [now destruct s|]. split; [reflexivity | discriminate].
  - eexists. split; [reflexivity|]. simpl. split; [tauto|].
    split; [now destruct s|]. split; [reflexivity | discriminate].
Qed.

End RouteFacts.

Lemma POST_answer_error_status_witness :
  POST_answer mock_config no_backend (fun text => text) 700000
    {| req_sessionUuid := "u-1"; req_questionId := 2;
       req_answerText := "One more thing."; req_responseTimeMs := None |}
    demo_finished
  = (Returns (json_error 500 "PROCESS_ANSWER_ERROR" "No active interview found"),
     demo_finished).
Proof.
  destruct (POST_answer_error_status mock_config no_backend (fun text => text) 700000
              {| req_sessionUuid := "u-1"; req_questionId := 2;
                 req_answerText := "One more thing."; req_responseTimeMs := None |}
              demo_finished (Session.mk 1 "u-1" s_completed 86400000))
    as [Hdone _].
  - discriminate.
  - discriminate.
  - discriminate.
  - discriminate.
  - vm_compute. reflexivity.
  - simpl. lia.
  - apply Hdone. vm_compute. reflexivity.
Defined.

Lemma POST_start_missing_data_witness :
  POST_start mock_config no_backend 1000 "u-1"
    (mkStore [Session.mk 1 "u-1" s_cv_uploaded 86400000]
       [CV.mk 1 1 (Some (ParsedCVData.mk "mid" 4))] [] [] [] [] [] 1 1 1)
  = (Returns (json_error 400 "MISSING_DATA"
                "CV and JD must be parsed before starting interview"),
     mkStore [Session.mk 1 "u-1" s_cv_uploaded 86400000]
       [CV.mk 1 1 (Some (ParsedCVData.mk "mid" 4))] [] [] [] [] [] 1 1 1).
Proof.
  apply (POST_start_missing_data mock_config no_backend 1000 "u-1" _
           (Session.mk 1 "u-1" s_cv_uploaded 86400000)).
  - discriminate.
  - reflexivity.
  - simpl. lia.
  - right. reflexivity.
Defined.

